(** * Causal flash attention (session_2/flash_attention.py)

    A shallow embedding of the host functions [FlashAttention.forward] and
    [FlashAttention.backward] and of the Triton kernels [_attn_fwd],
    [_attn_bwd_preprocess] and [_attn_bwd_dk_dv], and of the reference
    computation and the comparison of [test_op].

    Conventions.
    - Tensor storage is a map from element offsets to values; a tensor is a
      shape, a list of strides and a storage, and every access goes through
      the same offset arithmetic as the source.
    - A Triton block of static shape [(m, n)] is a function of a row and a
      column index, a vector a function of one index; reductions run over
      the static extent.
    - Scalar arithmetic is an interface ([Arith]); the kernels are written
      once over it.  Its instance [R_arith] interprets the operations in
      exact real arithmetic: rounding is not modelled.
    - [-float('inf')] is the extra point [NegInf] of the type [ext].
    - Python exceptions are the [Raise] results of an error monad. *)

From Stdlib Require Import List Arith Lia Bool Reals Lra String Sorted
  Permutation.
Import ListNotations.

Set Implicit Arguments.

(** ** Python results *)

Inductive exn : Type :=
| AssertionError
| TypeError
| ValueError
| IndexError
| AttributeError
| KeyError
| CompilationError.

Inductive result (A : Type) : Type :=
| Ok (a : A)
| Raise (e : exn).

Arguments Ok {A} a.
Arguments Raise {A} e.

Definition bind {A B : Type} (c : result A) (k : A -> result B) : result B :=
  match c with
  | Ok a => k a
  | Raise e => Raise e
  end.

Declare Scope py_scope.
Delimit Scope py_scope with py.
Notation "x <- c ;; k" := (bind c (fun x => k))
  (at level 61, c at next level, right associativity) : py_scope.
Notation "' p <- c ;; k" := (bind c (fun x => let p := x in k))
  (at level 61, p pattern, c at next level, right associativity) : py_scope.
Notation "c ;;; k" := (bind c (fun _ => k))
  (at level 61, right associativity) : py_scope.
Open Scope py_scope.

(** [assert b] *)
Definition py_assert (b : bool) : result unit :=
  if b then Ok tt else Raise AssertionError.

(** ** Scalars *)

(** The scalar operations the kernels use. *)
Class Arith (F : Type) : Type := {
  f_zero : F;
  f_add : F -> F -> F;
  f_sub : F -> F -> F;
  f_mul : F -> F -> F;
  f_div : F -> F -> F;
  f_neg : F -> F;
  f_maximum : F -> F -> F;
  f_exp : F -> F;
  f_log : F -> F;
  (** the literal [1.0e6] *)
  f_lit_1e6 : F
}.

(** A scalar or [-float('inf')]. *)
Inductive ext (F : Type) : Type :=
| NegInf
| Fin (x : F).

Arguments NegInf {F}.
Arguments Fin {F} x.

(** ** Integer helpers *)

(** [triton.cdiv(x, y)]: [(x + y - 1) // y]. *)
Definition cdiv (x y : nat) : nat := (x + y - 1) / y.

(** [tl.range(start, stop, step)] (and Python's [range]) for a positive
    step: [start, start + step, ...], all below [stop]. *)
Definition tl_range (start stop step : nat) : list nat :=
  map (fun k => start + k * step) (seq 0 (cdiv (stop - start) step)).

(** ** Tensors *)

Record Tensor (E : Type) : Type := mkTensor {
  shape : list nat;
  stride : list nat;
  data : nat -> E
}.

(** Storage update at one offset. *)
Definition upd {E : Type} (m : nat -> E) (a : nat) (v : E) : nat -> E :=
  fun x => if Nat.eqb x a then v else m x.

(** A sequence of stores, applied first to last. *)
Definition apply_stores {E : Type} (m : nat -> E) (ws : list (nat * E))
  : nat -> E :=
  fold_left (fun m w => upd m (fst w) (snd w)) ws m.

(** Row-major strides of a shape. *)
Fixpoint contiguous_strides (sh : list nat) : list nat :=
  match sh with
  | [] => []
  | _ :: rest => fold_right Nat.mul 1 rest :: contiguous_strides rest
  end.

(** The test behind [T.is_contiguous()], over the axes innermost first, each
    as (extent, stride): an axis of extent 1 may have any stride, every other
    axis must have the stride [z] that the axes inside it add up to. *)
Fixpoint contiguous_from (z : nat) (axes : list (nat * nat)) : bool :=
  match axes with
  | [] => true
  | (extent, st) :: rest =>
      if Nat.eqb extent 1 then contiguous_from z rest
      else if Nat.eqb st z then contiguous_from (z * extent) rest
      else false
  end.

(** [T.is_contiguous()]; a tensor without elements is contiguous. *)
Definition is_contiguous {E : Type} (T : Tensor E) : bool :=
  if Nat.eqb (fold_right Nat.mul 1 (shape T)) 0 then true
  else contiguous_from 1 (rev (combine (shape T) (stride T))).

(** [T.stride(k)]; the dimension must exist. *)
Definition stride_at {E : Type} (T : Tensor E) (k : nat) : result nat :=
  match nth_error (stride T) k with
  | Some s => Ok s
  | None => Raise IndexError
  end.

(** [T.shape[-1]] *)
Definition shape_last {E : Type} (T : Tensor E) : result nat :=
  match rev (shape T) with
  | d :: _ => Ok d
  | [] => Raise IndexError
  end.

(** [a, b, c, d = T.shape] *)
Definition unpack4 (sh : list nat) : result (nat * nat * nat * nat) :=
  match sh with
  | [a; b; c; d] => Ok (a, b, c, d)
  | _ => Raise ValueError
  end.

(** [torch.empty_like(T)]: the shape and (for a dense tensor) the strides of
    [T] over fresh storage, whose contents [fresh] are whatever the
    allocator left there. *)
Definition empty_like {E E' : Type} (fresh : nat -> E') (T : Tensor E)
  : Tensor E' :=
  mkTensor (shape T) (stride T) fresh.

(** ** Triton blocks *)

Section Blocks.
Context {F : Type} {A : Arith F}.

Definition vec : Type := nat -> F.
Definition block : Type := nat -> nat -> F.

(** [tl.sum] over an extent of [n], accumulated left to right. *)
Fixpoint tl_sum (n : nat) (f : vec) : F :=
  match n with
  | 0 => f_zero
  | S k => f_add (tl_sum k f) (f k)
  end.

(** Maximum of [f 0 .. f k]. *)
Fixpoint max_upto (k : nat) (f : vec) : F :=
  match k with
  | 0 => f 0
  | S k' => f_maximum (max_upto k' f) (f k)
  end.

(** [tl.max] over an extent of [n]; block extents are positive. *)
Definition tl_max (n : nat) (f : vec) : F := max_upto (n - 1) f.

(** [tl.dot(a, b)] with inner extent [K]. *)
Definition tl_dot (K : nat) (a b : block) : block :=
  fun r c => tl_sum K (fun k => f_mul (a r k) (b k c)).

(** [tl.maximum(m, x)] where [m] may still be [-inf]. *)
Definition ext_maximum (m : ext F) (x : F) : F :=
  match m with
  | NegInf => x
  | Fin m' => f_maximum m' x
  end.

(** [tl.exp(m - x)] for a finite [x]: [exp(-inf)] is 0. *)
Definition ext_exp_sub (m : ext F) (x : F) : F :=
  match m with
  | NegInf => f_zero
  | Fin m' => f_exp (f_sub m' x)
  end.

(** [m + tl.math.log(l)]: [-inf] absorbs a finite or [-inf] logarithm. *)
Definition ext_add_log (m : ext F) (l : F) : ext F :=
  match m with
  | NegInf => NegInf
  | Fin m' => Fin (f_add m' (f_log l))
  end.

(** *** Block pointers *)

Record block_ptr : Type := mkBlockPtr {
  bp_mem : nat -> F;         (* the storage the base points into *)
  bp_base : nat;             (* offset of the base *)
  bp_strides : nat * nat;
  bp_offsets : nat * nat;
  bp_block_shape : nat * nat
}.

(** Offset of element [(r, c)] of the block. *)
Definition bp_addr (p : block_ptr) (r c : nat) : nat :=
  bp_base p
  + (fst (bp_offsets p) + r) * fst (bp_strides p)
  + (snd (bp_offsets p) + c) * snd (bp_strides p).

(** [tl.load(p)], no boundary check. *)
Definition tl_load (p : block_ptr) : block :=
  fun r c => bp_mem p (bp_addr p r c).

(** [tl.advance(p, (d0, d1))] *)
Definition tl_advance (p : block_ptr) (d : nat * nat) : block_ptr :=
  mkBlockPtr (bp_mem p) (bp_base p) (bp_strides p)
    (fst (bp_offsets p) + fst d, snd (bp_offsets p) + snd d)
    (bp_block_shape p).

(** [tl.store(p, b)]: the stores it performs, row by row. *)
Definition tl_store (p : block_ptr) (b : block) : list (nat * F) :=
  flat_map
    (fun r => map (fun c => (bp_addr p r c, b r c))
                (seq 0 (snd (bp_block_shape p))))
    (seq 0 (fst (bp_block_shape p))).
End Blocks.

(** ** The forward kernel *)

(** Block sizes, supplied by the autotuner. *)
Record Config : Type := mkConfig {
  BLOCK_SIZE_Q : nat;
  BLOCK_SIZE_KV : nat
}.

(** The [configs] of [@triton.autotune] on [_attn_fwd]. *)
Definition autotune_configs : list Config :=
  [ mkConfig 64 64; mkConfig 128 128 ].

(** The configuration the autotuner settles on; [pick] stands for the
    outcome of its timing runs. *)
Definition autotune (pick : nat) : Config :=
  nth pick autotune_configs (mkConfig 64 64).

Section ForwardKernel.
Context {F : Type} {A : Arith F}.

(** The keyword arguments of the launch of [_attn_fwd]. *)
Record fwd_args : Type := mkFwdArgs {
  Q_ptr : nat -> F;
  K_ptr : nat -> F;
  V_ptr : nat -> F;
  O_ptr : nat -> F;
  M_ptr : nat -> ext F;
  softmax_scale : F;
  stride_Q_batch : nat;
  stride_Q_head : nat;
  stride_Q_seq : nat;
  stride_Q_dim : nat;
  stride_K_batch : nat;
  stride_K_head : nat;
  stride_K_seq : nat;
  stride_K_dim : nat;
  stride_V_batch : nat;
  stride_V_head : nat;
  stride_V_seq : nat;
  stride_V_dim : nat;
  stride_O_batch : nat;
  stride_O_head : nat;
  stride_O_seq : nat;
  stride_O_dim : nat;
  stride_M_batch : nat;
  stride_M_head : nat;
  stride_M_seq : nat;
  BATCH_SIZE : nat;
  NUM_HEADS : nat;
  SEQ_LEN : nat;
  HEAD_DIM : nat
}.

(** The loop-carried variables of the key/value loop. *)
Record fwd_state : Type := mkFwdState {
  s_max : nat -> ext F;
  softmax_denom : vec (F := F);
  O_block : block (F := F);
  K_block_ptr : block_ptr (F := F);
  V_block_ptr : block_ptr (F := F)
}.

(** What one program instance writes. *)
Record fwd_stores : Type := mkFwdStores {
  O_stores : list (nat * F);
  M_stores : list (nat * ext F)
}.

Section Instance.
Variable a : fwd_args.
Variable meta : Config.
(** [tl.program_id(axis=0)], [tl.program_id(axis=1)] *)
Variables query_block_idx batch_head_idx : nat.

(** [inf = 1.0e6] *)
Definition inf : F := f_lit_1e6.

Definition batch_idx : nat := batch_head_idx / NUM_HEADS a.
Definition head_idx : nat := batch_head_idx mod NUM_HEADS a.

Definition qkv_offset : nat :=
  batch_idx * stride_Q_batch a + head_idx * stride_Q_head a.

Definition Q_block_ptr : block_ptr :=
  mkBlockPtr (Q_ptr a) qkv_offset
    (stride_Q_seq a, stride_Q_dim a)
    (query_block_idx * BLOCK_SIZE_Q meta, 0)
    (BLOCK_SIZE_Q meta, HEAD_DIM a).

Definition K_block_ptr0 : block_ptr :=
  mkBlockPtr (K_ptr a) qkv_offset
    (stride_K_dim a, stride_K_seq a)
    (0, 0)
    (HEAD_DIM a, BLOCK_SIZE_KV meta).

Definition V_block_ptr0 : block_ptr :=
  mkBlockPtr (V_ptr a) qkv_offset
    (stride_V_seq a, stride_V_dim a)
    (0, 0)
    (BLOCK_SIZE_KV meta, HEAD_DIM a).

Definition O_block_ptr : block_ptr :=
  mkBlockPtr (O_ptr a) qkv_offset
    (stride_O_seq a, stride_O_dim a)
    (query_block_idx * BLOCK_SIZE_Q meta, 0)
    (BLOCK_SIZE_Q meta, HEAD_DIM a).

Definition Q_block : block := tl_load Q_block_ptr.

(** [offs_q = query_block_idx * BLOCK_SIZE_Q + tl.arange(0, BLOCK_SIZE_Q)] *)
Definition offs_q (r : nat) : nat := query_block_idx * BLOCK_SIZE_Q meta + r.
(** [offs_kv = tl.arange(0, BLOCK_SIZE_KV)] *)
Definition offs_kv (c : nat) : nat := c.

Definition end_key_idx : nat := (query_block_idx + 1) * BLOCK_SIZE_Q meta.

(** The key/value block starts the loop runs over. *)
Definition kv_starts : list nat := tl_range 0 end_key_idx (BLOCK_SIZE_KV meta).

(** [causal_mask = offs_q[:, None] >= (start_kv_idx + offs_kv[None, :])] *)
Definition causal_mask (start_kv_idx : nat) (r c : nat) : bool :=
  start_kv_idx + offs_kv c <=? offs_q r.

(** [S_block] of one iteration, from the blocks it loaded. *)
Definition S_block_of (K_block : block) (start_kv_idx : nat) : block :=
  fun r c =>
    f_add
      (f_mul (tl_dot (HEAD_DIM a) Q_block K_block r c) (softmax_scale a))
      (if causal_mask start_kv_idx r c then f_zero else f_neg inf).

(** [new_s_max] of one iteration. *)
Definition new_s_max_of (st : fwd_state) (start_kv_idx : nat) (r : nat) : F :=
  let S_block := S_block_of (tl_load (K_block_ptr st)) start_kv_idx in
  let local_s_max := fun r => tl_max (BLOCK_SIZE_KV meta) (S_block r) in
  ext_maximum (s_max st r) (local_s_max r).

(** [P_block] of one iteration. *)
Definition P_block_of (st : fwd_state) (start_kv_idx : nat) : block :=
  let S_block := S_block_of (tl_load (K_block_ptr st)) start_kv_idx in
  let new_s_max := new_s_max_of st start_kv_idx in
  fun r c => f_exp (f_sub (S_block r c) (new_s_max r)).

(** One iteration of the loop over [start_kv_idx]. *)
Definition fwd_body (st : fwd_state) (start_kv_idx : nat) : fwd_state :=
  let K_block := tl_load (K_block_ptr st) in
  let V_block := tl_load (V_block_ptr st) in
  let S_block := S_block_of K_block start_kv_idx in
  let local_s_max := fun r => tl_max (BLOCK_SIZE_KV meta) (S_block r) in
  let new_s_max := new_s_max_of st start_kv_idx in
  let corrective_factor := fun r => ext_exp_sub (s_max st r) (new_s_max r) in
  let P_block := P_block_of st start_kv_idx in
  let P_rowsum := fun r => tl_sum (BLOCK_SIZE_KV meta) (P_block r) in
  let softmax_denom' :=
    fun r => f_add (f_mul (corrective_factor r) (softmax_denom st r))
                   (P_rowsum r) in
  let O_block1 := fun r c => f_mul (O_block st r c) (corrective_factor r) in
  let O_block2 :=
    fun r c => f_add (O_block1 r c)
                     (tl_dot (BLOCK_SIZE_KV meta) P_block V_block r c) in
  let s_max' := fun r => Fin (ext_maximum (s_max st r) (local_s_max r)) in
  mkFwdState s_max' softmax_denom' O_block2
    (tl_advance (K_block_ptr st) (0, BLOCK_SIZE_KV meta))
    (tl_advance (V_block_ptr st) (BLOCK_SIZE_KV meta, 0)).

Definition fwd_init : fwd_state :=
  mkFwdState (fun _ => NegInf) (fun _ => f_zero) (fun _ _ => f_zero)
    K_block_ptr0 V_block_ptr0.

(** The state when the loop exits. *)
Definition fwd_loop : fwd_state := fold_left fwd_body kv_starts fwd_init.

(** [O_block / softmax_denom[:, None]] *)
Definition O_block_final : block :=
  fun r c => f_div (O_block fwd_loop r c) (softmax_denom fwd_loop r).

(** [s_max += tl.math.log(softmax_denom)] *)
Definition s_max_final (r : nat) : ext F :=
  ext_add_log (s_max fwd_loop r) (softmax_denom fwd_loop r).

(** [offs_m] *)
Definition offs_m (r : nat) : nat :=
  offs_q r + batch_idx * stride_M_batch a + head_idx * stride_M_head a.

Definition _attn_fwd : fwd_stores :=
  mkFwdStores
    (tl_store O_block_ptr O_block_final)
    (map (fun r => (offs_m r, s_max_final r)) (seq 0 (BLOCK_SIZE_Q meta))).
End Instance.

(** The program ids of a two-axis grid. *)
Definition program_ids (g0 g1 : nat) : list (nat * nat) :=
  flat_map (fun p1 => map (fun p0 => (p0, p1)) (seq 0 g0)) (seq 0 g1).

(** [_attn_fwd[grid](...)]: every program instance runs on the same
    inputs; their stores are applied one instance after the other. *)
Definition launch_attn_fwd (a : fwd_args) (meta : Config) (g0 g1 : nat)
  : (nat -> F) * (nat -> ext F) :=
  fold_left
    (fun om pid =>
       let w := _attn_fwd a meta (fst pid) (snd pid) in
       (apply_stores (fst om) (O_stores w), apply_stores (snd om) (M_stores w)))
    (program_ids g0 g1) (O_ptr a, M_ptr a).
End ForwardKernel.

(** ** The host functions *)

Section Host.
Context {F : Type} {A : Arith F}.

(** The Python values the two entry points hand back. *)
#[warnings="-register-all"]
Inductive pyobj : Type :=
| PyNone
| PyTensor (t : Tensor F)
| PyRowTensor (t : Tensor (ext F))
| PyTuple (l : list pyobj).

(** The autograd context after [forward]: the attributes [forward] assigns.
    An attribute that was never assigned is [None]. *)
Record Ctx : Type := mkCtx {
  saved_tensors :
    Tensor F * Tensor F * Tensor F * Tensor F * Tensor (ext F);
  ctx_grid : option (Config -> nat * nat * nat);
  ctx_softmax_scale : option F;
  ctx_head_dim : option nat
}.

(** [torch.zeros(sh)] *)
Definition zeros (sh : list nat) : Tensor (ext F) :=
  mkTensor sh (contiguous_strides sh) (fun _ => Fin f_zero).

(** [FlashAttention.forward(ctx, Q, K, V, softmax_scale)].  [fresh] is the
    content of the storage [torch.empty_like] returns, [pick] the
    autotuner's choice. *)
Definition forward (fresh : nat -> F) (pick : nat)
    (Q K V : Tensor F) (softmax_scale : F) : result (pyobj * Ctx) :=
  HEAD_DIM_Q <- shape_last Q ;;
  HEAD_DIM_K <- shape_last K ;;
  HEAD_DIM_V <- shape_last V ;;
  py_assert (Nat.eqb HEAD_DIM_Q HEAD_DIM_K && Nat.eqb HEAD_DIM_K HEAD_DIM_V) ;;;
  ' (batch_size, num_heads, seq_len, head_dim) <- unpack4 (shape Q) ;;
  let O := empty_like fresh Q in
  let M := zeros [batch_size; num_heads; seq_len] in
  let grid := fun meta : Config =>
    (cdiv seq_len (BLOCK_SIZE_Q meta), batch_size * num_heads, 1) in
  sQ0 <- stride_at Q 0 ;; sQ1 <- stride_at Q 1 ;;
  sQ2 <- stride_at Q 2 ;; sQ3 <- stride_at Q 3 ;;
  sK0 <- stride_at K 0 ;; sK1 <- stride_at K 1 ;;
  sK2 <- stride_at K 2 ;; sK3 <- stride_at K 3 ;;
  sV0 <- stride_at V 0 ;; sV1 <- stride_at V 1 ;;
  sV2 <- stride_at V 2 ;; sV3 <- stride_at V 3 ;;
  sO0 <- stride_at O 0 ;; sO1 <- stride_at O 1 ;;
  sO2 <- stride_at O 2 ;; sO3 <- stride_at O 3 ;;
  sM0 <- stride_at M 0 ;; sM1 <- stride_at M 1 ;; sM2 <- stride_at M 2 ;;
  let args :=
    mkFwdArgs (data Q) (data K) (data V) (data O) (data M) softmax_scale
      sQ0 sQ1 sQ2 sQ3 sK0 sK1 sK2 sK3 sV0 sV1 sV2 sV3 sO0 sO1 sO2 sO3
      sM0 sM1 sM2 batch_size num_heads seq_len head_dim in
  let meta := autotune pick in
  let om := launch_attn_fwd args meta (fst (fst (grid meta))) (snd (fst (grid meta))) in
  let O' := mkTensor (shape O) (stride O) (fst om) in
  let M' := mkTensor (shape M) (stride M) (snd om) in
  Ok (PyTensor O',
      mkCtx (Q, K, V, O', M') (Some grid) (Some softmax_scale) None).
End Host.

(** ** Launching a kernel *)

(** A kernel is called with keyword arguments; the call binds them to the
    kernel's parameters and fails when a parameter has no argument or an
    argument names no parameter. *)
Definition bind_kwargs (params given : list string) : result unit :=
  if forallb (fun p => existsb (String.eqb p) given) params
     && forallb (fun g => existsb (String.eqb g) params) given
  then Ok tt else Raise TypeError.

(** [meta[key]] in a grid function. *)
Fixpoint meta_get (meta : list (string * nat)) (key : string) : result nat :=
  match meta with
  | [] => Raise KeyError
  | (k, v) :: rest => if String.eqb k key then Ok v else meta_get rest key
  end.

(** An integer or a string, as an argument of [triton.cdiv]. *)
Inductive pyval : Type :=
| VInt (n : nat)
| VStr (s : string).

(** [triton.cdiv(x, y)] on Python values: the arithmetic needs integers. *)
Definition triton_cdiv (x y : pyval) : result nat :=
  match x, y with
  | VInt x', VInt y' => Ok (cdiv x' y')
  | _, _ => Raise TypeError
  end.

(** [sh(k)]: a [torch.Size] is a tuple, and a tuple cannot be called. *)
Definition call_size (sh : list nat) (k : nat) : result nat :=
  Raise TypeError.

(** [a, b, c = sh[:3]] *)
Definition unpack3_prefix (sh : list nat) : result (nat * nat * nat) :=
  match firstn 3 sh with
  | [a; b; c] => Ok (a, b, c)
  | _ => Raise ValueError
  end.

(** ** The backward kernels *)

Module BwdPreprocess.
Section Kernel.
Context {F : Type} {A : Arith F}.

(** What [tl.load] is applied to: a block of pointers into a storage, or a
    block of plain integers. *)
Inductive load_arg : Type :=
  | PtrBlock (mem : nat -> F) (offs : nat -> nat -> nat)
  | IntBlock (offs : nat -> nat -> nat).

(** [tl.load(x)]: only pointers can be loaded from; anything else is
    rejected when the kernel is compiled. *)
Definition tl_load (x : load_arg) : result (block (F := F)) :=
  match x with
  | PtrBlock mem offs => Ok (fun r c => mem (offs r c))
  | IntBlock _ => Raise CompilationError
  end.

Record args : Type := mkArgs {
  O : nat -> F;
  dO : nat -> F;
  D : nat -> F;
  stride_O_batch : nat;
  stride_O_head : nat;
  stride_O_seq : nat;
  stride_O_dim : nat;
  stride_dO_batch : nat;
  stride_dO_head : nat;
  stride_dO_seq : nat;
  stride_dO_dim : nat;
  stride_D_batch : nat;
  stride_D_head : nat;
  stride_D_seq : nat;
  NUM_HEADS : nat;
  SEQ_LEN : nat;
  HEAD_DIM : nat;
  BLOCK_SIZE_SEQ : nat
}.

(** The parameter names of the kernel. *)
Definition params : list string :=
  [ "O"; "dO"; "D";
    "stride_O_batch"; "stride_O_head"; "stride_O_seq"; "stride_O_dim";
    "stride_dO_batch"; "stride_dO_head"; "stride_dO_seq"; "stride_dO_dim";
    "stride_D_batch"; "stride_D_head"; "stride_D_seq";
    "NUM_HEADS"; "SEQ_LEN"; "HEAD_DIM"; "BLOCK_SIZE_SEQ" ]%string.

Section Instance.
Variable a : args.
Variables query_block_idx batch_head_idx : nat.

Definition batch_idx : nat := batch_head_idx / NUM_HEADS a.
Definition head_idx : nat := batch_head_idx mod NUM_HEADS a.

Definition offs_seq (r : nat) : nat :=
  query_block_idx * BLOCK_SIZE_SEQ a + r.
Definition offs_head (c : nat) : nat := c.

Definition offs_o (r c : nat) : nat :=
  batch_idx * stride_O_batch a + head_idx * stride_O_head a
  + offs_seq r * stride_O_seq a
  + offs_head c.

Definition offs_di (r : nat) : nat :=
  batch_idx * stride_D_batch a + batch_head_idx * stride_D_head a
  + offs_seq r.

(** One program instance: the stores into [D] it performs. *)
Definition _attn_bwd_preprocess : result (list (nat * F)) :=
  O_block <- tl_load (IntBlock offs_o) ;;
  dO_block <- tl_load (IntBlock offs_o) ;;
  let Di_block :=
    fun r => tl_sum (HEAD_DIM a)
               (fun c => f_mul (O_block r c) (dO_block r c)) in
  Ok (map (fun r => (offs_di r, Di_block r)) (seq 0 (BLOCK_SIZE_SEQ a))).
End Instance.
End Kernel.
End BwdPreprocess.

Module BwdDkDv.
Section Kernel.
Context {F : Type} {A : Arith F}.

Record args : Type := mkArgs {
  Q : nat -> F;
  K : nat -> F;
  V : nat -> F;
  softmax_scale : F;
  dO : nat -> F;
  dQ : nat -> F;
  dK : nat -> F;
  dV : nat -> F;
  M : nat -> ext F;
  D : nat -> F;
  stride_q_batch : nat;
  stride_q_head : nat;
  stride_q_seq : nat;
  stride_q_dim : nat;
  NUM_HEADS : nat;
  SEQ_LEN : nat;
  HEAD_DIM : nat
}.

Definition params : list string :=
  [ "Q"; "K"; "V"; "softmax_scale"; "dO"; "dQ"; "dK"; "dV"; "M"; "D";
    "stride_q_batch"; "stride_q_head"; "stride_q_seq"; "stride_q_dim";
    "NUM_HEADS"; "SEQ_LEN"; "HEAD_DIM" ]%string.

Section Instance.
Variable a : args.
Variable batch_head_idx : nat.

Definition batch_idx : nat := batch_head_idx / NUM_HEADS a.
Definition head_idx : nat := batch_head_idx mod NUM_HEADS a.

Definition offs_seq : nat :=
  batch_idx * stride_q_batch a + head_idx * stride_q_dim a.

(** The kernel stops after computing [offs_seq]: it stores nothing. *)
Definition _attn_bwd_dk_dv : list (nat * F) * list (nat * F) * list (nat * F) :=
  let _ := offs_seq in
  ([], [], []).
End Instance.
End Kernel.
End BwdDkDv.

(** [obj.attr] for an attribute that may never have been assigned. *)
Definition getattr {X : Type} (attr : option X) : result X :=
  match attr with
  | Some x => Ok x
  | None => Raise AttributeError
  end.

(** Equality of two stride (or shape) tuples. *)
Definition tuple_eqb (l1 l2 : list nat) : bool :=
  if list_eq_dec Nat.eq_dec l1 l2 then true else false.

(** Runs the program instances of a two-axis grid one after the other and
    collects what they return; the first failure ends the launch. *)
Fixpoint run_instances {W : Type} (inst : nat * nat -> result W)
    (pids : list (nat * nat)) : result (list W) :=
  match pids with
  | [] => Ok []
  | pid :: rest =>
      w <- inst pid ;;
      ws <- run_instances inst rest ;;
      Ok (w :: ws)
  end.

(** [Q.stride() == K.stride() == V.stride() == O.stride() == dO.stride()] *)
Definition strides_all_equal {E : Type} (Q K V O dO : Tensor E) : bool :=
  tuple_eqb (stride Q) (stride K)
  && tuple_eqb (stride K) (stride V)
  && tuple_eqb (stride V) (stride O)
  && tuple_eqb (stride O) (stride dO).

Section HostBackward.
Context {F : Type} {A : Arith F}.

(** [FlashAttention.backward(ctx, dO)].  The four [fresh_] arguments are
    the contents of the storages [torch.empty_like] returns. *)
Definition backward (fresh_dQ fresh_dK fresh_dV fresh_D : nat -> F)
    (ctx : Ctx) (dO : Tensor F) : result (pyobj (F := F)) :=
  let saved := saved_tensors ctx in
  let Q := fst (fst (fst (fst saved))) in
  let K := snd (fst (fst (fst saved))) in
  let V := snd (fst (fst saved)) in
  let O := snd (fst saved) in
  let M := snd saved in
  py_assert (is_contiguous dO) ;;;
  py_assert (strides_all_equal Q K V O dO) ;;;
  let dQ := empty_like fresh_dQ Q in
  let dK := empty_like fresh_dK K in
  let dV := empty_like fresh_dV V in
  let D := empty_like fresh_D M in
  ' (BATCH_SIZE, NUM_HEADS, SEQ_LEN) <- unpack3_prefix (shape Q) ;;
  HEAD_DIM_KV <- call_size (shape Q) 3 ;;
  (* _attn_bwd_preprocess[d_grid](...) *)
  let d_grid := fun meta : list (string * nat) =>
    bq <- meta_get meta "BLOCK_SIZE_Q" ;;
    Ok (cdiv SEQ_LEN bq, BATCH_SIZE * NUM_HEADS) in
  sO0 <- stride_at O 0 ;; sO1 <- stride_at O 1 ;;
  sO2 <- stride_at O 2 ;; sO3 <- stride_at O 3 ;;
  sdO0 <- stride_at dO 0 ;; sdO1 <- stride_at dO 1 ;;
  sdO2 <- stride_at dO 2 ;; sdO3 <- stride_at dO 3 ;;
  sD0 <- stride_at D 0 ;; sD1 <- stride_at D 1 ;; sD2 <- stride_at D 2 ;;
  let kw :=
    [ ("stride_O_batch", sO0); ("stride_O_head", sO1);
      ("stride_O_seq", sO2); ("stride_O_dim", sO3);
      ("stride_dO_batch", sdO0); ("stride_dO_head", sdO1);
      ("stride_dO_seq", sdO2); ("stride_dO_dim", sdO3);
      ("stride_D_batch", sD0); ("stride_D_head", sD1);
      ("stride_D_seq", sD2);
      ("NUM_HEADS", NUM_HEADS); ("SEQ_LEN", SEQ_LEN);
      ("HEAD_DIM", HEAD_DIM_KV) ]%string in
  bind_kwargs BwdPreprocess.params
    (["O"; "dO"; "D"]%string ++ map fst kw) ;;;
  block_size_seq <- meta_get kw "BLOCK_SIZE_SEQ" ;;
  ' (g0, g1) <- d_grid kw ;;
  let pre_args :=
    BwdPreprocess.mkArgs (data O) (data dO) (data D)
      sO0 sO1 sO2 sO3 sdO0 sdO1 sdO2 sdO3 sD0 sD1 sD2
      NUM_HEADS SEQ_LEN HEAD_DIM_KV block_size_seq in
  D_stores <- run_instances
    (fun pid => BwdPreprocess._attn_bwd_preprocess pre_args (fst pid) (snd pid))
    (program_ids g0 g1) ;;
  let D' := mkTensor (shape D) (stride D)
              (fold_left (@apply_stores F) D_stores (data D)) in
  (* _attn_bwd_dk_dv[grid](...) *)
  let grid := fun meta : list (string * nat) =>
    n <- triton_cdiv (VInt SEQ_LEN) (VStr "BLOCK_SIZE_SEQ") ;;
    Ok (n, BATCH_SIZE * NUM_HEADS) in
  scale <- getattr (ctx_softmax_scale ctx) ;;
  sQ0 <- stride_at Q 0 ;; sQ1 <- stride_at Q 1 ;;
  sQ2 <- stride_at Q 2 ;; sQ3 <- stride_at Q 3 ;;
  head_dim <- getattr (ctx_head_dim ctx) ;;
  let kw2 :=
    [ ("stride_batch", sQ0); ("stride_head", sQ1);
      ("stride_seq", sQ2); ("stride_dim", sQ3);
      ("NUM_HEADS", NUM_HEADS); ("SEQ_LEN", SEQ_LEN);
      ("HEAD_DIM", head_dim) ]%string in
  bind_kwargs BwdDkDv.params
    (["Q"; "K"; "V"; "softmax_scale"; "dO"; "dQ"; "dK"; "dV"; "M"; "D"]%string
     ++ map fst kw2) ;;;
  ' (h0, h1) <- grid kw2 ;;
  q0 <- meta_get kw2 "stride_q_batch" ;; q1 <- meta_get kw2 "stride_q_head" ;;
  q2 <- meta_get kw2 "stride_q_seq" ;; q3 <- meta_get kw2 "stride_q_dim" ;;
  let dkdv_args :=
    BwdDkDv.mkArgs (data Q) (data K) (data V) scale (data dO)
      (data dQ) (data dK) (data dV) (data M) (data D')
      q0 q1 q2 q3 NUM_HEADS SEQ_LEN head_dim in
  let stores :=
    map (fun pid => BwdDkDv._attn_bwd_dk_dv dkdv_args (snd pid))
        (program_ids h0 h1) in
  (* the function ends here, without a return statement *)
  Ok PyNone.
End HostBackward.

(** ** The reference computation of [test_op] *)

Section Reference.
Context {F : Type} {A : Arith F}.

(** [T[b, h, i, d]] through the strides of [T]. *)
Definition at4 {E : Type} (T : Tensor E) (b h i d : nat) : E :=
  data T (b * nth 0 (stride T) 0 + h * nth 1 (stride T) 0
          + i * nth 2 (stride T) 0 + d * nth 3 (stride T) 0).

(** [T[b, h, i]] *)
Definition at3 {E : Type} (T : Tensor E) (b h i : nat) : E :=
  data T (b * nth 0 (stride T) 0 + h * nth 1 (stride T) 0
          + i * nth 2 (stride T) 0).

(** [exp] of a score that may be [-inf]. *)
Definition ext_exp (x : ext F) : F :=
  match x with
  | NegInf => f_zero
  | Fin v => f_exp v
  end.

(** [torch.softmax] of a row of extent [n]:
    [exp(x_j) / sum_k exp(x_k)]. *)
Definition torch_softmax (n : nat) (x : nat -> ext F) : vec (F := F) :=
  fun j => f_div (ext_exp (x j)) (tl_sum n (fun k => ext_exp (x k))).

Section Ref.
Variables Q K V : Tensor F.
Variable softmax_scale : F.

Definition ref_SEQ_LEN : nat := nth 2 (shape Q) 0.
Definition ref_HEAD_DIM : nat := nth 3 (shape Q) 0.

(** [MASK = torch.tril(torch.ones((SEQ_LEN, SEQ_LEN)))] *)
Definition MASK (i j : nat) : nat := if j <=? i then 1 else 0.

(** [P = torch.matmul(Q, K.transpose(2, 3)) * softmax_scale], then
    [P[:, :, MASK == 0] = float("-inf")]. *)
Definition ref_P (b h i j : nat) : ext F :=
  if Nat.eqb (MASK i j) 0 then NegInf
  else Fin (f_mul
              (tl_sum ref_HEAD_DIM
                 (fun d => f_mul (at4 Q b h i d) (at4 K b h j d)))
              softmax_scale).

(** [ref_O = torch.matmul(torch.softmax(P, dim=-1), V)] *)
Definition ref_O (b h i d : nat) : F :=
  tl_sum ref_SEQ_LEN
    (fun j => f_mul (torch_softmax ref_SEQ_LEN (ref_P b h i) j)
                    (at4 V b h j d)).
End Ref.
End Reference.

(** ** Exact arithmetic *)

#[export] Instance R_arith : Arith R := {
  f_zero := 0%R;
  f_add := Rplus;
  f_sub := Rminus;
  f_mul := Rmult;
  f_div := Rdiv;
  f_neg := Ropp;
  f_maximum := Rmax;
  f_exp := exp;
  f_log := ln;
  f_lit_1e6 := 1000000%R
}.

(** ** Quantities the statements are phrased with *)

Section Views.
Context {F : Type} {A : Arith F}.
Variable a : fwd_args (F := F).
Variable meta : Config.
Variables query_block_idx batch_head_idx : nat.

(** The loop-carried state after the first [n] key/value blocks. *)
Definition fwd_after (n : nat) : fwd_state :=
  fold_left (fwd_body a meta query_block_idx batch_head_idx)
    (map (fun k => 0 + k * BLOCK_SIZE_KV meta) (seq 0 n))
    (fwd_init a meta batch_head_idx).

(** Number of key/value blocks the loop visits. *)
Definition num_kv_blocks : nat :=
  cdiv (end_key_idx meta query_block_idx - 0) (BLOCK_SIZE_KV meta).

(** Number of key columns the loop visits. *)
Definition num_kv_cols : nat := num_kv_blocks * BLOCK_SIZE_KV meta.

(** Row [j] of the key and of the value matrix of this batch and head, as
    the kernel addresses them. *)
Definition K_at (j k : nat) : F :=
  K_ptr a (qkv_offset a batch_head_idx
           + (0 + k) * stride_K_dim a + (0 + j) * stride_K_seq a).
Definition V_at (j c : nat) : F :=
  V_ptr a (qkv_offset a batch_head_idx
           + (0 + j) * stride_V_seq a + (0 + c) * stride_V_dim a).

(** The scaled score of block row [r] against key column [j], before the
    mask term is added. *)
Definition raw_score (r j : nat) : F :=
  f_mul (tl_sum (HEAD_DIM a)
           (fun k => f_mul (Q_block a meta query_block_idx batch_head_idx r k)
                           (K_at j k)))
        (softmax_scale a).

(** The entry of [S_block] for block row [r] and key column [j]. *)
Definition score (r j : nat) : F :=
  f_add (raw_score r j)
        (if j <=? offs_q meta query_block_idx r then f_zero
         else f_neg inf).

(** [new_s_max] of block row [r] in iteration [n]. *)
Definition new_s_max_at (n r : nat) : F :=
  ext_maximum (s_max (fwd_after n) r)
    (tl_max (BLOCK_SIZE_KV meta)
       (fun c => score r (n * BLOCK_SIZE_KV meta + c))).

(** The largest score of block row [r] over the first [n] key/value
    blocks. *)
Definition running_max (n r : nat) : F :=
  max_upto (n * BLOCK_SIZE_KV meta - 1) (score r).

(** The weight the loop gives key column [j] in block row [r] once all
    blocks are processed. *)
Definition weight (r j : nat) : F :=
  f_exp (f_sub (score r j) (running_max num_kv_blocks r)).
End Views.

(** ** Attention with an additive sentinel *)

Section SentinelAttention.
Context {F : Type} {A : Arith F}.
Variables Q K V : Tensor F.
Variable softmax_scale : F.

(** The scaled score of query row [i] against key row [j], with [-1.0e6]
    added where [j > i]. *)
Definition masked_score (b h i j : nat) : F :=
  f_add
    (f_mul (tl_sum (nth 3 (shape Q) 0)
              (fun k => f_mul (at4 Q b h i k) (at4 K b h j k)))
           softmax_scale)
    (if j <=? i then f_zero else f_neg f_lit_1e6).

(** Softmax-weighted sum of the first [N] value rows under
    [masked_score]. *)
Definition sentinel_attention (N : nat) (b h i d : nat) : F :=
  f_div
    (tl_sum N (fun j => f_mul (f_exp (masked_score b h i j)) (at4 V b h j d)))
    (tl_sum N (fun j => f_exp (masked_score b h i j))).

(** Logarithm of the sum of exponentials of the first [N] masked scores. *)
Definition sentinel_logsumexp (N : nat) (b h i : nat) : F :=
  f_log (tl_sum N (fun j => f_exp (masked_score b h i j))).

(** The sum the log-normalizer check forms for query row [i]:
    [exp(S - m)] over the unmasked key positions [j <= i], [S] the scaled
    score. *)
Definition unmasked_mass (m : F) (b h i : nat) : F :=
  tl_sum (i + 1)
    (fun j =>
       f_exp (f_sub
                (f_mul (tl_sum (nth 3 (shape Q) 0)
                          (fun k => f_mul (at4 Q b h i k) (at4 K b h j k)))
                       softmax_scale)
                m)).
End SentinelAttention.

(** Number of key columns the program instance of query row [i] visits. *)
Definition visited_cols (meta : Config) (i : nat) : nat :=
  num_kv_cols meta (i / BLOCK_SIZE_Q meta).

(** ** The launch [forward] performs *)

Section ForwardViews.
Context {F : Type} {A : Arith F}.
Variable fresh : nat -> F.
Variable pick : nat.
Variables Q K V : Tensor F.
Variable scale : F.

(** The arguments [forward] passes to [_attn_fwd] when every
    [T.stride(k)] it asks for exists. *)
Definition forward_args : fwd_args :=
  mkFwdArgs (data Q) (data K) (data V) fresh (fun _ => Fin f_zero) scale
    (nth 0 (stride Q) 0) (nth 1 (stride Q) 0)
    (nth 2 (stride Q) 0) (nth 3 (stride Q) 0)
    (nth 0 (stride K) 0) (nth 1 (stride K) 0)
    (nth 2 (stride K) 0) (nth 3 (stride K) 0)
    (nth 0 (stride V) 0) (nth 1 (stride V) 0)
    (nth 2 (stride V) 0) (nth 3 (stride V) 0)
    (nth 0 (stride Q) 0) (nth 1 (stride Q) 0)
    (nth 2 (stride Q) 0) (nth 3 (stride Q) 0)
    (nth 1 (shape Q) 0 * (nth 2 (shape Q) 0 * 1)) (nth 2 (shape Q) 0 * 1) 1
    (nth 0 (shape Q) 0) (nth 1 (shape Q) 0)
    (nth 2 (shape Q) 0) (nth 3 (shape Q) 0).

(** The grid of that launch. *)
Definition forward_grid : nat * nat :=
  (cdiv (nth 2 (shape Q) 0) (BLOCK_SIZE_Q (autotune pick)),
   nth 0 (shape Q) 0 * nth 1 (shape Q) 0).

(** The tensors [O] and [M] after the launch. *)
Definition forward_O : Tensor F :=
  mkTensor (shape Q) (stride Q)
    (fst (launch_attn_fwd forward_args (autotune pick)
            (fst forward_grid) (snd forward_grid))).

Definition forward_M : Tensor (ext F) :=
  mkTensor [nth 0 (shape Q) 0; nth 1 (shape Q) 0; nth 2 (shape Q) 0]
    (contiguous_strides
       [nth 0 (shape Q) 0; nth 1 (shape Q) 0; nth 2 (shape Q) 0])
    (snd (launch_attn_fwd forward_args (autotune pick)
            (fst forward_grid) (snd forward_grid))).
End ForwardViews.

(** ** The comparison [test_op] makes *)

Section TestOp.
Local Open Scope R_scope.



End TestOp.

(** ** Concrete inputs *)

Section Examples.
Local Open Scope R_scope.

(** One batch, one head, 64 rows, head dimension 16, contiguous. *)
Definition ex_shape : list nat := [1; 1; 64; 16]%nat.

Definition ex_tensor (f : nat -> R) : Tensor R :=
  mkTensor ex_shape (contiguous_strides ex_shape) f.

(** [Q[0, 0, 0, 0] = 1], all other entries 0. *)
Definition ex_Q : Tensor R := ex_tensor (fun o => if Nat.eqb o 0 then 1 else 0).

(** [K[0, 0, 1, 0] = 2.0e6], all other entries 0. *)
Definition ex_K : Tensor R :=
  ex_tensor (fun o => if Nat.eqb o 16 then 2000000 else 0).

(** [V[0, 0, 1, 0] = 1], all other entries 0. *)
Definition ex_V : Tensor R := ex_tensor (fun o => if Nat.eqb o 16 then 1 else 0).

(** All entries 0. *)
Definition ex_V0 : Tensor R := ex_tensor (fun _ => 0).

(** A key tensor of 128 rows, all entries 0. *)
Definition ex_K_long : Tensor R :=
  mkTensor [1; 1; 128; 16]%nat (contiguous_strides [1; 1; 128; 16]%nat)
    (fun _ => 0).

(** A key tensor of 128 rows with [K[0, 0, 100, 0] = 5], all other
    entries 0. *)
Definition ex_K_far : Tensor R :=
  mkTensor [1; 1; 128; 16]%nat (contiguous_strides [1; 1; 128; 16]%nat)
    (fun o => if Nat.eqb o 1600 then 5 else 0).

(** An output gradient, all entries 1. *)
Definition ex_dO : Tensor R := ex_tensor (fun _ => 1).

(** Freshly allocated storage, here all 0. *)
Definition ex_fresh : nat -> R := fun _ => 0.

(** A key tensor of head dimension 8, all entries 0. *)
Definition ex_K_narrow : Tensor R :=
  mkTensor [1; 1; 64; 8]%nat (contiguous_strides [1; 1; 64; 8]%nat)
    (fun _ => 0).

(** An output gradient whose last two axes are transposed in memory. *)
Definition ex_dO_strided : Tensor R :=
  mkTensor ex_shape [1024; 1024; 1; 64]%nat (fun _ => 1).

(** The context [forward] leaves behind on [ex_Q], [ex_K], [ex_V]. *)
Definition ex_ctx : Ctx :=
  mkCtx (ex_Q, ex_K, ex_V, forward_O ex_fresh 0 ex_Q ex_K ex_V 1,
         forward_M ex_fresh 0 ex_Q ex_K ex_V 1)
    (Some (fun meta : Config => (cdiv 64 (BLOCK_SIZE_Q meta), (1 * 1)%nat, 1%nat)))
    (Some 1) None.

(** The kernel arguments of the forward launch on [ex_Q], [ex_K], [ex_V]. *)
Definition ex_args : fwd_args (F := R) :=
  forward_args ex_fresh ex_Q ex_K ex_V 1.

(** Arguments of [_attn_bwd_preprocess] for [O], [dO] of shape
    [(2, 1, 64, 16)] and [D] of shape [(2, 1, 64)], all contiguous. *)
Definition ex_pre_args : BwdPreprocess.args (F := R) :=
  BwdPreprocess.mkArgs (fun _ => 1) (fun _ => 1) (fun _ => 0)
    1024 1024 16 1 1024 1024 16 1 64 64 1 1 64 16 64.
(** Tensors of 100 rows, not a multiple of either block size; all
    entries 0. *)
Definition ex_Q_ragged : Tensor R :=
  mkTensor [1; 1; 100; 16]%nat (contiguous_strides [1; 1; 100; 16]%nat)
    (fun _ => 0).

(** A key tensor of five dimensions, all entries 0. *)
Definition ex_K_5d : Tensor R :=
  mkTensor [1; 1; 1; 64; 16]%nat (contiguous_strides [1; 1; 1; 64; 16]%nat)
    (fun _ => 0).
End Examples.

(** * Properties *)

(** A chain of binds that returns, resp. raises, taken apart at its first
    computation. *)
Lemma bind_ok_inv {A B : Type} (c : result A) (k : A -> result B) (r : B) :
  bind c k = Ok r -> exists x, c = Ok x /\ k x = Ok r.
Proof. destruct c as [x|e]; cbn; intros H; [eauto|discriminate H]. Qed.

Lemma bind_raise_inv {A B : Type} (c : result A) (k : A -> result B)
    (e : exn) :
  bind c k = Raise e -> c = Raise e \/ exists x, c = Ok x /\ k x = Raise e.
Proof.
  destruct c as [x|e']; cbn; intros H; [eauto|left; congruence].
Qed.

Ltac bind_ok H :=
  let x := fresh "x" in
  let E := fresh "E" in
  apply bind_ok_inv in H as (x & E & H); cbv beta in H.

Ltac bind_raise H :=
  let x := fresh "x" in
  let E := fresh "E" in
  apply bind_raise_inv in H as [H|(x & E & H)]; [|cbv beta in H].


(** ** Reductions, for any scalar arithmetic *)

Section BlockFacts.
Context {F : Type} {A : Arith F}.

Lemma tl_sum_ext (n : nat) (f g : nat -> F) :
  (forall j, j < n -> f j = g j) -> tl_sum n f = tl_sum n g.
Proof.
  induction n as [|n IH]; intros H; [reflexivity|].
  cbn [tl_sum]. rewrite IH by (intros; apply H; lia). rewrite H by lia.
  reflexivity.
Qed.

Lemma max_upto_ext (k : nat) (f g : nat -> F) :
  (forall j, j <= k -> f j = g j) -> max_upto k f = max_upto k g.
Proof.
  induction k as [|k IH]; intros H; cbn [max_upto]; [apply H; lia|].
  rewrite IH by (intros; apply H; lia). rewrite H by lia. reflexivity.
Qed.

Lemma tl_max_ext (n : nat) (f g : nat -> F) :
  0 < n -> (forall j, j < n -> f j = g j) -> tl_max n f = tl_max n g.
Proof.
  intros Hn H. unfold tl_max. apply max_upto_ext. intros j Hj. apply H. lia.
Qed.
End BlockFacts.

(** ** The key/value loop, for any scalar arithmetic *)

Section LoopFacts.
Context {F : Type} {A : Arith F}.
Variable a : fwd_args (F := F).
Variable meta : Config.
Variables query_block_idx batch_head_idx : nat.

Local Abbreviation after := (fwd_after a meta query_block_idx batch_head_idx).
Local Abbreviation B := (BLOCK_SIZE_KV meta).

Lemma fwd_loop_after :
  fwd_loop a meta query_block_idx batch_head_idx
  = after (num_kv_blocks meta query_block_idx).
Proof. reflexivity. Qed.

Lemma fwd_after_S (n : nat) :
  after (S n)
  = fwd_body a meta query_block_idx batch_head_idx (after n) (0 + n * B).
Proof.
  unfold fwd_after. rewrite seq_S, map_app, fold_left_app. reflexivity.
Qed.

Lemma K_block_ptr_after (n : nat) :
  K_block_ptr (after n)
  = mkBlockPtr (K_ptr a) (qkv_offset a batch_head_idx)
      (stride_K_dim a, stride_K_seq a) (0, n * B) (HEAD_DIM a, B).
Proof.
  induction n as [|n IH]; [reflexivity|].
  rewrite fwd_after_S. simpl. rewrite IH. unfold tl_advance. simpl.
  f_equal. f_equal. lia.
Qed.

Lemma V_block_ptr_after (n : nat) :
  V_block_ptr (after n)
  = mkBlockPtr (V_ptr a) (qkv_offset a batch_head_idx)
      (stride_V_seq a, stride_V_dim a) (n * B, 0) (B, HEAD_DIM a).
Proof.
  induction n as [|n IH]; [reflexivity|].
  rewrite fwd_after_S. simpl. rewrite IH. unfold tl_advance. simpl.
  f_equal. f_equal. lia.
Qed.

(** The block of scores of iteration [n] is the window
    [n * B .. n * B + B - 1] of [score]. *)
Lemma S_block_after (n r c : nat) :
  S_block_of a meta query_block_idx batch_head_idx
    (tl_load (K_block_ptr (after n))) (0 + n * B) r c
  = score a meta query_block_idx batch_head_idx r (n * B + c).
Proof. rewrite K_block_ptr_after. reflexivity. Qed.

(** The loop body, row by row. *)
Lemma s_max_after_S (n r : nat) :
  s_max (after (S n)) r
  = Fin (new_s_max_at a meta query_block_idx batch_head_idx n r).
Proof.
  rewrite fwd_after_S. unfold fwd_body, P_block_of, new_s_max_of, new_s_max_at. cbn [s_max].
  rewrite K_block_ptr_after. reflexivity.
Qed.

Lemma softmax_denom_after_S (n r : nat) :
  softmax_denom (after (S n)) r
  = f_add
      (f_mul (ext_exp_sub (s_max (after n) r)
                (new_s_max_at a meta query_block_idx batch_head_idx n r))
             (softmax_denom (after n) r))
      (tl_sum B
         (fun c =>
            f_exp (f_sub
                     (score a meta query_block_idx batch_head_idx r (n * B + c))
                     (new_s_max_at a meta query_block_idx batch_head_idx n r)))).
Proof.
  rewrite fwd_after_S. unfold fwd_body, P_block_of, new_s_max_of, new_s_max_at. cbn [softmax_denom].
  rewrite K_block_ptr_after. reflexivity.
Qed.

Lemma O_block_after_S (n r d : nat) :
  O_block (after (S n)) r d
  = f_add
      (f_mul (O_block (after n) r d)
             (ext_exp_sub (s_max (after n) r)
                (new_s_max_at a meta query_block_idx batch_head_idx n r)))
      (tl_sum B
         (fun c =>
            f_mul
              (f_exp (f_sub
                        (score a meta query_block_idx batch_head_idx r (n * B + c))
                        (new_s_max_at a meta query_block_idx batch_head_idx n r)))
              (V_at a batch_head_idx (n * B + c) d))).
Proof.
  rewrite fwd_after_S. unfold fwd_body, P_block_of, new_s_max_of, new_s_max_at. cbn [O_block].
  rewrite K_block_ptr_after, V_block_ptr_after. reflexivity.
Qed.

Lemma V_block_after (n c d : nat) :
  tl_load (V_block_ptr (after n)) c d
  = V_at a batch_head_idx (n * B + c) d.
Proof. rewrite V_block_ptr_after. reflexivity. Qed.
End LoopFacts.

(** ** Sums and maxima over the reals *)

Section RealSums.
Local Open Scope R_scope.

Lemma Rsum_split (n m : nat) (f : nat -> R) :
  tl_sum (n + m) f = tl_sum n f + tl_sum m (fun c => f (n + c)%nat).
Proof.
  induction m as [|m IH].
  - rewrite Nat.add_0_r. simpl. ring.
  - rewrite Nat.add_succ_r. simpl. rewrite IH. ring.
Qed.

Lemma Rsum_scal (n : nat) (k : R) (f : nat -> R) :
  tl_sum n (fun j => k * f j) = k * tl_sum n f.
Proof.
  induction n as [|n IH]; simpl; [ring|]. rewrite IH. ring.
Qed.

Lemma Rsum_scal_r (n : nat) (k : R) (f : nat -> R) :
  tl_sum n (fun j => f j * k) = tl_sum n f * k.
Proof.
  induction n as [|n IH]; simpl; [ring|]. rewrite IH. ring.
Qed.

Lemma Rsum_nonneg (n : nat) (f : nat -> R) :
  (forall j, (j < n)%nat -> 0 <= f j) -> 0 <= tl_sum n f.
Proof.
  induction n as [|n IH]; intros H; simpl; [lra|].
  assert (0 <= tl_sum n f) by (apply IH; intros; apply H; lia).
  assert (0 <= f n) by (apply H; lia). lra.
Qed.

Lemma Rsum_ge_term (n : nat) (f : nat -> R) (j : nat) :
  (forall k, (k < n)%nat -> 0 <= f k) -> (j < n)%nat -> f j <= tl_sum n f.
Proof.
  induction n as [|n IH]; intros H Hj; [lia|].
  simpl.
  assert (0 <= tl_sum n f) by (apply Rsum_nonneg; intros; apply H; lia).
  assert (0 <= f n) by (apply H; lia).
  destruct (Nat.eq_dec j n) as [->|Hne]; [lra|].
  assert (f j <= tl_sum n f) by (apply IH; [intros; apply H|]; lia). lra.
Qed.

Lemma Rsum_pos (n : nat) (f : nat -> R) :
  (0 < n)%nat -> (forall j, (j < n)%nat -> 0 < f j) -> 0 < tl_sum n f.
Proof.
  intros Hn H.
  apply Rlt_le_trans with (f 0%nat); [apply H; lia|].
  apply Rsum_ge_term; [|lia]. intros k Hk. left. apply H. exact Hk.
Qed.

Lemma max_upto_ge (k : nat) (f : nat -> R) (j : nat) :
  (j <= k)%nat -> f j <= max_upto k f.
Proof.
  induction k as [|k IH]; intros Hj; simpl.
  - replace j with 0%nat by lia. lra.
  - destruct (Nat.eq_dec j (S k)) as [->|Hne]; [apply Rmax_r|].
    apply Rle_trans with (max_upto k f); [apply IH; lia|apply Rmax_l].
Qed.

Lemma max_upto_attained (k : nat) (f : nat -> R) :
  exists j, (j <= k)%nat /\ max_upto k f = f j.
Proof.
  induction k as [|k [j [Hj IH]]]; simpl; [exists 0%nat; split; [lia|reflexivity]|].
  destruct (Rmax_case (max_upto k f) (f (S k)) (fun x => x = max_upto k f \/ x = f (S k)))
    as [H|H]; [left; reflexivity|right; reflexivity| |].
  - exists j. split; [lia|]. rewrite H. exact IH.
  - exists (S k). split; [lia|exact H].
Qed.

Lemma max_upto_split (n b : nat) (f : nat -> R) :
  Rmax (max_upto n f) (max_upto b (fun c => f (S n + c)%nat))
  = max_upto (S n + b) f.
Proof.
  induction b as [|b IH].
  - cbn. rewrite Nat.add_0_r. reflexivity.
  - replace (S n + S b)%nat with (S (S n + b)) by lia.
    change (max_upto (S (S n + b)) f)
      with (Rmax (max_upto (S n + b) f) (f (S (S n + b)))).
    rewrite <- IH.
    change (max_upto (S b) (fun c => f (S n + c)%nat))
      with (Rmax (max_upto b (fun c => f (S n + c)%nat)) (f (S n + S b)%nat)).
    rewrite Rmax_assoc. replace (S n + S b)%nat with (S (S n + b)) by lia.
    reflexivity.
Qed.
End RealSums.

(** ** The online softmax in exact arithmetic *)

Section ExactLoop.
Local Open Scope R_scope.
Variable a : fwd_args (F := R).
Variable meta : Config.
Variables query_block_idx batch_head_idx : nat.
Hypothesis HB : (0 < BLOCK_SIZE_KV meta)%nat.

Local Abbreviation after := (fwd_after a meta query_block_idx batch_head_idx).
Local Abbreviation B := (BLOCK_SIZE_KV meta).
Local Abbreviation sc := (score a meta query_block_idx batch_head_idx).
Local Abbreviation rmax := (running_max a meta query_block_idx batch_head_idx).
Local Abbreviation vat := (V_at a batch_head_idx).

Lemma running_max_S (n r : nat) :
  (0 < n)%nat ->
  Rmax (rmax n r) (tl_max B (fun c => sc r (n * B + c)%nat)) = rmax (S n) r.
Proof.
  intros Hn. unfold running_max, tl_max.
  assert (exists k, (n * B = S k)%nat) as [k Hk]
    by (exists (n * B - 1)%nat; nia).
  rewrite Hk. replace (S k - 1)%nat with k by lia.
  replace (S n * B - 1)%nat with (S k + (B - 1))%nat by nia.
  apply max_upto_split.
Qed.

Lemma running_max_1 (r : nat) :
  tl_max B (fun c => sc r (0 * B + c)%nat) = rmax 1 r.
Proof.
  unfold running_max, tl_max. replace (1 * B - 1)%nat with (B - 1)%nat by lia.
  reflexivity.
Qed.

Lemma running_max_ge (n r j : nat) :
  (j < n * B)%nat -> sc r j <= rmax n r.
Proof. intros Hj. unfold running_max. apply max_upto_ge. lia. Qed.

(** The loop invariant: after [n] blocks the running maximum, the running
    sum and the accumulator of row [r] are the maximum, the sum of
    exponentials and the weighted sum of value rows over the first
    [n * B] key columns. *)
Lemma fwd_after_inv (n r d : nat) :
  s_max (after n) r
  = (if Nat.eqb n 0 then NegInf else Fin (rmax n r))
  /\ softmax_denom (after n) r
     = tl_sum (n * B) (fun j => exp (sc r j - rmax n r))
  /\ O_block (after n) r d
     = tl_sum (n * B) (fun j => exp (sc r j - rmax n r) * vat j d).
Proof.
  induction n as [|n (IHm & IHl & IHo)].
  - repeat split; reflexivity.
  - assert (Hnew : new_s_max_at a meta query_block_idx batch_head_idx n r
                   = rmax (S n) r).
    { unfold new_s_max_at. rewrite IHm. destruct n as [|n].
      - cbn [Nat.eqb ext_maximum]. apply running_max_1.
      - cbn [Nat.eqb ext_maximum]. apply (running_max_S r). lia. }
    rewrite s_max_after_S, softmax_denom_after_S, O_block_after_S.
    rewrite Hnew, IHm, IHl, IHo.
    replace (S n * B)%nat with (n * B + B)%nat by lia.
    rewrite !Rsum_split.
    split; [reflexivity|].
    destruct n as [|n].
    + cbn [Nat.eqb ext_exp_sub Nat.mul tl_sum f_zero f_add f_mul f_exp f_sub
           R_arith].
      split; ring.
    + cbn [Nat.eqb ext_exp_sub f_zero f_add f_mul f_exp f_sub R_arith].
      rewrite <- Rsum_scal, <- Rsum_scal_r.
      split; (f_equal; apply tl_sum_ext; intros j _;
              rewrite <- ?Rmult_assoc, <- ?exp_plus).
      * f_equal. ring.
      * rewrite (Rmult_comm _ (exp _)), <- Rmult_assoc, <- exp_plus.
        f_equal. f_equal. ring.
Qed.
End ExactLoop.

(** ** Stores and launches *)

Section StoreFacts.
Context {E : Type}.

Lemma apply_stores_app (m : nat -> E) (ws1 ws2 : list (nat * E)) :
  apply_stores m (ws1 ++ ws2) = apply_stores (apply_stores m ws1) ws2.
Proof. unfold apply_stores. apply fold_left_app. Qed.

(** An offset no store names keeps its content. *)
Lemma apply_stores_notin (m : nat -> E) (ws : list (nat * E)) (x : nat) :
  (forall v, ~ In (x, v) ws) -> apply_stores m ws x = m x.
Proof.
  induction ws as [|w ws IH] using rev_ind; intros H; [reflexivity|].
  rewrite apply_stores_app. cbn. unfold upd.
  destruct (Nat.eqb_spec x (fst w)) as [Heq|Hne].
  - exfalso. apply (H (snd w)). apply in_or_app. right. left.
    rewrite Heq. destruct w; reflexivity.
  - apply IH. intros v Hin. apply (H v). apply in_or_app. left. exact Hin.
Qed.

(** An offset all of whose stores carry the same value ends with it. *)
Lemma apply_stores_unique (m : nat -> E) (ws : list (nat * E))
    (x : nat) (v : E) :
  In (x, v) ws -> (forall v', In (x, v') ws -> v' = v) ->
  apply_stores m ws x = v.
Proof.
  induction ws as [|w ws IH] using rev_ind; intros Hin Hall; [destruct Hin|].
  rewrite apply_stores_app. cbn. unfold upd.
  destruct (Nat.eqb_spec x (fst w)) as [Heq|Hne].
  - apply Hall. apply in_or_app. right. left. rewrite Heq.
    destruct w; reflexivity.
  - apply IH.
    + apply in_app_or in Hin. destruct Hin as [Hin|[Hw|[]]]; [exact Hin|].
      subst w. exfalso. apply Hne. reflexivity.
    + intros v' Hv'. apply Hall. apply in_or_app. left. exact Hv'.
Qed.
End StoreFacts.

Lemma in_program_ids (g0 g1 : nat) (pid : nat * nat) :
  In pid (program_ids g0 g1) <-> fst pid < g0 /\ snd pid < g1.
Proof.
  unfold program_ids. rewrite in_flat_map. split.
  - intros (p1 & H1 & H2). apply in_map_iff in H2 as (p0 & <- & H0).
    apply in_seq in H1, H0. cbn. lia.
  - intros [H0 H1]. exists (snd pid). split; [apply in_seq; lia|].
    apply in_map_iff. exists (fst pid). split; [destruct pid; reflexivity|].
    apply in_seq. lia.
Qed.

Section LaunchFacts.
Context {F : Type} {A : Arith F}.

Lemma in_tl_store (p : block_ptr (F := F)) (b : block) (x : nat) (v : F) :
  In (x, v) (tl_store p b)
  <-> exists r c, r < fst (bp_block_shape p) /\ c < snd (bp_block_shape p)
                  /\ x = bp_addr p r c /\ v = b r c.
Proof.
  unfold tl_store. rewrite in_flat_map. split.
  - intros (r & Hr & Hin). apply in_map_iff in Hin as (c & Heq & Hc).
    apply in_seq in Hr, Hc. inversion Heq. exists r, c.
    repeat split; lia || reflexivity.
  - intros (r & c & Hr & Hc & -> & ->). exists r. split; [apply in_seq; lia|].
    apply in_map_iff. exists c. split; [reflexivity|apply in_seq; lia].
Qed.

(** All stores into [O], resp. [M], of a launch, in program order. *)
Lemma launch_attn_fwd_stores (a : fwd_args (F := F)) (meta : Config)
    (g0 g1 : nat) :
  launch_attn_fwd a meta g0 g1
  = (apply_stores (O_ptr a)
       (flat_map (fun pid => O_stores (_attn_fwd a meta (fst pid) (snd pid)))
          (program_ids g0 g1)),
     apply_stores (M_ptr a)
       (flat_map (fun pid => M_stores (_attn_fwd a meta (fst pid) (snd pid)))
          (program_ids g0 g1))).
Proof.
  unfold launch_attn_fwd.
  generalize (O_ptr a) (M_ptr a).
  induction (program_ids g0 g1) as [|pid pids IH]; intros o m; [reflexivity|].
  cbn [fold_left flat_map fst snd]. rewrite IH, !apply_stores_app. reflexivity.
Qed.
End LaunchFacts.

(** ** What [forward] returns *)

Section ForwardFacts.
Context {F : Type} {A : Arith F}.

(** With a four-dimensional [Q], equal last dimensions and four strides
    per input, [forward] runs to its [return]. *)
Lemma forward_runs (fresh : nat -> F) (pick : nat) (Q K V : Tensor F)
    (scale : F) (Bt H S D : nat) (q0 q1 q2 q3 k0 k1 k2 k3 v0 v1 v2 v3 : nat) :
  shape Q = [Bt; H; S; D] ->
  shape_last K = Ok D -> shape_last V = Ok D ->
  stride Q = [q0; q1; q2; q3] ->
  stride K = [k0; k1; k2; k3] ->
  stride V = [v0; v1; v2; v3] ->
  forward fresh pick Q K V scale
  = Ok (PyTensor (forward_O fresh pick Q K V scale),
        mkCtx (Q, K, V, forward_O fresh pick Q K V scale,
               forward_M fresh pick Q K V scale)
          (Some (fun meta : Config =>
                   (cdiv S (BLOCK_SIZE_Q meta), Bt * H, 1)))
          (Some scale) None).
Proof.
  intros HQ HK HV SQ SK SV.
  unfold forward, forward_O, forward_M, forward_grid, forward_args.
  rewrite HK, HV. unfold shape_last, stride_at, empty_like, zeros.
  cbn [shape stride data]. rewrite HQ, SQ, SK, SV.
  cbn [rev app bind unpack4 nth_error nth contiguous_strides fold_right
       fst snd].
  rewrite Nat.eqb_refl. cbn [andb py_assert bind]. reflexivity.
Qed.
End ForwardFacts.

(** ** Offsets of a contiguous tensor *)

Lemma cdiv_exact (x y : nat) : 0 < y -> x mod y = 0 -> cdiv x y = x / y.
Proof.
  intros Hy Hx. unfold cdiv.
  pose proof (Nat.div_mod_eq x y) as Hd. rewrite Hx, Nat.add_0_r in Hd.
  symmetry. apply Nat.div_unique with (r := y - 1); [lia|].
  rewrite Hd at 1. rewrite <- Hd. lia.
Qed.

Lemma radix_inj (n x c x' c' : nat) :
  c < n -> c' < n -> x * n + c = x' * n + c' -> x = x' /\ c = c'.
Proof.
  intros Hc Hc' Heq.
  assert (x = x') by nia. subst x'. split; [reflexivity|lia].
Qed.

Lemma split_row (BQ q r i : nat) :
  r < BQ -> q * BQ + r = i -> q = i / BQ /\ r = i mod BQ.
Proof.
  intros Hr <-. split.
  - apply Nat.div_unique with (r := r); lia.
  - apply Nat.mod_unique with (q := q); lia.
Qed.

Lemma join_batch_head (H b h : nat) :
  h < H -> (b * H + h) / H = b /\ (b * H + h) mod H = h.
Proof.
  intros Hh. split.
  - symmetry. apply Nat.div_unique with (r := h); lia.
  - symmetry. apply Nat.mod_unique with (q := b); lia.
Qed.

Lemma autotune_cases (pick : nat) :
  autotune pick = mkConfig 64 64 \/ autotune pick = mkConfig 128 128.
Proof.
  unfold autotune, autotune_configs.
  destruct pick as [|[|[|pick]]]; cbn; auto.
Qed.

Lemma autotune_square (pick : nat) :
  BLOCK_SIZE_KV (autotune pick) = BLOCK_SIZE_Q (autotune pick)
  /\ 0 < BLOCK_SIZE_Q (autotune pick).
Proof. destruct (autotune_cases pick) as [-> | ->]; cbn; lia. Qed.

(** ** Where the forward launch writes, for contiguous inputs *)

Section ForwardLayout.
Context {F : Type} {A : Arith F}.
Variable fresh : nat -> F.
Variable pick : nat.
Variables Q K V : Tensor F.
Variable scale : F.
Variables Bt H S D : nat.
Hypothesis HQ : shape Q = [Bt; H; S; D].
Hypothesis SQ : stride Q = contiguous_strides [Bt; H; S; D].
Hypothesis Hdiv : S mod BLOCK_SIZE_Q (autotune pick) = 0.

Local Abbreviation args := (forward_args fresh Q K V scale).
Local Abbreviation meta := (autotune pick).
Local Abbreviation BQ := (BLOCK_SIZE_Q (autotune pick)).

Lemma forward_grid_eq :
  forward_grid pick Q = (S / BQ, Bt * H).
Proof.
  unfold forward_grid. rewrite HQ. cbn [nth].
  rewrite cdiv_exact; [reflexivity|apply autotune_square|exact Hdiv].
Qed.

Lemma grid_row_bound (q r : nat) : q < S / BQ -> r < BQ -> q * BQ + r < S.
Proof.
  intros Hq Hr. pose proof (Nat.div_mod_eq S BQ) as Hd.
  rewrite Hdiv in Hd. nia.
Qed.

Lemma O_addr (q bh r c : nat) :
  bp_addr (O_block_ptr args meta q bh) r c
  = (bh * S + (q * BQ + r)) * D + c.
Proof.
  unfold bp_addr, O_block_ptr, qkv_offset, batch_idx, head_idx, forward_args.
  cbn [bp_base bp_offsets bp_strides fst snd stride_Q_batch stride_Q_head
       stride_O_seq stride_O_dim NUM_HEADS].
  rewrite HQ, SQ. cbn [nth contiguous_strides fold_right].
  pose proof (Nat.div_mod_eq bh H) as Hd.
  set (x := bh / H) in *. set (y := bh mod H) in *. nia.
Qed.

Lemma M_addr (q bh r : nat) :
  offs_m args meta q bh r = bh * S + (q * BQ + r).
Proof.
  unfold offs_m, offs_q, batch_idx, head_idx, forward_args.
  cbn [stride_M_batch stride_M_head NUM_HEADS]. rewrite HQ. cbn [nth].
  pose proof (Nat.div_mod_eq bh H) as Hd.
  set (x := bh / H) in *. set (y := bh mod H) in *. nia.
Qed.

(** Element [(b, h, i, d)] of the output is the entry the program
    instance of row [i]'s query block computed for it. *)
Lemma forward_O_at (b h i d : nat) :
  b < Bt -> h < H -> i < S -> d < D ->
  at4 (forward_O fresh pick Q K V scale) b h i d
  = O_block_final args meta (i / BQ) (b * H + h) (i mod BQ) d.
Proof.
  intros Hb Hh Hi Hd.
  destruct (autotune_square pick) as [_ HBQ].
  unfold at4, forward_O. cbn [data stride].
  rewrite launch_attn_fwd_stores, forward_grid_eq. cbn [fst snd].
  rewrite SQ. cbn [nth contiguous_strides fold_right].
  pose proof (Nat.div_mod_eq i BQ) as Hrow.
  assert (Hr : i mod BQ < BQ) by (apply Nat.mod_upper_bound; lia).
  apply apply_stores_unique.
  - apply in_flat_map. exists (i / BQ, b * H + h). split.
    + apply in_program_ids. cbn [fst snd]. split.
      * apply Nat.Div0.div_lt_upper_bound.
        pose proof (Nat.div_mod_eq S BQ) as HS. rewrite Hdiv in HS. lia.
      * nia.
    + cbn [fst snd _attn_fwd O_stores]. apply in_tl_store.
      exists (i mod BQ), d. cbn [O_block_ptr bp_block_shape fst snd].
      split; [exact Hr|]. split.
      * unfold forward_args. cbn [HEAD_DIM]. rewrite HQ. exact Hd.
      * split; [|reflexivity]. rewrite O_addr. nia.
  - intros v' Hin. apply in_flat_map in Hin as ([q' bh'] & Hpid & Hin).
    apply in_program_ids in Hpid. cbn [fst snd] in Hpid, Hin.
    cbn [_attn_fwd O_stores] in Hin.
    apply in_tl_store in Hin as (r' & c' & Hr' & Hc' & Haddr & ->).
    cbn [O_block_ptr bp_block_shape fst snd] in Hr', Hc'.
    unfold forward_args in Hc'. cbn [HEAD_DIM] in Hc'. rewrite HQ in Hc'.
    cbn [nth] in Hc'. rewrite O_addr in Haddr.
    destruct Hpid as [Hq' Hbh'].
    pose proof (grid_row_bound Hq' Hr') as Hi'.
    assert (Heq : ((b * H + h) * S + i) * D + d
                  = (bh' * S + (q' * BQ + r')) * D + c') by lia.
    apply radix_inj in Heq as [Heq1 Heq2]; [|lia|lia].
    apply radix_inj in Heq1 as [Heq3 Heq4]; [|lia|lia].
    symmetry in Heq4. destruct (@split_row _ _ _ _ Hr' Heq4) as [-> ->].
    subst bh' c'. reflexivity.
Qed.

(** Entry [(b, h, i)] of [M] likewise. *)
Lemma forward_M_at (b h i : nat) :
  b < Bt -> h < H -> i < S ->
  at3 (forward_M fresh pick Q K V scale) b h i
  = s_max_final args meta (i / BQ) (b * H + h) (i mod BQ).
Proof.
  intros Hb Hh Hi.
  destruct (autotune_square pick) as [_ HBQ].
  unfold at3, forward_M. cbn [data stride].
  rewrite launch_attn_fwd_stores, forward_grid_eq. cbn [fst snd].
  rewrite HQ. cbn [nth contiguous_strides fold_right].
  pose proof (Nat.div_mod_eq i BQ) as Hrow.
  assert (Hr : i mod BQ < BQ) by (apply Nat.mod_upper_bound; lia).
  apply apply_stores_unique.
  - apply in_flat_map. exists (i / BQ, b * H + h). split.
    + apply in_program_ids. cbn [fst snd]. split.
      * apply Nat.Div0.div_lt_upper_bound.
        pose proof (Nat.div_mod_eq S BQ) as HS. rewrite Hdiv in HS. lia.
      * nia.
    + cbn [fst snd _attn_fwd M_stores]. apply in_map_iff.
      exists (i mod BQ). split; [|apply in_seq; lia].
      rewrite M_addr. f_equal. nia.
  - intros v' Hin. apply in_flat_map in Hin as ([q' bh'] & Hpid & Hin).
    apply in_program_ids in Hpid. cbn [fst snd] in Hpid, Hin.
    cbn [_attn_fwd M_stores] in Hin.
    apply in_map_iff in Hin as (r' & Heq & Hr'). apply in_seq in Hr'.
    inversion Heq as [[Haddr Hv]]. rewrite M_addr in Haddr.
    destruct Hpid as [Hq' Hbh'].
    assert (Hr'' : r' < BQ) by lia.
    pose proof (grid_row_bound Hq' Hr'') as Hi'.
    assert (Heq1 : (b * H + h) * S + i = bh' * S + (q' * BQ + r')) by lia.
    apply radix_inj in Heq1 as [Heq3 Heq4]; [|lia|lia].
    symmetry in Heq4. destruct (@split_row _ _ _ _ Hr'' Heq4) as [-> ->].
    subst bh'. reflexivity.
Qed.
End ForwardLayout.

Lemma num_kv_blocks_pos (meta : Config) (q : nat) :
  0 < BLOCK_SIZE_Q meta -> 0 < BLOCK_SIZE_KV meta -> 0 < num_kv_blocks meta q.
Proof.
  intros HQ HB. unfold num_kv_blocks, end_key_idx, cdiv.
  apply Nat.div_str_pos. nia.
Qed.

Lemma num_kv_blocks_square (meta : Config) (q : nat) :
  0 < BLOCK_SIZE_Q meta -> BLOCK_SIZE_KV meta = BLOCK_SIZE_Q meta ->
  num_kv_blocks meta q = q + 1.
Proof.
  intros HQ HB. unfold num_kv_blocks, end_key_idx. rewrite HB, Nat.sub_0_r.
  rewrite cdiv_exact; [apply Nat.div_mul; lia|lia|apply Nat.Div0.mod_mul].
Qed.

(** ** What one program instance stores, in exact arithmetic *)

Section ExactKernel.
Local Open Scope R_scope.
Variable a : fwd_args (F := R).
Variable meta : Config.
Variables query_block_idx batch_head_idx : nat.
Hypothesis HBQ : (0 < BLOCK_SIZE_Q meta)%nat.
Hypothesis HB : (0 < BLOCK_SIZE_KV meta)%nat.

Local Abbreviation sc := (score a meta query_block_idx batch_head_idx).
Local Abbreviation w := (weight a meta query_block_idx batch_head_idx).
Local Abbreviation vat := (V_at a batch_head_idx).
Local Abbreviation nb := (num_kv_blocks meta query_block_idx).
Local Abbreviation N := (num_kv_cols meta query_block_idx).
Local Abbreviation m :=
  (running_max a meta query_block_idx batch_head_idx
     (num_kv_blocks meta query_block_idx)).

Lemma num_kv_cols_pos : (0 < N)%nat.
Proof.
  unfold num_kv_cols. pose proof (num_kv_blocks_pos meta query_block_idx HBQ HB).
  nia.
Qed.

Lemma weight_exp (r j : nat) : w r j = exp (sc r j) * exp (- m r).
Proof. unfold weight. cbn. rewrite <- exp_plus. reflexivity. Qed.

Lemma weight_pos (r j : nat) : 0 < w r j.
Proof. unfold weight. cbn. apply exp_pos. Qed.

Lemma weight_sum_pos (r : nat) : 0 < tl_sum N (w r).
Proof.
  apply Rsum_pos; [apply num_kv_cols_pos|]. intros j _. apply weight_pos.
Qed.

Lemma exp_sum_pos (r : nat) : 0 < tl_sum N (fun j => exp (sc r j)).
Proof.
  apply Rsum_pos; [apply num_kv_cols_pos|]. intros j _. apply exp_pos.
Qed.

Lemma weight_sum_exp (r : nat) :
  tl_sum N (w r) = tl_sum N (fun j => exp (sc r j)) * exp (- m r).
Proof.
  rewrite <- Rsum_scal_r. apply tl_sum_ext. intros j _. apply weight_exp.
Qed.

(** The stored output row is the weighted mean of the visited value rows. *)
Lemma O_block_final_weights (r d : nat) :
  O_block_final a meta query_block_idx batch_head_idx r d
  = tl_sum N (fun j => w r j * vat j d) / tl_sum N (w r).
Proof.
  unfold O_block_final. rewrite fwd_loop_after.
  destruct (fwd_after_inv a meta query_block_idx batch_head_idx HB nb r d)
    as (_ & Hl & Ho).
  rewrite Hl, Ho. reflexivity.
Qed.

Lemma O_block_final_softmax (r d : nat) :
  O_block_final a meta query_block_idx batch_head_idx r d
  = tl_sum N (fun j => exp (sc r j) * vat j d)
    / tl_sum N (fun j => exp (sc r j)).
Proof.
  rewrite O_block_final_weights, weight_sum_exp.
  replace (tl_sum N (fun j => w r j * vat j d))
    with (tl_sum N (fun j => exp (sc r j) * vat j d) * exp (- m r)).
  - pose proof (exp_pos (- m r)). pose proof (exp_sum_pos r).
    field. split; lra.
  - rewrite <- Rsum_scal_r. apply tl_sum_ext. intros j _.
    rewrite weight_exp. ring.
Qed.

(** The stored log-normalizer is the running maximum plus the logarithm of
    the running sum, which is the logarithm of the sum of exponentials of
    all visited scores. *)
Lemma s_max_final_weights (r : nat) :
  s_max_final a meta query_block_idx batch_head_idx r
  = Fin (m r + ln (tl_sum N (w r))).
Proof.
  unfold s_max_final. rewrite fwd_loop_after.
  destruct (fwd_after_inv a meta query_block_idx batch_head_idx HB nb r 0%nat)
    as (Hm & Hl & _).
  rewrite Hm, Hl.
  pose proof (num_kv_blocks_pos meta query_block_idx HBQ HB) as Hnb.
  destruct (Nat.eqb_spec nb 0) as [H0|_]; [lia|]. reflexivity.
Qed.

Lemma s_max_final_logsumexp (r : nat) :
  s_max_final a meta query_block_idx batch_head_idx r
  = Fin (ln (tl_sum N (fun j => exp (sc r j)))).
Proof.
  rewrite s_max_final_weights, weight_sum_exp. f_equal.
  rewrite ln_mult; [|apply exp_sum_pos|apply exp_pos].
  rewrite ln_exp. ring.
Qed.
End ExactKernel.

(** ** The kernel's view of contiguous inputs *)

Section HostScores.
Context {F : Type} {A : Arith F}.
Variable fresh : nat -> F.
Variable pick : nat.
Variables Q K V : Tensor F.
Variable scale : F.
Variables Bt H S D : nat.
Hypothesis HQ : shape Q = [Bt; H; S; D].
Hypothesis SQ : stride Q = contiguous_strides [Bt; H; S; D].
Hypothesis SK : stride K = contiguous_strides [Bt; H; S; D].
Hypothesis SV : stride V = contiguous_strides [Bt; H; S; D].

Local Abbreviation args := (forward_args fresh Q K V scale).
Local Abbreviation meta := (autotune pick).
Local Abbreviation BQ := (BLOCK_SIZE_Q (autotune pick)).

Lemma qkv_offset_host (b h : nat) :
  h < H ->
  qkv_offset args (b * H + h) = b * (H * (S * (D * 1))) + h * (S * (D * 1)).
Proof.
  intros Hh. unfold qkv_offset, batch_idx, head_idx, forward_args.
  cbn [stride_Q_batch stride_Q_head NUM_HEADS]. rewrite HQ, SQ.
  cbn [nth contiguous_strides fold_right].
  destruct (join_batch_head b Hh) as [-> ->]. reflexivity.
Qed.

Lemma Q_block_host (b h i k : nat) :
  h < H ->
  Q_block args meta (i / BQ) (b * H + h) (i mod BQ) k = at4 Q b h i k.
Proof.
  intros Hh. unfold Q_block, tl_load, bp_addr, Q_block_ptr, at4.
  cbn [bp_mem bp_base bp_offsets bp_strides fst snd].
  rewrite qkv_offset_host by exact Hh.
  unfold forward_args. cbn [Q_ptr stride_Q_seq stride_Q_dim].
  rewrite SQ. cbn [nth contiguous_strides fold_right]. f_equal.
  pose proof (Nat.div_mod_eq i BQ). nia.
Qed.

Lemma K_at_host (b h j k : nat) :
  h < H -> K_at args (b * H + h) j k = at4 K b h j k.
Proof.
  intros Hh. unfold K_at, at4. rewrite qkv_offset_host by exact Hh.
  unfold forward_args. cbn [K_ptr stride_K_seq stride_K_dim].
  rewrite SK. cbn [nth contiguous_strides fold_right]. f_equal. lia.
Qed.

Lemma V_at_host (b h j d : nat) :
  h < H -> V_at args (b * H + h) j d = at4 V b h j d.
Proof.
  intros Hh. unfold V_at, at4. rewrite qkv_offset_host by exact Hh.
  unfold forward_args. cbn [V_ptr stride_V_seq stride_V_dim].
  rewrite SV. cbn [nth contiguous_strides fold_right]. f_equal.
Qed.

Lemma offs_q_host (i : nat) : offs_q meta (i / BQ) (i mod BQ) = i.
Proof. unfold offs_q. pose proof (Nat.div_mod_eq i BQ). nia. Qed.

Lemma raw_score_host (b h i j : nat) :
  h < H ->
  raw_score args meta (i / BQ) (b * H + h) (i mod BQ) j
  = f_mul (tl_sum D (fun k => f_mul (at4 Q b h i k) (at4 K b h j k))) scale.
Proof.
  intros Hh. unfold raw_score. f_equal.
  unfold forward_args at 1. cbn [HEAD_DIM]. rewrite HQ. cbn [nth].
  apply tl_sum_ext. intros k _.
  rewrite Q_block_host, K_at_host by exact Hh. reflexivity.
Qed.

Lemma score_host (b h i j : nat) :
  h < H ->
  score args meta (i / BQ) (b * H + h) (i mod BQ) j
  = masked_score Q K scale b h i j.
Proof.
  intros Hh. unfold score, masked_score.
  rewrite raw_score_host by exact Hh. rewrite offs_q_host, HQ.
  reflexivity.
Qed.
End HostScores.

(** ** The loop reads only the key and value rows it visits *)

Section LoopExt.
Context {F : Type} {A : Arith F}.
Variables a a' : fwd_args (F := F).
Variable meta : Config.
Variables query_block_idx batch_head_idx : nat.
Hypothesis HB : 0 < BLOCK_SIZE_KV meta.

Local Abbreviation B := (BLOCK_SIZE_KV meta).

Lemma fwd_after_ext (n r d : nat) :
  (forall j, j < n * B ->
     score a meta query_block_idx batch_head_idx r j
     = score a' meta query_block_idx batch_head_idx r j) ->
  (forall j, j < n * B ->
     V_at a batch_head_idx j d = V_at a' batch_head_idx j d) ->
  s_max (fwd_after a meta query_block_idx batch_head_idx n) r
  = s_max (fwd_after a' meta query_block_idx batch_head_idx n) r
  /\ softmax_denom (fwd_after a meta query_block_idx batch_head_idx n) r
     = softmax_denom (fwd_after a' meta query_block_idx batch_head_idx n) r
  /\ O_block (fwd_after a meta query_block_idx batch_head_idx n) r d
     = O_block (fwd_after a' meta query_block_idx batch_head_idx n) r d.
Proof.
  induction n as [|n IH]; intros Hs Hv.
  - repeat split.
  - destruct IH as (IHm & IHl & IHo).
    { intros j Hj. apply Hs. lia. }
    { intros j Hj. apply Hv. lia. }
    assert (Hnew : new_s_max_at a meta query_block_idx batch_head_idx n r
                   = new_s_max_at a' meta query_block_idx batch_head_idx n r).
    { unfold new_s_max_at. rewrite IHm. f_equal.
      apply tl_max_ext; [exact HB|]. intros c Hc. apply Hs. lia. }
    rewrite !s_max_after_S, !softmax_denom_after_S, !O_block_after_S.
    rewrite Hnew, IHm, IHl, IHo.
    split; [reflexivity|]. split.
    + f_equal. apply tl_sum_ext. intros c Hc. rewrite Hs by lia. reflexivity.
    + f_equal. apply tl_sum_ext. intros c Hc. rewrite Hs, Hv by lia.
      reflexivity.
Qed.

(** The stored output entry [(r, d)] depends on the inputs only through
    the scores of row [r] against, and column [d] of, the visited key and
    value rows. *)
Lemma O_block_final_ext (r d : nat) :
  (forall j, j < num_kv_cols meta query_block_idx ->
     score a meta query_block_idx batch_head_idx r j
     = score a' meta query_block_idx batch_head_idx r j) ->
  (forall j, j < num_kv_cols meta query_block_idx ->
     V_at a batch_head_idx j d = V_at a' batch_head_idx j d) ->
  O_block_final a meta query_block_idx batch_head_idx r d
  = O_block_final a' meta query_block_idx batch_head_idx r d.
Proof.
  intros Hs Hv. unfold O_block_final. rewrite !fwd_loop_after.
  destruct (fwd_after_ext (num_kv_blocks meta query_block_idx) r d Hs Hv)
    as (_ & Hl & Ho).
  rewrite Hl, Ho. reflexivity.
Qed.
End LoopExt.

(** ** The order of the key/value blocks *)

Lemma tl_range_sorted (start stop step : nat) :
  0 < step -> StronglySorted lt (tl_range start stop step).
Proof.
  intros Hstep. unfold tl_range. generalize (cdiv (stop - start) step) as n.
  generalize 0 as k0. intros k0 n. revert k0.
  induction n as [|n IH]; intros k0; cbn [seq map]; constructor.
  - apply IH.
  - apply Forall_forall. intros s Hs.
    apply in_map_iff in Hs as (k & <- & Hk). apply in_seq in Hk. nia.
Qed.

Lemma tl_range_in (stop step s : nat) :
  0 < step ->
  In s (tl_range 0 stop step) <-> (exists k, s = k * step) /\ s < stop.
Proof.
  intros Hstep. unfold tl_range, cdiv. rewrite Nat.sub_0_r, in_map_iff.
  pose proof (Nat.Div0.mul_div_le (stop + step - 1) step) as Hle.
  split.
  - intros (k & <- & Hk). apply in_seq in Hk. split; [exists k; lia|]. nia.
  - intros [[k ->] Hlt]. exists k. split; [lia|]. apply in_seq.
    split; [lia|]. cbn.
    apply Nat.lt_le_trans with (k + 1); [lia|].
    apply Nat.div_le_lower_bound; [lia|]. nia.
Qed.

Lemma tl_range_head (stop step : nat) :
  0 < step -> 0 < stop -> hd_error (tl_range 0 stop step) = Some 0.
Proof.
  intros Hstep Hstop. unfold tl_range, cdiv. rewrite Nat.sub_0_r.
  assert (H : 0 < (stop + step - 1) / step) by (apply Nat.div_str_pos; lia).
  destruct ((stop + step - 1) / step); [lia|]. reflexivity.
Qed.

(** C7: for each block-size configuration of the forward kernel and each
    query block index [q], the loop visits the key/value block starts in
    strictly ascending order, beginning at 0; the starts visited are exactly
    the multiples of the key/value block size below
    [(q + 1) * BLOCK_SIZE_Q]; the diagonal block (the one holding key column
    [q * BLOCK_SIZE_Q]) is among them and no visited block lies beyond it. *)
Theorem kv_starts_ascending_up_to_diagonal (meta : Config) (q : nat) :
  In meta autotune_configs ->
  StronglySorted lt (kv_starts meta q)
  /\ hd_error (kv_starts meta q) = Some 0
  /\ (forall s,
        In s (kv_starts meta q)
        <-> (exists k, s = k * BLOCK_SIZE_KV meta)
            /\ s < (q + 1) * BLOCK_SIZE_Q meta)
  /\ In (q * BLOCK_SIZE_Q meta / BLOCK_SIZE_KV meta * BLOCK_SIZE_KV meta)
        (kv_starts meta q)
  /\ (forall s,
        In s (kv_starts meta q) ->
        s <= q * BLOCK_SIZE_Q meta / BLOCK_SIZE_KV meta * BLOCK_SIZE_KV meta).
Proof.
  intros Hmeta.
  assert (Hsq : BLOCK_SIZE_KV meta = BLOCK_SIZE_Q meta /\ 0 < BLOCK_SIZE_Q meta).
  { destruct Hmeta as [<-|[<-|[]]]; cbn; lia. }
  destruct Hsq as [HKV HBQ].
  assert (Hin : forall s,
             In s (kv_starts meta q)
             <-> (exists k, s = k * BLOCK_SIZE_KV meta)
                 /\ s < (q + 1) * BLOCK_SIZE_Q meta).
  { intros s. unfold kv_starts, end_key_idx. apply tl_range_in. lia. }
  assert (Hdiag : q * BLOCK_SIZE_Q meta / BLOCK_SIZE_KV meta
                  * BLOCK_SIZE_KV meta = q * BLOCK_SIZE_Q meta).
  { rewrite HKV, Nat.div_mul by lia. reflexivity. }
  split; [apply tl_range_sorted; lia|].
  split; [apply tl_range_head; unfold end_key_idx; nia|].
  split; [exact Hin|]. split.
  - rewrite Hdiag. apply Hin. split; [exists q; rewrite HKV; reflexivity|nia].
  - intros s Hs. rewrite Hdiag. apply Hin in Hs as [[k ->] Hlt].
    rewrite HKV in Hlt |- *.
    assert (k < q + 1) by (apply (Nat.mul_lt_mono_pos_r (BLOCK_SIZE_Q meta)); lia).
    apply Nat.mul_le_mono_r. lia.
Qed.

Lemma kv_starts_ascending_up_to_diagonal_witness :
  In (mkConfig 64 64) autotune_configs
  /\ StronglySorted lt (kv_starts (mkConfig 64 64) 2)
  /\ hd_error (kv_starts (mkConfig 64 64) 2) = Some 0.
Proof.
  assert (H : In (mkConfig 64 64) autotune_configs) by (left; reflexivity).
  split; [exact H|].
  destruct (@kv_starts_ascending_up_to_diagonal (mkConfig 64 64) 2 H)
    as (H1 & H2 & _).
  split; [exact H1|exact H2].
Defined.

(** ** What the entry points return *)

Lemma length4 (l : list nat) :
  List.length l = 4 -> exists a b c d, l = [a; b; c; d].
Proof.
  destruct l as [|a [|b [|c [|d [|e l]]]]]; cbn; intros H; try discriminate.
  exists a, b, c, d. reflexivity.
Qed.

Lemma shape_last4 {E : Type} (T : Tensor E) (a b c d : nat) :
  shape T = [a; b; c; d] -> shape_last T = Ok d.
Proof. intros H. unfold shape_last. rewrite H. reflexivity. Qed.

(** [forward] on the example inputs. *)
Lemma forward_example (V : Tensor R) :
  shape V = ex_shape -> stride V = contiguous_strides ex_shape ->
  forward ex_fresh 0 ex_Q ex_K V 1%R
  = Ok (PyTensor (forward_O ex_fresh 0 ex_Q ex_K V 1%R),
        mkCtx (ex_Q, ex_K, V, forward_O ex_fresh 0 ex_Q ex_K V 1%R,
               forward_M ex_fresh 0 ex_Q ex_K V 1%R)
          (Some (fun meta : Config => (cdiv 64 (BLOCK_SIZE_Q meta), 1 * 1, 1)))
          (Some 1%R) None).
Proof.
  intros HV SV.
  apply forward_runs with (D := 16) (q0 := 1024) (q1 := 1024) (q2 := 16)
    (q3 := 1) (k0 := 1024) (k1 := 1024) (k2 := 16) (k3 := 1) (v0 := 1024)
    (v1 := 1024) (v2 := 16) (v3 := 1);
    try reflexivity; try exact SV.
  apply shape_last4 with (a := 1) (b := 1) (c := 64). exact HV.
Qed.

(** C5, as stated, fails: on the example inputs [forward] returns one
    tensor, not a pair. *)
Lemma forward_returns_no_pair :
  exists r ctx,
    forward ex_fresh 0 ex_Q ex_K ex_V 1%R = Ok (r, ctx)
    /\ forall x y : pyobj, r <> PyTuple [x; y].
Proof.
  eexists. eexists. split.
  - apply forward_example; reflexivity.
  - intros x y H. discriminate H.
Qed.

(** C5 (amended): for inputs of one four-dimensional shape, [forward]
    returns the output tensor [O] alone; the row log-normalizer [M], of shape
    [(batch, heads, seq_len)], is not returned but kept on the context, as
    the last of the saved tensors [(Q, K, V, O, M)]. *)
Theorem forward_returns_O_and_saves_M
    (F : Type) (A : Arith F) (fresh : nat -> F) (pick : nat)
    (Q K V : Tensor F) (scale : F) (Bt H S D : nat) :
  shape Q = [Bt; H; S; D] -> shape K = [Bt; H; S; D] ->
  shape V = [Bt; H; S; D] ->
  List.length (stride Q) = 4 -> List.length (stride K) = 4 ->
  List.length (stride V) = 4 ->
  exists (O : Tensor F) (M : Tensor (ext F)) (ctx : Ctx),
    forward fresh pick Q K V scale = Ok (PyTensor O, ctx)
    /\ saved_tensors ctx = (Q, K, V, O, M)
    /\ shape O = [Bt; H; S; D]
    /\ shape M = [Bt; H; S].
Proof.
  intros HQ HK HV LQ LK LV.
  destruct (length4 _ LQ) as (q0 & q1 & q2 & q3 & SQ).
  destruct (length4 _ LK) as (k0 & k1 & k2 & k3 & SK).
  destruct (length4 _ LV) as (v0 & v1 & v2 & v3 & SV).
  eexists. eexists. eexists. split.
  - apply forward_runs with (1 := HQ) (4 := SQ) (5 := SK) (6 := SV).
    + apply shape_last4 with (1 := HK).
    + apply shape_last4 with (1 := HV).
  - cbn [saved_tensors]. split; [reflexivity|].
    unfold forward_O, forward_M. cbn [shape]. rewrite HQ. split; reflexivity.
Qed.

Lemma forward_returns_O_and_saves_M_witness :
  exists (O : Tensor R) (M : Tensor (ext R)) (ctx : Ctx),
    forward ex_fresh 0 ex_Q ex_K ex_V 1%R = Ok (PyTensor O, ctx)
    /\ saved_tensors ctx = (ex_Q, ex_K, ex_V, O, M)
    /\ shape O = [1; 1; 64; 16]
    /\ shape M = [1; 1; 64].
Proof.
  apply (@forward_returns_O_and_saves_M R R_arith ex_fresh 0 ex_Q ex_K ex_V
           1%R 1 1 64 16); reflexivity.
Defined.

(** ** The checks before the launches *)

Section Checks.
Context {F : Type} {A : Arith F}.

Lemma forward_head_dim_mismatch (fresh : nat -> F) (pick : nat)
    (Q K V : Tensor F) (scale : F) (dq dk dv : nat) :
  shape_last Q = Ok dq -> shape_last K = Ok dk -> shape_last V = Ok dv ->
  ~ (dq = dk /\ dk = dv) ->
  forward fresh pick Q K V scale = Raise AssertionError.
Proof.
  intros HQ HK HV Hne. unfold forward. rewrite HQ, HK, HV. cbn [bind].
  destruct (Nat.eqb_spec dq dk) as [H1|H1];
    destruct (Nat.eqb_spec dk dv) as [H2|H2]; try reflexivity.
  exfalso. apply Hne. split; assumption.
Qed.

Lemma backward_assertion_fails (f1 f2 f3 f4 : nat -> F) (ctx : Ctx)
    (dO : Tensor F) :
  is_contiguous dO = false
  \/ strides_all_equal
       (fst (fst (fst (fst (saved_tensors ctx)))))
       (snd (fst (fst (fst (saved_tensors ctx)))))
       (snd (fst (fst (saved_tensors ctx))))
       (snd (fst (saved_tensors ctx))) dO = false ->
  backward f1 f2 f3 f4 ctx dO = Raise AssertionError.
Proof.
  intros H. unfold backward.
  destruct (is_contiguous dO); cbn [py_assert bind]; [|reflexivity].
  destruct H as [H|H]; [discriminate|]. rewrite H. reflexivity.
Qed.

(** Past its assertions, [backward] stops at [Q.shape(3)]. *)
Lemma backward_past_assertions (f1 f2 f3 f4 : nat -> F) (ctx : Ctx)
    (dO : Tensor F) (n0 n1 n2 : nat) :
  is_contiguous dO = true ->
  strides_all_equal
    (fst (fst (fst (fst (saved_tensors ctx)))))
    (snd (fst (fst (fst (saved_tensors ctx)))))
    (snd (fst (fst (saved_tensors ctx))))
    (snd (fst (saved_tensors ctx))) dO = true ->
  unpack3_prefix (shape (fst (fst (fst (fst (saved_tensors ctx))))))
  = Ok (n0, n1, n2) ->
  backward f1 f2 f3 f4 ctx dO = Raise TypeError.
Proof.
  intros H1 H2 H3. unfold backward. rewrite H1, H2. cbn [py_assert bind].
  rewrite H3. reflexivity.
Qed.

Lemma backward_raises (f1 f2 f3 f4 : nat -> F) (ctx : Ctx) (dO : Tensor F) :
  exists e, backward f1 f2 f3 f4 ctx dO = Raise e.
Proof.
  unfold backward.
  destruct (is_contiguous dO); cbn [py_assert bind]; [|eauto].
  destruct (strides_all_equal _ _ _ _ _); cbn [py_assert bind]; [|eauto].
  destruct (unpack3_prefix _) as [[[n0 n1] n2]|e]; cbn [bind call_size];
    eauto.
Qed.
End Checks.

(** C9, as stated, fails: a key tensor of 128 rows against a query tensor
    of 64 rows passes every check of [forward], which runs to its return. *)
Lemma forward_accepts_mismatched_seq_len :
  shape ex_K_long <> shape ex_Q
  /\ exists r, forward ex_fresh 0 ex_Q ex_K_long ex_V 1%R = Ok r.
Proof.
  split; [discriminate|]. eexists.
  apply forward_runs with (Bt := 1) (H := 1) (S := 64) (D := 16)
    (q0 := 1024) (q1 := 1024) (q2 := 16) (q3 := 1)
    (k0 := 2048) (k1 := 2048) (k2 := 16) (k3 := 1)
    (v0 := 1024) (v1 := 1024) (v2 := 16) (v3 := 1); reflexivity.
Qed.

(** C9 (amended): [forward] checks one thing, that the last dimensions of
    [Q], [K] and [V] agree, and raises [AssertionError] before it allocates or
    launches anything when they do not; [backward] raises [AssertionError]
    before any launch when [dO] is not contiguous or the strides of [Q], [K],
    [V], [O] and [dO] are not all equal.  A failed check returns no tensor.
    Batch, head and sequence dimensions are not compared. *)
Theorem shape_and_stride_checks
    (F : Type) (A : Arith F) (fresh f1 f2 f3 f4 : nat -> F) (pick : nat)
    (Q K V dO : Tensor F) (scale : F) (ctx : Ctx) (dq dk dv : nat) :
  shape_last Q = Ok dq -> shape_last K = Ok dk -> shape_last V = Ok dv ->
  (~ (dq = dk /\ dk = dv) ->
   forward fresh pick Q K V scale = Raise AssertionError)
  /\ (is_contiguous dO = false
      \/ strides_all_equal
           (fst (fst (fst (fst (saved_tensors ctx)))))
           (snd (fst (fst (fst (saved_tensors ctx)))))
           (snd (fst (fst (saved_tensors ctx))))
           (snd (fst (saved_tensors ctx))) dO = false ->
      backward f1 f2 f3 f4 ctx dO = Raise AssertionError).
Proof.
  intros HQ HK HV. split.
  - apply forward_head_dim_mismatch; assumption.
  - apply backward_assertion_fails.
Qed.

Lemma shape_and_stride_checks_witness :
  forward ex_fresh 0 ex_Q ex_K_narrow ex_V 1%R = Raise AssertionError
  /\ backward ex_fresh ex_fresh ex_fresh ex_fresh ex_ctx ex_dO_strided
     = Raise AssertionError.
Proof.
  destruct (@shape_and_stride_checks R R_arith ex_fresh ex_fresh ex_fresh
              ex_fresh ex_fresh 0 ex_Q ex_K_narrow ex_V ex_dO_strided 1%R
              ex_ctx 16 8 16 eq_refl eq_refl eq_refl) as [H1 H2].
  split; [apply H1; lia|apply H2; left; reflexivity].
Defined.

(** ** The backward pass *)

Lemma forward_leaves_no_head_dim {F : Type} {A : Arith F}
    (fresh : nat -> F) (pick : nat) (Q K V : Tensor F) (scale : F)
    (r : pyobj) (ctx : Ctx) :
  forward fresh pick Q K V scale = Ok (r, ctx) -> ctx_head_dim ctx = None.
Proof.
  unfold forward. intros H. do 5 bind_ok H.
  destruct x3 as [[[batch_size num_heads] seq_len] head_dim].
  cbv beta iota in H. repeat bind_ok H. inversion H. reflexivity.
Qed.

(** C10: [backward] returns for no input: it raises on every context and
    output gradient.  When both assertions pass (and [Q] has the three
    leading dimensions [Q.shape[:3]] unpacks) the exception is the
    [TypeError] of [Q.shape(3)], raised before either backward kernel is
    launched.  The later statements could not run either: the grid of the
    dK/dV launch divides by a string, and [ctx.head_dim] is an attribute
    [forward] never assigns. *)
Theorem backward_raises_before_dk_dv
    (F : Type) (A : Arith F) (f1 f2 f3 f4 : nat -> F) (ctx : Ctx)
    (dO : Tensor F) :
  (exists e, backward f1 f2 f3 f4 ctx dO = Raise e)
  /\ (forall n0 n1 n2,
        is_contiguous dO = true ->
        strides_all_equal
          (fst (fst (fst (fst (saved_tensors ctx)))))
          (snd (fst (fst (fst (saved_tensors ctx)))))
          (snd (fst (fst (saved_tensors ctx))))
          (snd (fst (saved_tensors ctx))) dO = true ->
        unpack3_prefix (shape (fst (fst (fst (fst (saved_tensors ctx))))))
        = Ok (n0, n1, n2) ->
        backward f1 f2 f3 f4 ctx dO = Raise TypeError)
  /\ (forall sh k, call_size sh k = Raise TypeError)
  /\ (forall n s, triton_cdiv (VInt n) (VStr s) = Raise TypeError)
  /\ (forall fresh pick Q K V scale r ctx',
        forward fresh pick Q K V scale = Ok (r, ctx') ->
        getattr (ctx_head_dim ctx') = Raise AttributeError).
Proof.
  split; [apply backward_raises|].
  split; [intros n0 n1 n2; apply backward_past_assertions|].
  split; [reflexivity|]. split; [reflexivity|].
  intros fresh pick Q K V scale r ctx' H.
  rewrite (forward_leaves_no_head_dim _ _ _ _ _ _ H). reflexivity.
Qed.

(** C2 fails on the code: on the example inputs, with a contiguous output
    gradient, [backward] raises [TypeError] and returns no gradients. *)
Theorem backward_example_raises :
  exists r,
    forward ex_fresh 0 ex_Q ex_K ex_V 1%R = Ok (r, ex_ctx)
    /\ is_contiguous ex_dO = true
    /\ backward ex_fresh ex_fresh ex_fresh ex_fresh ex_ctx ex_dO
       = Raise TypeError.
Proof.
  eexists. split; [apply forward_example; reflexivity|].
  split; [reflexivity|].
  apply backward_past_assertions with (n0 := 1) (n1 := 1) (n2 := 64);
    reflexivity.
Qed.

(** C6 fails on the code: [_attn_bwd_preprocess] applies [tl.load] to a
    block of integers, so no program instance gets as far as its store; and
    the offset it computes for the store is, for batch 1 and head 0 of a
    contiguous [D] of shape [(2, 1, 64)], 128 where row 0 of that batch and
    head lies at 64. *)
Theorem bwd_preprocess_example :
  (forall (a : BwdPreprocess.args (F := R)) q bh,
     BwdPreprocess._attn_bwd_preprocess a q bh = Raise CompilationError)
  /\ BwdPreprocess.batch_idx ex_pre_args 1 = 1
  /\ BwdPreprocess.head_idx ex_pre_args 1 = 0
  /\ BwdPreprocess.offs_di ex_pre_args 0 1 0 = 128
  /\ 1 * BwdPreprocess.stride_D_batch ex_pre_args
     + 0 * BwdPreprocess.stride_D_head ex_pre_args
     + 0 * BwdPreprocess.stride_D_seq ex_pre_args = 64.
Proof. repeat split. Qed.

(** ** The forward pass in exact arithmetic *)

Section RealSumsMore.
Local Open Scope R_scope.

Lemma Rsum_zero (n : nat) (f : nat -> R) :
  (forall j, (j < n)%nat -> f j = 0) -> tl_sum n f = 0.
Proof.
  induction n as [|n IH]; intros H; [reflexivity|].
  cbn. rewrite IH by (intros; apply H; lia). rewrite H by lia. ring.
Qed.

Lemma Rsum_single (n k : nat) (f : nat -> R) :
  (k < n)%nat -> (forall j, (j < n)%nat -> j <> k -> f j = 0) ->
  tl_sum n f = f k.
Proof.
  induction n as [|n IH]; intros Hk H; [lia|]. cbn.
  destruct (Nat.eq_dec k n) as [->|Hne].
  - rewrite Rsum_zero by (intros; apply H; lia). ring.
  - rewrite IH by (try lia; intros; apply H; lia).
    rewrite (H n) by lia. ring.
Qed.

Lemma max_upto_eq (k j : nat) (f : nat -> R) :
  (j <= k)%nat -> (forall i, (i <= k)%nat -> f i <= f j) ->
  max_upto k f = f j.
Proof.
  intros Hj H. destruct (max_upto_attained k f) as (i & Hi & Heq).
  apply Rle_antisym; [rewrite Heq; apply H; exact Hi|].
  apply max_upto_ge. exact Hj.
Qed.
End RealSumsMore.

Lemma visited_cols_square (pick i : nat) :
  visited_cols (autotune pick) i
  = (i / BLOCK_SIZE_Q (autotune pick) + 1) * BLOCK_SIZE_Q (autotune pick).
Proof.
  destruct (autotune_square pick) as [HKV HBQ].
  unfold visited_cols, num_kv_cols.
  rewrite num_kv_blocks_square by assumption. rewrite HKV. reflexivity.
Qed.

Lemma visited_cols_bounds (pick S i : nat) :
  S mod BLOCK_SIZE_Q (autotune pick) = 0 -> i < S ->
  i < visited_cols (autotune pick) i /\ visited_cols (autotune pick) i <= S.
Proof.
  intros Hdiv Hi. destruct (autotune_square pick) as [_ HBQ].
  rewrite visited_cols_square.
  pose proof (Nat.div_mod_eq i (BLOCK_SIZE_Q (autotune pick))) as Hrow.
  pose proof (Nat.mod_upper_bound i (BLOCK_SIZE_Q (autotune pick))) as Hr.
  pose proof (Nat.div_mod_eq S (BLOCK_SIZE_Q (autotune pick))) as HS.
  rewrite Hdiv in HS.
  assert (i / BLOCK_SIZE_Q (autotune pick) < S / BLOCK_SIZE_Q (autotune pick))
    by (apply Nat.Div0.div_lt_upper_bound; lia).
  split; nia.
Qed.

Section HostExact.
Local Open Scope R_scope.
Variable fresh : nat -> R.
Variable pick : nat.
Variables Q K V : Tensor R.
Variable scale : R.
Variables Bt H S D : nat.
Hypothesis HQ : shape Q = [Bt; H; S; D].
Hypothesis SQ : stride Q = contiguous_strides [Bt; H; S; D].
Hypothesis SK : stride K = contiguous_strides [Bt; H; S; D].
Hypothesis SV : stride V = contiguous_strides [Bt; H; S; D].
Hypothesis Hdiv : (S mod BLOCK_SIZE_Q (autotune pick) = 0)%nat.

Local Abbreviation meta := (autotune pick).
Local Abbreviation BQ := (BLOCK_SIZE_Q (autotune pick)).

Lemma forward_O_exact (b h i d : nat) :
  (b < Bt)%nat -> (h < H)%nat -> (i < S)%nat -> (d < D)%nat ->
  at4 (forward_O fresh pick Q K V scale) b h i d
  = sentinel_attention Q K V scale (visited_cols meta i) b h i d.
Proof.
  intros Hb Hh Hi Hd. destruct (autotune_square pick) as [HKV HBQ].
  rewrite (forward_O_at fresh pick Q K V scale HQ SQ Hdiv Hb Hh Hi Hd).
  rewrite O_block_final_softmax by lia.
  unfold sentinel_attention, visited_cols. cbn [f_div f_mul f_exp R_arith].
  f_equal.
  - apply tl_sum_ext. intros j _.
    rewrite (score_host fresh pick Q K V scale HQ SQ SK) by exact Hh.
    rewrite (V_at_host fresh Q K V scale HQ SQ SV) by exact Hh.
    reflexivity.
  - apply tl_sum_ext. intros j _.
    rewrite (score_host fresh pick Q K V scale HQ SQ SK) by exact Hh.
    reflexivity.
Qed.

Lemma forward_M_exact (b h i : nat) :
  (b < Bt)%nat -> (h < H)%nat -> (i < S)%nat ->
  at3 (forward_M fresh pick Q K V scale) b h i
  = Fin (sentinel_logsumexp Q K scale (visited_cols meta i) b h i).
Proof.
  intros Hb Hh Hi. destruct (autotune_square pick) as [HKV HBQ].
  rewrite (forward_M_at fresh pick Q K V scale HQ Hdiv Hb Hh Hi).
  rewrite s_max_final_logsumexp by lia.
  unfold sentinel_logsumexp, visited_cols. f_equal. cbn [f_log R_arith].
  f_equal. apply tl_sum_ext. intros j _.
  rewrite (score_host fresh pick Q K V scale HQ SQ SK) by exact Hh.
  reflexivity.
Qed.
End HostExact.

(** ** The example inputs, evaluated *)

Section ExampleFacts.
Local Open Scope R_scope.

Lemma ex_at4 (f : nat -> R) (j d : nat) :
  at4 (ex_tensor f) 0 0 j d = f (j * 16 + d)%nat.
Proof. unfold at4, ex_tensor. cbn. f_equal. lia. Qed.

Lemma ex_visited_cols : visited_cols (autotune 0) 0 = 64%nat.
Proof. reflexivity. Qed.

(** A positive value row among non-negative ones gives a positive
    output. *)
Lemma sentinel_attention_pos (Q K V : Tensor R) (scale : R)
    (N b h i d k : nat) :
  (forall j, (j < N)%nat -> 0 <= at4 V b h j d) ->
  (k < N)%nat -> 0 < at4 V b h k d ->
  0 < sentinel_attention Q K V scale N b h i d.
Proof.
  intros Hnn Hk Hpos. unfold sentinel_attention. cbn [f_div f_mul f_exp R_arith].
  apply Rdiv_lt_0_compat.
  - apply Rlt_le_trans
      with (exp (masked_score Q K scale b h i k) * at4 V b h k d).
    + apply Rmult_lt_0_compat; [apply exp_pos|exact Hpos].
    + apply (@Rsum_ge_term N
               (fun j => exp (masked_score Q K scale b h i j) * at4 V b h j d)
               k); [|exact Hk].
      intros j Hj. apply Rmult_le_pos; [left; apply exp_pos|apply Hnn; exact Hj].
  - apply Rsum_pos; [lia|]. intros j _. apply exp_pos.
Qed.

Lemma sentinel_attention_zero (Q K V : Tensor R) (scale : R)
    (N b h i d : nat) :
  (forall j, (j < N)%nat -> at4 V b h j d = 0) ->
  sentinel_attention Q K V scale N b h i d = 0.
Proof.
  intros H0. unfold sentinel_attention. cbn [f_div f_mul f_exp R_arith].
  rewrite Rsum_zero; [unfold Rdiv; ring|].
  intros j Hj. rewrite H0 by exact Hj. ring.
Qed.

Lemma ex_V_nonneg (j : nat) : 0 <= at4 ex_V 0 0 j 0.
Proof.
  unfold ex_V. rewrite ex_at4. destruct (Nat.eqb _ _); lra.
Qed.

Lemma ex_V_row1 : at4 ex_V 0 0 1 0 = 1.
Proof. unfold ex_V. rewrite ex_at4. reflexivity. Qed.

Lemma ex_forward_O_pos :
  0 < at4 (forward_O ex_fresh 0 ex_Q ex_K ex_V 1) 0 0 0 0.
Proof.
  rewrite (@forward_O_exact ex_fresh 0 ex_Q ex_K ex_V 1 1 1 64 16)
    by (reflexivity || lia).
  rewrite ex_visited_cols.
  apply sentinel_attention_pos with (k := 1%nat).
  - intros j _. apply ex_V_nonneg.
  - lia.
  - rewrite ex_V_row1. lra.
Qed.

(** The reference of [test_op] gives row 0 the value row 0, which is 0. *)
Lemma ex_ref_O : ref_O ex_Q ex_K ex_V 1 0 0 0 0 = 0.
Proof.
  unfold ref_O. apply Rsum_zero. intros j Hj.
  cbn [f_mul R_arith]. unfold ex_V at 1. rewrite ex_at4.
  destruct (Nat.eqb_spec (j * 16 + 0) 16) as [Hj1|Hj1]; [|ring].
  assert (j = 1%nat) by lia. subst j.
  unfold torch_softmax, ref_P, MASK. cbn [Nat.leb Nat.eqb ext_exp].
  cbn [f_div f_zero R_arith]. unfold Rdiv. ring.
Qed.
End ExampleFacts.

(** C1, as stated, fails: on the example inputs the output entry
    [O[0, 0, 0, 0]] differs from the reference computation of [test_op].  Key
    row 1, which row 0 must not attend to, has the scaled score [2.0e6];
    after the sentinel is added it is still the largest score of row 0. *)
Lemma forward_differs_from_reference :
  exists O ctx,
    forward ex_fresh 0 ex_Q ex_K ex_V 1%R = Ok (PyTensor O, ctx)
    /\ at4 O 0 0 0 0 <> ref_O ex_Q ex_K ex_V 1%R 0 0 0 0.
Proof.
  eexists. eexists. split; [apply forward_example; reflexivity|].
  rewrite ex_ref_O. pose proof ex_forward_O_pos. lra.
Qed.

(** C1 (amended): for contiguous [Q], [K], [V] of one shape
    [(batch, heads, seq_len, head_dim)] with [seq_len] a multiple of the
    block size, and in exact arithmetic, row [i] of the output is the
    softmax-weighted sum of the value rows [0 .. N - 1], [N] the end of row
    [i]'s query block ([i < N <= seq_len]), where the score of key row [j] is
    [Q_i . K_j * softmax_scale] for [j <= i] and that value minus [1.0e6]
    for [j > i]: the sentinel is added to the score, the masked rows are not
    removed. *)
Theorem forward_computes_sentinel_attention
    (fresh : nat -> R) (pick : nat) (Q K V : Tensor R) (scale : R)
    (Bt H S D : nat) :
  shape Q = [Bt; H; S; D] -> shape K = [Bt; H; S; D] ->
  shape V = [Bt; H; S; D] ->
  stride Q = contiguous_strides [Bt; H; S; D] ->
  stride K = contiguous_strides [Bt; H; S; D] ->
  stride V = contiguous_strides [Bt; H; S; D] ->
  S mod BLOCK_SIZE_Q (autotune pick) = 0 ->
  exists O ctx,
    forward fresh pick Q K V scale = Ok (PyTensor O, ctx)
    /\ forall b h i d,
         b < Bt -> h < H -> i < S -> d < D ->
         i < visited_cols (autotune pick) i
         /\ visited_cols (autotune pick) i <= S
         /\ at4 O b h i d
            = sentinel_attention Q K V scale (visited_cols (autotune pick) i)
                b h i d.
Proof.
  intros HQ HK HV SQ SK SV Hdiv.
  exists (forward_O fresh pick Q K V scale). eexists. split.
  - apply forward_runs with (1 := HQ) (4 := SQ) (5 := SK) (6 := SV).
    + apply shape_last4 with (1 := HK).
    + apply shape_last4 with (1 := HV).
  - intros b h i d Hb Hh Hi Hd.
    destruct (visited_cols_bounds pick Hdiv Hi) as [H1 H2].
    split; [exact H1|]. split; [exact H2|].
    apply forward_O_exact with (Bt := Bt) (H := H) (S := S) (D := D);
      assumption.
Qed.

Lemma forward_computes_sentinel_attention_witness :
  exists O ctx,
    forward ex_fresh 0 ex_Q ex_K ex_V 1%R = Ok (PyTensor O, ctx)
    /\ forall b h i d,
         b < 1 -> h < 1 -> i < 64 -> d < 16 ->
         i < visited_cols (autotune 0) i
         /\ visited_cols (autotune 0) i <= 64
         /\ at4 O b h i d
            = sentinel_attention ex_Q ex_K ex_V 1%R
                (visited_cols (autotune 0) i) b h i d.
Proof.
  apply (@forward_computes_sentinel_attention ex_fresh 0 ex_Q ex_K ex_V 1%R
           1 1 64 16); reflexivity.
Defined.

(** ** Which rows an output row depends on *)

Section Noninterference.
Context {F : Type} {A : Arith F}.
Variables fresh fresh' : nat -> F.
Variable pick : nat.
Variables Q K V K' V' : Tensor F.
Variable scale : F.
Variables Bt H S D : nat.
Hypothesis HQ : shape Q = [Bt; H; S; D].
Hypothesis SQ : stride Q = contiguous_strides [Bt; H; S; D].
Hypothesis SK : stride K = contiguous_strides [Bt; H; S; D].
Hypothesis SV : stride V = contiguous_strides [Bt; H; S; D].
Hypothesis SK' : stride K' = contiguous_strides [Bt; H; S; D].
Hypothesis SV' : stride V' = contiguous_strides [Bt; H; S; D].
Hypothesis Hdiv : S mod BLOCK_SIZE_Q (autotune pick) = 0.

Lemma forward_O_agree (b h i d : nat) :
  b < Bt -> h < H -> i < S -> d < D ->
  (forall j k, j < visited_cols (autotune pick) i -> k < D ->
     at4 K b h j k = at4 K' b h j k) ->
  (forall j, j < visited_cols (autotune pick) i ->
     at4 V b h j d = at4 V' b h j d) ->
  at4 (forward_O fresh pick Q K V scale) b h i d
  = at4 (forward_O fresh' pick Q K' V' scale) b h i d.
Proof.
  intros Hb Hh Hi Hd HKeq HVeq.
  destruct (autotune_square pick) as [HKV HBQ].
  rewrite (forward_O_at fresh pick Q K V scale HQ SQ Hdiv Hb Hh Hi Hd).
  rewrite (forward_O_at fresh' pick Q K' V' scale HQ SQ Hdiv Hb Hh Hi Hd).
  apply O_block_final_ext; [lia| |].
  - intros j Hj.
    rewrite (score_host fresh pick Q K V scale HQ SQ SK) by exact Hh.
    rewrite (score_host fresh' pick Q K' V' scale HQ SQ SK') by exact Hh.
    unfold masked_score. f_equal. f_equal. apply tl_sum_ext. intros k Hk.
    rewrite HQ in Hk. cbn [nth] in Hk. rewrite HKeq by assumption.
    reflexivity.
  - intros j Hj.
    rewrite (V_at_host fresh Q K V scale HQ SQ SV) by exact Hh.
    rewrite (V_at_host fresh' Q K' V' scale HQ SQ SV') by exact Hh.
    apply HVeq. exact Hj.
Qed.
End Noninterference.

(** C3, as stated, fails: two runs with the same [Q] and [K], whose [V]
    agree in row 0 and differ in row 1, give different output rows 0. *)
Lemma forward_row_depends_on_later_row :
  exists O O' ctx ctx',
    forward ex_fresh 0 ex_Q ex_K ex_V0 1%R = Ok (PyTensor O, ctx)
    /\ forward ex_fresh 0 ex_Q ex_K ex_V 1%R = Ok (PyTensor O', ctx')
    /\ (forall j d, j <= 0 -> d < 16 ->
          at4 ex_V0 0 0 j d = at4 ex_V 0 0 j d)
    /\ at4 O 0 0 0 0 <> at4 O' 0 0 0 0.
Proof.
  eexists. eexists. eexists. eexists.
  split; [apply forward_example; reflexivity|].
  split; [apply forward_example; reflexivity|]. split.
  - intros j d Hj Hd. unfold ex_V0, ex_V. rewrite !ex_at4.
    destruct (Nat.eqb_spec (j * 16 + d) 16); [lia|reflexivity].
  - rewrite (@forward_O_exact ex_fresh 0 ex_Q ex_K ex_V0 1%R 1 1 64 16)
      by (reflexivity || lia).
    rewrite sentinel_attention_zero
      by (intros; unfold ex_V0; apply ex_at4).
    pose proof ex_forward_O_pos. lra.
Qed.

(** C3 (amended): for contiguous inputs of one shape with [seq_len] a
    multiple of the block size, and for any scalar arithmetic, output row
    [i] is the same in two runs, under the same block-size configuration,
    that agree on [Q] and agree on [K] and [V] in all rows below [N], the end
    of row [i]'s query block ([i < N <= seq_len]): perturbing a key/value
    row [j >= N] never changes output row [i].  Rows [i < j < N] are read by
    the kernel; the mask lowers their scores by [1.0e6] and does not remove
    them. *)
Theorem forward_row_ignores_rows_past_its_block
    (F : Type) (A : Arith F) (fresh fresh' : nat -> F) (pick : nat)
    (Q K V K' V' : Tensor F) (scale : F) (Bt H S D : nat) (b h i : nat) :
  shape Q = [Bt; H; S; D] ->
  shape K = [Bt; H; S; D] -> shape V = [Bt; H; S; D] ->
  shape K' = [Bt; H; S; D] -> shape V' = [Bt; H; S; D] ->
  stride Q = contiguous_strides [Bt; H; S; D] ->
  stride K = contiguous_strides [Bt; H; S; D] ->
  stride V = contiguous_strides [Bt; H; S; D] ->
  stride K' = contiguous_strides [Bt; H; S; D] ->
  stride V' = contiguous_strides [Bt; H; S; D] ->
  S mod BLOCK_SIZE_Q (autotune pick) = 0 ->
  b < Bt -> h < H -> i < S ->
  (forall j k, j < visited_cols (autotune pick) i -> k < D ->
     at4 K b h j k = at4 K' b h j k /\ at4 V b h j k = at4 V' b h j k) ->
  i < visited_cols (autotune pick) i
  /\ visited_cols (autotune pick) i <= S
  /\ exists O O' ctx ctx',
       forward fresh pick Q K V scale = Ok (PyTensor O, ctx)
       /\ forward fresh' pick Q K' V' scale = Ok (PyTensor O', ctx')
       /\ forall d, d < D -> at4 O b h i d = at4 O' b h i d.
Proof.
  intros HQ HK HV HK' HV' SQ SK SV SK' SV' Hdiv Hb Hh Hi Hagree.
  destruct (visited_cols_bounds pick Hdiv Hi) as [H1 H2].
  split; [exact H1|]. split; [exact H2|].
  eexists. eexists. eexists. eexists. split; [|split].
  - apply forward_runs with (1 := HQ) (4 := SQ) (5 := SK) (6 := SV).
    + apply shape_last4 with (1 := HK).
    + apply shape_last4 with (1 := HV).
  - apply forward_runs with (1 := HQ) (4 := SQ) (5 := SK') (6 := SV').
    + apply shape_last4 with (1 := HK').
    + apply shape_last4 with (1 := HV').
  - intros d Hd.
    apply forward_O_agree with (Bt := Bt) (H := H) (S := S) (D := D);
      try assumption.
    + intros j k Hj Hk. apply (Hagree j k Hj Hk).
    + intros j Hj. apply (Hagree j d Hj Hd).
Qed.

Lemma forward_row_ignores_rows_past_its_block_witness :
  0 < visited_cols (autotune 0) 0
  /\ visited_cols (autotune 0) 0 <= 128
  /\ exists O O' ctx ctx',
       forward ex_fresh 0 ex_K_long ex_K_long ex_K_long 1%R
       = Ok (PyTensor O, ctx)
       /\ forward ex_fresh 0 ex_K_long ex_K_far ex_K_long 1%R
          = Ok (PyTensor O', ctx')
       /\ forall d, d < 16 -> at4 O 0 0 0 d = at4 O' 0 0 0 d.
Proof.
  apply (@forward_row_ignores_rows_past_its_block R R_arith ex_fresh ex_fresh
           0 ex_K_long ex_K_long ex_K_long ex_K_far ex_K_long 1%R
           1 1 128 16 0 0 0); try reflexivity; try lia.
  intros j k Hj Hk. change (visited_cols (autotune 0) 0) with 64 in Hj.
  split; [|reflexivity].
  unfold at4, ex_K_long, ex_K_far. cbn [data stride contiguous_strides nth].
  destruct (Nat.eqb_spec (0 * fold_right Nat.mul 1 [1; 128; 16]
                          + 0 * fold_right Nat.mul 1 [128; 16]
                          + j * fold_right Nat.mul 1 [16]
                          + k * fold_right Nat.mul 1 []) 1600) as [He|He];
    [|reflexivity].
  cbn in He. lia.
Defined.

(** ** The row log-normalizer *)

Section LogNormalizer.
Local Open Scope R_scope.

Lemma softmax_mass_one (N : nat) (f : nat -> R) :
  (0 < N)%nat ->
  tl_sum N (fun j => exp (f j - ln (tl_sum N (fun k => exp (f k))))) = 1.
Proof.
  intros HN.
  assert (Hpos : 0 < tl_sum N (fun k => exp (f k)))
    by (apply Rsum_pos; [exact HN|intros; apply exp_pos]).
  rewrite (@tl_sum_ext R R_arith N _
             (fun j => exp (f j) * / tl_sum N (fun k => exp (f k)))).
  - rewrite Rsum_scal_r. field. lra.
  - intros j _. unfold Rminus. rewrite exp_plus, exp_Ropp, exp_ln by exact Hpos.
    reflexivity.
Qed.

Lemma ex_raw_00 :
  tl_sum (nth 3 (shape ex_Q) 0%nat)
    (fun k => at4 ex_Q 0 0 0 k * at4 ex_K 0 0 0 k) = 0.
Proof.
  apply Rsum_zero. intros k Hk. change (nth 3 (shape ex_Q) 0%nat) with 16%nat in Hk.
  unfold ex_K. rewrite ex_at4.
  destruct (Nat.eqb_spec (0 * 16 + k) 16); [lia|ring].
Qed.

Lemma ex_masked_score_00 : masked_score ex_Q ex_K 1 0 0 0 0 = 0.
Proof.
  unfold masked_score. cbn [f_add f_mul f_zero R_arith Nat.leb].
  rewrite ex_raw_00. ring.
Qed.

Lemma ex_exp_sum_gt_1 :
  1 < tl_sum 64 (fun j => exp (masked_score ex_Q ex_K 1 0 0 0 j)).
Proof.
  change 64%nat with (1 + 63)%nat. rewrite Rsum_split.
  set (rest := tl_sum 63 _).
  assert (0 < rest)
    by (unfold rest; apply Rsum_pos; [lia|intros; apply exp_pos]).
  cbn [tl_sum f_add f_zero R_arith]. rewrite ex_masked_score_00, exp_0.
  lra.
Qed.

Lemma ex_unmasked_mass_lt_1 :
  unmasked_mass ex_Q ex_K 1
    (sentinel_logsumexp ex_Q ex_K 1 64 0 0 0) 0 0 0 < 1.
Proof.
  unfold unmasked_mass.
  set (m := sentinel_logsumexp ex_Q ex_K 1 64 0 0 0).
  cbn [Nat.add tl_sum f_add f_sub f_mul f_zero f_exp R_arith].
  rewrite ex_raw_00. unfold m, sentinel_logsumexp. cbn [f_log f_exp R_arith].
  pose proof ex_exp_sum_gt_1 as Hgt.
  set (X := tl_sum 64 _) in *.
  replace (0 * 1 - ln X) with (- ln X) by ring.
  rewrite exp_Ropp, exp_ln by lra. rewrite Rplus_0_l.
  rewrite <- Rinv_1. apply Rinv_lt_contravar; lra.
Qed.
End LogNormalizer.

(** C4, as stated, fails: on the example inputs the exponentials
    [exp(S - M)] of row 0, summed over its one unmasked key position, do not
    give 1. *)
Lemma forward_M_unmasked_mass_not_one :
  exists O ctx m,
    forward ex_fresh 0 ex_Q ex_K ex_V 1%R = Ok (PyTensor O, ctx)
    /\ at3 (snd (saved_tensors ctx)) 0 0 0 = Fin m
    /\ unmasked_mass ex_Q ex_K 1%R m 0 0 0 <> 1%R.
Proof.
  eexists. eexists. eexists.
  split; [apply forward_example; reflexivity|]. cbn [saved_tensors snd].
  split.
  - rewrite (@forward_M_exact ex_fresh 0 ex_Q ex_K ex_V 1%R 1 1 64 16)
      by (reflexivity || lia).
    rewrite ex_visited_cols. reflexivity.
  - pose proof ex_unmasked_mass_lt_1. lra.
Qed.

(** C4 (amended): for contiguous inputs of one shape with [seq_len] a
    multiple of the block size, and in exact arithmetic, the value stored in
    [M] for a query row is the running maximum plus the logarithm of the
    running sum after the last key/value block; it is the logarithm of the
    sum of exponentials over all [N] visited key positions of the scores with
    [1.0e6] subtracted at the masked ones, so that [exp(S' - M)] summed over
    all visited positions, masked ones included, is 1. *)
Theorem forward_M_is_sentinel_logsumexp
    (fresh : nat -> R) (pick : nat) (Q K V : Tensor R) (scale : R)
    (Bt H S D : nat) :
  shape Q = [Bt; H; S; D] -> shape K = [Bt; H; S; D] ->
  shape V = [Bt; H; S; D] ->
  stride Q = contiguous_strides [Bt; H; S; D] ->
  stride K = contiguous_strides [Bt; H; S; D] ->
  stride V = contiguous_strides [Bt; H; S; D] ->
  S mod BLOCK_SIZE_Q (autotune pick) = 0 ->
  exists O ctx,
    forward fresh pick Q K V scale = Ok (PyTensor O, ctx)
    /\ forall b h i,
         b < Bt -> h < H -> i < S ->
         exists running_max : R,
           let st :=
             fwd_loop (forward_args fresh Q K V scale) (autotune pick)
               (i / BLOCK_SIZE_Q (autotune pick)) (b * H + h) in
           let r := i mod BLOCK_SIZE_Q (autotune pick) in
           let N := visited_cols (autotune pick) i in
           let m := (running_max + ln (softmax_denom st r))%R in
           s_max st r = Fin running_max
           /\ at3 (snd (saved_tensors ctx)) b h i = Fin m
           /\ m = sentinel_logsumexp Q K scale N b h i
           /\ tl_sum N (fun j => exp (masked_score Q K scale b h i j - m))
              = 1%R.
Proof.
  intros HQ HK HV SQ SK SV Hdiv.
  eexists. eexists. split.
  - apply forward_runs with (1 := HQ) (4 := SQ) (5 := SK) (6 := SV).
    + apply shape_last4 with (1 := HK).
    + apply shape_last4 with (1 := HV).
  - cbn [saved_tensors snd]. intros b h i Hb Hh Hi.
    destruct (autotune_square pick) as [HKV HBQ].
    assert (HB : 0 < BLOCK_SIZE_KV (autotune pick)) by lia.
    pose proof (num_kv_blocks_pos (autotune pick)
                  (i / BLOCK_SIZE_Q (autotune pick)) HBQ HB) as Hnb.
    destruct (fwd_after_inv (forward_args fresh Q K V scale) (autotune pick)
                (i / BLOCK_SIZE_Q (autotune pick)) (b * H + h) HB
                (num_kv_blocks (autotune pick)
                   (i / BLOCK_SIZE_Q (autotune pick)))
                (i mod BLOCK_SIZE_Q (autotune pick)) 0) as (Hm & _ & _).
    destruct (Nat.eqb_spec
                (num_kv_blocks (autotune pick)
                   (i / BLOCK_SIZE_Q (autotune pick))) 0) as [H0|_]; [lia|].
    rewrite <- fwd_loop_after in Hm.
    set (st := fwd_loop (forward_args fresh Q K V scale) (autotune pick)
                 (i / BLOCK_SIZE_Q (autotune pick)) (b * H + h)) in *.
    set (r := i mod BLOCK_SIZE_Q (autotune pick)) in *.
    set (rm := running_max _ _ _ _ _ _) in Hm.
    exists rm. cbv zeta. split; [exact Hm|].
    assert (Hat : at3 (forward_M fresh pick Q K V scale) b h i
                  = Fin (rm + ln (softmax_denom st r))%R).
    { rewrite (forward_M_at fresh pick Q K V scale HQ Hdiv Hb Hh Hi).
      unfold s_max_final. fold st r. rewrite Hm. reflexivity. }
    split; [exact Hat|].
    pose proof (@forward_M_exact fresh pick Q K V scale Bt H S D HQ SQ SK
                  Hdiv b h i Hb Hh Hi) as Hex.
    rewrite Hat in Hex. inversion Hex as [Heq]. rewrite Heq.
    split; [reflexivity|].
    unfold sentinel_logsumexp. cbn [f_log f_exp R_arith].
    apply softmax_mass_one.
    destruct (visited_cols_bounds pick Hdiv Hi). lia.
Qed.

Lemma forward_M_is_sentinel_logsumexp_witness :
  exists O ctx,
    forward ex_fresh 0 ex_Q ex_K ex_V 1%R = Ok (PyTensor O, ctx)
    /\ forall b h i,
         b < 1 -> h < 1 -> i < 64 ->
         exists running_max : R,
           let st :=
             fwd_loop (forward_args ex_fresh ex_Q ex_K ex_V 1%R) (autotune 0)
               (i / BLOCK_SIZE_Q (autotune 0)) (b * 1 + h) in
           let r := i mod BLOCK_SIZE_Q (autotune 0) in
           let N := visited_cols (autotune 0) i in
           let m := (running_max + ln (softmax_denom st r))%R in
           s_max st r = Fin running_max
           /\ at3 (snd (saved_tensors ctx)) b h i = Fin m
           /\ m = sentinel_logsumexp ex_Q ex_K 1%R N b h i
           /\ tl_sum N (fun j => exp (masked_score ex_Q ex_K 1%R b h i j - m))
              = 1%R.
Proof.
  apply (@forward_M_is_sentinel_logsumexp ex_fresh 0 ex_Q ex_K ex_V 1%R
           1 1 64 16); reflexivity.
Defined.

(** ** The weight of a masked position *)

Section MaskedGeneric.
Context {F : Type} {A : Arith F}.
Variable a : fwd_args (F := F).
Variable meta : Config.
Variables query_block_idx batch_head_idx : nat.

Local Abbreviation after := (fwd_after a meta query_block_idx batch_head_idx).
Local Abbreviation B := (BLOCK_SIZE_KV meta).

Lemma new_s_max_of_after (n r : nat) :
  new_s_max_of a meta query_block_idx batch_head_idx (after n) (0 + n * B) r
  = new_s_max_at a meta query_block_idx batch_head_idx n r.
Proof.
  unfold new_s_max_of, new_s_max_at. rewrite K_block_ptr_after. reflexivity.
Qed.

Lemma P_block_after (n r c : nat) :
  P_block_of a meta query_block_idx batch_head_idx (after n) (0 + n * B) r c
  = f_exp (f_sub (score a meta query_block_idx batch_head_idx r (n * B + c))
                 (new_s_max_at a meta query_block_idx batch_head_idx n r)).
Proof.
  unfold P_block_of, new_s_max_of, new_s_max_at. rewrite K_block_ptr_after.
  reflexivity.
Qed.

Lemma score_masked (r j : nat) :
  (j <=? offs_q meta query_block_idx r) = false ->
  score a meta query_block_idx batch_head_idx r j
  = f_add (raw_score a meta query_block_idx batch_head_idx r j)
          (f_neg f_lit_1e6).
Proof. intros H. unfold score. rewrite H. reflexivity. Qed.

Lemma score_unmasked (r j : nat) :
  (j <=? offs_q meta query_block_idx r) = true ->
  score a meta query_block_idx batch_head_idx r j
  = f_add (raw_score a meta query_block_idx batch_head_idx r j) f_zero.
Proof. intros H. unfold score. rewrite H. reflexivity. Qed.
End MaskedGeneric.

Section MaskedExact.
Local Open Scope R_scope.
Variable a : fwd_args (F := R).
Variable meta : Config.
Variables query_block_idx batch_head_idx : nat.
Hypothesis HB : (0 < BLOCK_SIZE_KV meta)%nat.

Local Abbreviation B := (BLOCK_SIZE_KV meta).
Local Abbreviation raw := (raw_score a meta query_block_idx batch_head_idx).

Lemma exp_le_mono (x y : R) : x <= y -> exp x <= exp y.
Proof.
  intros [Hlt|Heq]; [left; apply exp_increasing; exact Hlt|].
  rewrite Heq. apply Rle_refl.
Qed.

Lemma new_s_max_at_running (n r : nat) :
  new_s_max_at a meta query_block_idx batch_head_idx n r
  = running_max a meta query_block_idx batch_head_idx (S n) r.
Proof.
  pose proof (s_max_after_S a meta query_block_idx batch_head_idx n r) as H1.
  destruct (fwd_after_inv a meta query_block_idx batch_head_idx HB (S n) r 0)
    as (H2 & _ & _).
  rewrite H1 in H2. cbn [Nat.eqb] in H2. inversion H2. reflexivity.
Qed.

Lemma new_s_max_at_ge_first (n r : nat) :
  raw r 0%nat <= new_s_max_at a meta query_block_idx batch_head_idx n r.
Proof.
  rewrite new_s_max_at_running.
  apply Rle_trans with (score a meta query_block_idx batch_head_idx r 0).
  - rewrite score_unmasked by reflexivity. cbn [f_add f_zero R_arith]. lra.
  - apply running_max_ge; [exact HB|]. nia.
Qed.

Lemma masked_P_block (n r c : nat) :
  causal_mask meta query_block_idx (0 + n * B) r c = false ->
  P_block_of a meta query_block_idx batch_head_idx
    (fwd_after a meta query_block_idx batch_head_idx n) (0 + n * B) r c
  = exp (raw r (n * B + c)%nat - 1000000
         - new_s_max_of a meta query_block_idx batch_head_idx
             (fwd_after a meta query_block_idx batch_head_idx n)
             (0 + n * B) r).
Proof.
  intros Hmask. rewrite P_block_after, new_s_max_of_after.
  rewrite score_masked by exact Hmask.
  cbn [f_exp f_sub f_add f_neg f_lit_1e6 R_arith]. f_equal; try ring.
Qed.
End MaskedExact.

Section MaskedExample.
Local Open Scope R_scope.

Lemma ex_raw_score (j : nat) :
  raw_score ex_args (autotune 0) 0 0 0 j
  = (if Nat.eqb j 1 then 2000000 else 0) * 1.
Proof.
  change (raw_score (forward_args ex_fresh ex_Q ex_K ex_V 1) (autotune 0)
            (0 / BLOCK_SIZE_Q (autotune 0)) (0 * 1 + 0)
            (0 mod BLOCK_SIZE_Q (autotune 0)) j
          = (if Nat.eqb j 1 then 2000000 else 0) * 1).
  rewrite (@raw_score_host R R_arith ex_fresh 0 ex_Q ex_K ex_V 1 1 1 64 16)
    by (reflexivity || lia).
  cbn [f_mul R_arith]. f_equal.
  rewrite (@Rsum_single 16 0); [|lia|].
  2:{ intros k Hk Hne. unfold ex_Q. rewrite ex_at4.
      destruct (Nat.eqb_spec (0 * 16 + k) 0); [lia|ring]. }
  unfold ex_Q, ex_K. rewrite !ex_at4. cbn [Nat.mul Nat.add Nat.eqb].
  rewrite Rmult_1_l.
  destruct (Nat.eqb_spec (j * 16 + 0) 16), (Nat.eqb_spec j 1);
    try reflexivity; lia.
Qed.

Lemma ex_score_0 : score ex_args (autotune 0) 0 0 0 0 = 0.
Proof.
  rewrite score_unmasked by reflexivity. rewrite ex_raw_score.
  cbn [Nat.eqb f_add f_zero R_arith]. ring.
Qed.

Lemma ex_score_1 : score ex_args (autotune 0) 0 0 0 1 = 1000000.
Proof.
  rewrite score_masked by reflexivity. rewrite ex_raw_score.
  cbn [Nat.eqb f_add f_neg f_lit_1e6 R_arith]. ring.
Qed.

Lemma ex_score_rest (j : nat) :
  (2 <= j)%nat -> score ex_args (autotune 0) 0 0 0 j = - 1000000.
Proof.
  intros Hj. rewrite score_masked.
  - rewrite ex_raw_score. destruct (Nat.eqb_spec j 1); [lia|].
    cbn [f_add f_neg f_lit_1e6 R_arith]. ring.
  - apply Nat.leb_gt. cbn. lia.
Qed.

Lemma ex_new_s_max :
  new_s_max_of ex_args (autotune 0) 0 0
    (fwd_init ex_args (autotune 0) 0) 0 0 = 1000000.
Proof.
  change (new_s_max_of ex_args (autotune 0) 0 0
            (fwd_after ex_args (autotune 0) 0 0 0)
            (0 + 0 * BLOCK_SIZE_KV (autotune 0)) 0 = 1000000).
  rewrite new_s_max_of_after, new_s_max_at_running by (cbn; lia).
  unfold running_max. rewrite (@max_upto_eq _ 1).
  - apply ex_score_1.
  - cbn. lia.
  - intros i _. rewrite ex_score_1.
    destruct i as [|[|i]].
    + rewrite ex_score_0. lra.
    + rewrite ex_score_1. lra.
    + rewrite ex_score_rest by lia. lra.
Qed.

Lemma ex_P_block_masked :
  P_block_of ex_args (autotune 0) 0 0
    (fwd_init ex_args (autotune 0) 0) 0 0%nat 1%nat = 1.
Proof.
  change (P_block_of ex_args (autotune 0) 0 0
            (fwd_after ex_args (autotune 0) 0 0 0)
            (0 + 0 * BLOCK_SIZE_KV (autotune 0)) 0%nat 1%nat = 1).
  rewrite masked_P_block by (reflexivity || (cbn; lia)).
  change (new_s_max_of ex_args (autotune 0) 0 0
            (fwd_after ex_args (autotune 0) 0 0 0)
            (0 + 0 * BLOCK_SIZE_KV (autotune 0)) 0)
    with (new_s_max_of ex_args (autotune 0) 0 0
            (fwd_init ex_args (autotune 0) 0) 0 0).
  rewrite ex_new_s_max.
  change (0 * BLOCK_SIZE_KV (autotune 0) + 1)%nat with 1%nat.
  rewrite ex_raw_score. cbn [Nat.eqb].
  replace (2000000 * 1 - 1000000 - 1000000) with 0 by ring. apply exp_0.
Qed.
End MaskedExample.

(** C8, as stated, fails: in the first iteration of query block 0 on the
    example inputs, the entry of [P_block] for query row 0 and key column 1,
    a masked position, is [exp(0) = 1]. *)
Lemma masked_P_block_entry_is_one :
  causal_mask (autotune 0) 0 0 0 1 = false
  /\ P_block_of ex_args (autotune 0) 0 0
       (fwd_init ex_args (autotune 0) 0) 0 0 1 = 1%R
  /\ P_block_of ex_args (autotune 0) 0 0
       (fwd_init ex_args (autotune 0) 0) 0 0 1 <> 0%R.
Proof.
  split; [reflexivity|]. rewrite ex_P_block_masked.
  split; [reflexivity|]. apply R1_neq_R0.
Qed.

(** C8 (amended): at a masked-out position the score block carries the
    scaled score plus the sentinel [-1.0e6] (the sentinel is added, it does
    not replace the score), and, in exact arithmetic, the exponential
    [P = exp(S - new_max)] there is positive and at most
    [exp(s - s0 - 1.0e6)], [s] the scaled score of the position and [s0] that
    of key column 0 of the same row: masked positions contribute this weight
    to the denominator and to the output accumulator, a weight that is
    negligible as long as the scores of a row spread over much less than
    [1.0e6]. *)
Theorem masked_weight_is_bounded
    (a : fwd_args (F := R)) (meta : Config)
    (query_block_idx batch_head_idx n r c : nat) :
  0 < BLOCK_SIZE_KV meta ->
  causal_mask meta query_block_idx (0 + n * BLOCK_SIZE_KV meta) r c = false ->
  let st := fwd_after a meta query_block_idx batch_head_idx n in
  let start_kv_idx := 0 + n * BLOCK_SIZE_KV meta in
  let s := raw_score a meta query_block_idx batch_head_idx r
             (n * BLOCK_SIZE_KV meta + c) in
  let s0 := raw_score a meta query_block_idx batch_head_idx r 0 in
  let P := P_block_of a meta query_block_idx batch_head_idx st start_kv_idx
             r c in
  S_block_of a meta query_block_idx batch_head_idx
    (tl_load (K_block_ptr st)) start_kv_idx r c = (s + - 1000000)%R
  /\ P = exp (s - 1000000
              - new_s_max_of a meta query_block_idx batch_head_idx st
                  start_kv_idx r)
  /\ (0 < P)%R
  /\ (P <= exp (s - s0 - 1000000))%R.
Proof.
  intros HB Hmask st start_kv_idx s s0 P.
  assert (HP : P = exp (s - 1000000
                        - new_s_max_of a meta query_block_idx batch_head_idx
                            st start_kv_idx r))
    by (apply masked_P_block; assumption).
  split; [|split; [exact HP|]].
  - unfold st, start_kv_idx. rewrite S_block_after.
    rewrite score_masked by exact Hmask. reflexivity.
  - rewrite HP. split; [apply exp_pos|]. apply exp_le_mono.
    unfold st, start_kv_idx. rewrite new_s_max_of_after.
    pose proof (new_s_max_at_ge_first a meta query_block_idx batch_head_idx HB n r)
      as H.
    fold s0 in H. lra.
Qed.

Lemma masked_weight_is_bounded_witness :
  causal_mask (autotune 0) 0 (0 + 0 * BLOCK_SIZE_KV (autotune 0)) 0 1 = false
  /\ (0 < P_block_of ex_args (autotune 0) 0 0
            (fwd_after ex_args (autotune 0) 0 0 0)
            (0 + 0 * BLOCK_SIZE_KV (autotune 0)) 0%nat 1%nat)%R.
Proof.
  assert (HB : 0 < BLOCK_SIZE_KV (autotune 0)) by (cbn; lia).
  assert (Hm : causal_mask (autotune 0) 0
                 (0 + 0 * BLOCK_SIZE_KV (autotune 0)) 0 1 = false)
    by reflexivity.
  split; [exact Hm|].
  destruct (@masked_weight_is_bounded ex_args (autotune 0) 0 0 0 0 1 HB Hm)
    as (_ & _ & H & _).
  exact H.
Defined.

(** * Further properties of the code *)


(** ** Where the forward launch reads and writes *)

Section ForwardOffsets.
Context {F : Type} {A : Arith F}.
Variable fresh : nat -> F.
Variable pick : nat.
Variables Q K V : Tensor F.
Variable scale : F.
Variables Bt H S D : nat.
Hypothesis HQ : shape Q = [Bt; H; S; D].
Hypothesis SQ : stride Q = contiguous_strides [Bt; H; S; D].

Local Abbreviation args := (forward_args fresh Q K V scale).
Local Abbreviation meta := (autotune pick).
Local Abbreviation BQ := (BLOCK_SIZE_Q (autotune pick)).

Lemma forward_HEAD_DIM : HEAD_DIM args = D.
Proof. unfold forward_args. cbn [HEAD_DIM]. rewrite HQ. reflexivity. Qed.

Lemma O_offset (q bh r c : nat) :
  bp_addr (O_block_ptr args meta q bh) r c
  = (bh * S + (q * BQ + r)) * D + c.
Proof.
  unfold bp_addr, O_block_ptr, qkv_offset, batch_idx, head_idx, forward_args.
  cbn [bp_base bp_offsets bp_strides fst snd stride_Q_batch stride_Q_head
       stride_O_seq stride_O_dim NUM_HEADS].
  rewrite HQ, SQ. cbn [nth contiguous_strides fold_right].
  pose proof (Nat.div_mod_eq bh H) as Hd.
  set (x := bh / H) in *. set (y := bh mod H) in *. nia.
Qed.

Lemma M_offset (q bh r : nat) :
  offs_m args meta q bh r = bh * S + (q * BQ + r).
Proof.
  unfold offs_m, offs_q, batch_idx, head_idx, forward_args.
  cbn [stride_M_batch stride_M_head NUM_HEADS]. rewrite HQ. cbn [nth].
  pose proof (Nat.div_mod_eq bh H) as Hd.
  set (x := bh / H) in *. set (y := bh mod H) in *. nia.
Qed.

Lemma O_addr_inj (q bh r c q' bh' r' c' : nat) :
  q * BQ + r < S -> q' * BQ + r' < S -> r < BQ -> r' < BQ -> c < D -> c' < D ->
  bp_addr (O_block_ptr args meta q bh) r c
  = bp_addr (O_block_ptr args meta q' bh') r' c' ->
  q = q' /\ bh = bh' /\ r = r' /\ c = c'.
Proof.
  intros Hi Hi' Hr Hr' Hc Hc' Heq.
  rewrite !O_offset in Heq.
  apply radix_inj in Heq as [Heq1 Heq2]; [|lia|lia].
  apply radix_inj in Heq1 as [Heq3 Heq4]; [|lia|lia].
  assert (q = q') by nia. subst q'. repeat split; lia.
Qed.

Lemma M_addr_inj (q bh r q' bh' r' : nat) :
  q * BQ + r < S -> q' * BQ + r' < S -> r < BQ -> r' < BQ ->
  offs_m args meta q bh r = offs_m args meta q' bh' r' ->
  q = q' /\ bh = bh' /\ r = r'.
Proof.
  intros Hi Hi' Hr Hr' Heq.
  rewrite !M_offset in Heq.
  apply radix_inj in Heq as [Heq3 Heq4]; [|lia|lia].
  assert (q = q') by nia. subst q'. repeat split; lia.
Qed.
End ForwardOffsets.

Section StorePermutation.
Context {E : Type}.

(** Stores that give every offset at most one value may be applied in any
    order. *)
Lemma apply_stores_perm (m : nat -> E) (ws ws' : list (nat * E)) (x : nat) :
  (forall y v v', In (y, v) ws -> In (y, v') ws -> v = v') ->
  Permutation ws' ws ->
  apply_stores m ws' x = apply_stores m ws x.
Proof.
  intros Hfun Hperm.
  destruct (in_dec Nat.eq_dec x (map fst ws)) as [Hin|Hnin].
  - apply in_map_iff in Hin as ([y v] & Hy & Hin). cbn in Hy. subst y.
    rewrite (@apply_stores_unique E m ws x v); [|exact Hin|].
    + apply apply_stores_unique.
      * apply Permutation_in with (1 := Permutation_sym Hperm). exact Hin.
      * intros v' Hv'. apply (Hfun x); [|exact Hin].
        apply Permutation_in with (1 := Hperm). exact Hv'.
    + intros v' Hv'. apply (Hfun x); assumption.
  - rewrite !apply_stores_notin; [reflexivity| |].
    + intros v Hv. apply Hnin. apply in_map_iff. exists (x, v). auto.
    + intros v Hv. apply Hnin. apply in_map_iff. exists (x, v).
      split; [reflexivity|]. apply Permutation_in with (1 := Hperm). exact Hv.
Qed.
End StorePermutation.

Section ForwardHost.
Context {F : Type} {A : Arith F}.

(** On contiguous inputs of one four-dimensional shape [forward] returns
    the tensor [forward_O] and saves [forward_M]. *)
Lemma forward_contiguous (fresh : nat -> F) (pick : nat) (Q K V : Tensor F)
    (scale : F) (Bt H S D : nat) :
  shape Q = [Bt; H; S; D] -> shape K = [Bt; H; S; D] ->
  shape V = [Bt; H; S; D] ->
  stride Q = contiguous_strides [Bt; H; S; D] ->
  stride K = contiguous_strides [Bt; H; S; D] ->
  stride V = contiguous_strides [Bt; H; S; D] ->
  forward fresh pick Q K V scale
  = Ok (PyTensor (forward_O fresh pick Q K V scale),
        mkCtx (Q, K, V, forward_O fresh pick Q K V scale,
               forward_M fresh pick Q K V scale)
          (Some (fun meta : Config =>
                   (cdiv S (BLOCK_SIZE_Q meta), Bt * H, 1)))
          (Some scale) None).
Proof.
  intros HQ HK HV SQ SK SV.
  apply forward_runs with (1 := HQ) (4 := SQ) (5 := SK) (6 := SV).
  - apply shape_last4 with (1 := HK).
  - apply shape_last4 with (1 := HV).
Qed.
End ForwardHost.

Section ForwardStores.
Context {F : Type} {A : Arith F}.
Variable fresh : nat -> F.
Variable pick : nat.
Variables Q K V : Tensor F.
Variable scale : F.
Variables Bt H S D : nat.
Hypothesis HQ : shape Q = [Bt; H; S; D].
Hypothesis SQ : stride Q = contiguous_strides [Bt; H; S; D].
Hypothesis Hdiv : S mod BLOCK_SIZE_Q (autotune pick) = 0.

Local Abbreviation args := (forward_args fresh Q K V scale).
Local Abbreviation meta := (autotune pick).
Local Abbreviation BQ := (BLOCK_SIZE_Q (autotune pick)).
Local Abbreviation grid := (forward_grid pick Q).

(** All stores into [O], resp. [M], of the launch [forward] performs. *)
Local Abbreviation all_O_stores :=
  (flat_map (fun pid => O_stores (_attn_fwd args meta (fst pid) (snd pid)))
     (program_ids (fst grid) (snd grid))).
Local Abbreviation all_M_stores :=
  (flat_map (fun pid => M_stores (_attn_fwd args meta (fst pid) (snd pid)))
     (program_ids (fst grid) (snd grid))).

Lemma in_all_O_stores (x : nat) (v : F) :
  In (x, v) all_O_stores
  <-> exists q bh r c,
        q < S / BQ /\ bh < Bt * H /\ r < BQ /\ c < D
        /\ x = (bh * S + (q * BQ + r)) * D + c
        /\ v = O_block_final args meta q bh r c.
Proof.
  rewrite (forward_grid_eq pick Q HQ Hdiv). cbn [fst snd].
  rewrite in_flat_map. split.
  - intros ([q bh] & Hpid & Hin). apply in_program_ids in Hpid.
    cbn [fst snd] in Hpid, Hin. cbn [_attn_fwd O_stores] in Hin.
    apply in_tl_store in Hin as (r & c & Hr & Hc & Hx & Hv).
    cbn [O_block_ptr bp_block_shape fst snd] in Hr, Hc.
    rewrite (forward_HEAD_DIM fresh Q K V scale HQ) in Hc.
    rewrite (O_offset fresh pick Q K V scale HQ SQ) in Hx.
    exists q, bh, r, c. repeat split; tauto || assumption.
  - intros (q & bh & r & c & Hq & Hbh & Hr & Hc & Hx & Hv).
    exists (q, bh). split; [apply in_program_ids; cbn [fst snd]; lia|].
    cbn [fst snd _attn_fwd O_stores]. apply in_tl_store. exists r, c.
    cbn [O_block_ptr bp_block_shape fst snd].
    rewrite (forward_HEAD_DIM fresh Q K V scale HQ).
    rewrite (O_offset fresh pick Q K V scale HQ SQ). auto.
Qed.

Lemma in_all_M_stores (x : nat) (v : ext F) :
  In (x, v) all_M_stores
  <-> exists q bh r,
        q < S / BQ /\ bh < Bt * H /\ r < BQ
        /\ x = bh * S + (q * BQ + r)
        /\ v = s_max_final args meta q bh r.
Proof.
  rewrite (forward_grid_eq pick Q HQ Hdiv). cbn [fst snd].
  rewrite in_flat_map. split.
  - intros ([q bh] & Hpid & Hin). apply in_program_ids in Hpid.
    cbn [fst snd] in Hpid, Hin. cbn [_attn_fwd M_stores] in Hin.
    apply in_map_iff in Hin as (r & Heq & Hr). apply in_seq in Hr.
    inversion Heq as [[Hx Hv]].
    rewrite (M_offset fresh pick Q K V scale HQ).
    exists q, bh, r. repeat split; tauto || lia.
  - intros (q & bh & r & Hq & Hbh & Hr & Hx & Hv).
    exists (q, bh). split; [apply in_program_ids; cbn [fst snd]; lia|].
    cbn [fst snd _attn_fwd M_stores]. apply in_map_iff. exists r.
    rewrite (M_offset fresh pick Q K V scale HQ).
    split; [subst; reflexivity|apply in_seq; lia].
Qed.

Lemma all_O_stores_functional (x : nat) (v v' : F) :
  In (x, v) all_O_stores -> In (x, v') all_O_stores -> v = v'.
Proof.
  intros H1 H2.
  apply in_all_O_stores in H1 as (q & bh & r & c & Hq & _ & Hr & Hc & Hx & ->).
  apply in_all_O_stores in H2
    as (q' & bh' & r' & c' & Hq' & _ & Hr' & Hc' & Hx' & ->).
  pose proof (grid_row_bound pick S Hdiv Hq Hr) as Hi.
  pose proof (grid_row_bound pick S Hdiv Hq' Hr') as Hi'.
  rewrite Hx in Hx'.
  apply radix_inj in Hx' as [Heq1 Heq2]; [|lia|lia].
  apply radix_inj in Heq1 as [Heq3 Heq4]; [|lia|lia].
  assert (q = q') by nia. assert (r = r') by nia. subst. reflexivity.
Qed.

Lemma all_M_stores_functional (x : nat) (v v' : ext F) :
  In (x, v) all_M_stores -> In (x, v') all_M_stores -> v = v'.
Proof.
  intros H1 H2.
  apply in_all_M_stores in H1 as (q & bh & r & Hq & _ & Hr & Hx & ->).
  apply in_all_M_stores in H2 as (q' & bh' & r' & Hq' & _ & Hr' & Hx' & ->).
  pose proof (grid_row_bound pick S Hdiv Hq Hr) as Hi.
  pose proof (grid_row_bound pick S Hdiv Hq' Hr') as Hi'.
  rewrite Hx in Hx'.
  apply radix_inj in Hx' as [Heq3 Heq4]; [|lia|lia].
  assert (q = q') by nia. assert (r = r') by nia. subst. reflexivity.
Qed.

Lemma forward_O_data :
  data (forward_O fresh pick Q K V scale) = apply_stores fresh all_O_stores.
Proof.
  unfold forward_O. cbn [data]. rewrite launch_attn_fwd_stores. reflexivity.
Qed.

Lemma forward_M_data :
  data (forward_M fresh pick Q K V scale)
  = apply_stores (fun _ => Fin f_zero) all_M_stores.
Proof.
  unfold forward_M. cbn [data]. rewrite launch_attn_fwd_stores. reflexivity.
Qed.
End ForwardStores.

(** X1: for a contiguous [Q] whose [seq_len] is a multiple of the block
    size, no two stores of the forward launch go to the same offset: the
    offset [tl.store(O_block_ptr, O_block)] writes for position [(r, c)] of
    the block of program instance [(q, bh)] determines [q], [bh], [r] and
    [c], and the offset [offs_m] of the store into [M] determines [q], [bh]
    and [r]. *)
Theorem forward_store_offsets_distinct
    (F : Type) (A : Arith F) (fresh : nat -> F) (pick : nat)
    (Q K V : Tensor F) (scale : F) (Bt H S D : nat)
    (q bh r c q' bh' r' c' : nat) :
  shape Q = [Bt; H; S; D] ->
  stride Q = contiguous_strides [Bt; H; S; D] ->
  S mod BLOCK_SIZE_Q (autotune pick) = 0 ->
  q < fst (forward_grid pick Q) -> q' < fst (forward_grid pick Q) ->
  r < BLOCK_SIZE_Q (autotune pick) -> r' < BLOCK_SIZE_Q (autotune pick) ->
  c < D -> c' < D ->
  let a := forward_args fresh Q K V scale in
  (bp_addr (O_block_ptr a (autotune pick) q bh) r c
   = bp_addr (O_block_ptr a (autotune pick) q' bh') r' c' ->
   q = q' /\ bh = bh' /\ r = r' /\ c = c')
  /\ (offs_m a (autotune pick) q bh r = offs_m a (autotune pick) q' bh' r' ->
      q = q' /\ bh = bh' /\ r = r').
Proof.
  intros HQ SQ Hdiv Hq Hq' Hr Hr' Hc Hc' a.
  rewrite (forward_grid_eq pick Q HQ Hdiv) in Hq, Hq'. cbn [fst] in Hq, Hq'.
  pose proof (grid_row_bound pick S Hdiv Hq Hr) as Hi.
  pose proof (grid_row_bound pick S Hdiv Hq' Hr') as Hi'.
  split.
  - apply O_addr_inj with (Bt := Bt) (H := H) (S := S) (D := D); assumption.
  - apply M_addr_inj with (Bt := Bt) (H := H) (S := S) (D := D); assumption.
Qed.

Lemma forward_store_offsets_distinct_witness :
  let a := forward_args ex_fresh ex_Q ex_K ex_V 1%R in
  (bp_addr (O_block_ptr a (autotune 0) 0 0) 3 5
   = bp_addr (O_block_ptr a (autotune 0) 0 0) 5 3 ->
   0 = 0 /\ 0 = 0 /\ 3 = 5 /\ 5 = 3)
  /\ (offs_m a (autotune 0) 0 0 3 = offs_m a (autotune 0) 0 0 5 ->
      0 = 0 /\ 0 = 0 /\ 3 = 5).
Proof.
  apply (@forward_store_offsets_distinct R R_arith ex_fresh 0 ex_Q ex_K ex_V
           1%R 1 1 64 16 0 0 3 5 0 0 5 3);
    try reflexivity; vm_compute; lia.
Defined.

(** X2: for a contiguous [Q] whose [seq_len] is a multiple of the block
    size, the tensors the forward launch leaves do not depend on the order in
    which its stores take effect: the stores of all program instances,
    applied in any order to the storage of [O], resp. of [M], give the data
    of the [O] that [forward] returns, resp. of the [M] it saves. *)
Theorem forward_launch_order_irrelevant
    (F : Type) (A : Arith F) (fresh : nat -> F) (pick : nat)
    (Q K V : Tensor F) (scale : F) (Bt H S D : nat)
    (ws : list (nat * F)) (ms : list (nat * ext F)) :
  shape Q = [Bt; H; S; D] ->
  stride Q = contiguous_strides [Bt; H; S; D] ->
  S mod BLOCK_SIZE_Q (autotune pick) = 0 ->
  let a := forward_args fresh Q K V scale in
  let pids := program_ids (fst (forward_grid pick Q))
                (snd (forward_grid pick Q)) in
  Permutation ws
    (flat_map (fun pid => O_stores (_attn_fwd a (autotune pick)
                                      (fst pid) (snd pid))) pids) ->
  Permutation ms
    (flat_map (fun pid => M_stores (_attn_fwd a (autotune pick)
                                      (fst pid) (snd pid))) pids) ->
  (forall x, apply_stores (O_ptr a) ws x
             = data (forward_O fresh pick Q K V scale) x)
  /\ (forall x, apply_stores (M_ptr a) ms x
                = data (forward_M fresh pick Q K V scale) x).
Proof.
  intros HQ SQ Hdiv a pids Hws Hms. split; intros x.
  - rewrite forward_O_data. apply apply_stores_perm; [|exact Hws].
    intros y v v'.
    apply all_O_stores_functional with (Bt := Bt) (H := H) (S := S) (D := D);
      assumption.
  - rewrite forward_M_data. apply apply_stores_perm; [|exact Hms].
    intros y v v'.
    apply all_M_stores_functional with (Bt := Bt) (H := H) (S := S) (D := D);
      assumption.
Qed.

Lemma forward_launch_order_irrelevant_witness :
  let a := forward_args ex_fresh ex_Q ex_K ex_V 1%R in
  let pids := program_ids (fst (forward_grid 0 ex_Q))
                (snd (forward_grid 0 ex_Q)) in
  (forall x,
     apply_stores (O_ptr a)
       (rev (flat_map (fun pid => O_stores (_attn_fwd a (autotune 0)
                                              (fst pid) (snd pid))) pids)) x
     = data (forward_O ex_fresh 0 ex_Q ex_K ex_V 1%R) x)
  /\ (forall x,
        apply_stores (M_ptr a)
          (rev (flat_map (fun pid => M_stores (_attn_fwd a (autotune 0)
                                                 (fst pid) (snd pid))) pids)) x
        = data (forward_M ex_fresh 0 ex_Q ex_K ex_V 1%R) x).
Proof.
  intros a pids.
  apply (@forward_launch_order_irrelevant R R_arith ex_fresh 0 ex_Q ex_K ex_V
           1%R 1 1 64 16); try reflexivity;
    apply Permutation_sym, Permutation_rev.
Defined.



Lemma cdiv_inexact (x y : nat) :
  0 < y -> x mod y <> 0 -> cdiv x y = x / y + 1.
Proof.
  intros Hy Hx. unfold cdiv.
  pose proof (Nat.div_mod_eq x y) as Hd.
  pose proof (Nat.mod_upper_bound x y) as Hlt.
  symmetry. apply Nat.div_unique with (r := x mod y - 1); lia.
Qed.

(** X4: the stores of [_attn_fwd] carry no boundary check.  For a
    contiguous non-empty [Q] whose [seq_len] is not a multiple of the block
    size, the grid [cdiv(seq_len, BLOCK_SIZE_Q)] holds a program instance
    whose store into [O] reaches an offset at or beyond the
    [Bt * H * S * D] elements of [O], and whose store into [M] reaches an
    offset at or beyond the [Bt * H * S] elements of [M]. *)
Theorem forward_writes_past_O_and_M
    (F : Type) (A : Arith F) (fresh : nat -> F) (pick : nat)
    (Q K V : Tensor F) (scale : F) (Bt H S D : nat) :
  shape Q = [Bt; H; S; D] ->
  stride Q = contiguous_strides [Bt; H; S; D] ->
  0 < Bt -> 0 < H -> 0 < D ->
  S mod BLOCK_SIZE_Q (autotune pick) <> 0 ->
  let a := forward_args fresh Q K V scale in
  exists pid,
    In pid (program_ids (fst (forward_grid pick Q))
              (snd (forward_grid pick Q)))
    /\ (exists x v,
          In (x, v) (O_stores (_attn_fwd a (autotune pick) (fst pid) (snd pid)))
          /\ Bt * H * S * D <= x)
    /\ (exists x v,
          In (x, v) (M_stores (_attn_fwd a (autotune pick) (fst pid) (snd pid)))
          /\ Bt * H * S <= x).
Proof.
  intros HQ SQ HBt HH HD Hndiv a.
  destruct (autotune_square pick) as [_ HBQ].
  set (BQ := BLOCK_SIZE_Q (autotune pick)) in *.
  pose proof (Nat.div_mod_eq S BQ) as Hd.
  pose proof (Nat.mod_upper_bound S BQ) as Hlt.
  assert (Hbh : (Bt * H - 1 + 1) * S = Bt * H * S).
  { f_equal. nia. }
  assert (Hrow : S <= S / BQ * BQ + (BQ - 1)) by lia.
  exists (S / BQ, Bt * H - 1). split; [|split].
  - apply in_program_ids. unfold forward_grid. rewrite HQ. cbn [nth fst snd].
    fold BQ. rewrite cdiv_inexact by (assumption || lia). nia.
  - exists (((Bt * H - 1) * S + (S / BQ * BQ + (BQ - 1))) * D + 0).
    eexists. cbn [fst snd _attn_fwd O_stores]. split.
    + apply in_tl_store. exists (BQ - 1), 0.
      cbn [O_block_ptr bp_block_shape fst snd]. fold BQ.
      split; [lia|]. split.
      * unfold a. rewrite (forward_HEAD_DIM fresh Q K V scale HQ). exact HD.
      * split; [|reflexivity]. unfold a.
        rewrite (O_offset fresh pick Q K V scale HQ SQ). reflexivity.
    + assert (Bt * H * S * D
              <= ((Bt * H - 1) * S + (S / BQ * BQ + (BQ - 1))) * D)
        by (apply Nat.mul_le_mono_r; lia).
      lia.
  - exists ((Bt * H - 1) * S + (S / BQ * BQ + (BQ - 1))).
    eexists. cbn [fst snd _attn_fwd M_stores]. split.
    + apply in_map_iff. exists (BQ - 1). split; [|apply in_seq; lia].
      unfold a. rewrite (M_offset fresh pick Q K V scale HQ). reflexivity.
    + lia.
Qed.

Lemma forward_writes_past_O_and_M_witness :
  let a := forward_args ex_fresh ex_Q_ragged ex_Q_ragged ex_Q_ragged 1%R in
  exists pid,
    In pid (program_ids (fst (forward_grid 0 ex_Q_ragged))
              (snd (forward_grid 0 ex_Q_ragged)))
    /\ (exists x v,
          In (x, v) (O_stores (_attn_fwd a (autotune 0) (fst pid) (snd pid)))
          /\ 1 * 1 * 100 * 16 <= x)
    /\ (exists x v,
          In (x, v) (M_stores (_attn_fwd a (autotune 0) (fst pid) (snd pid)))
          /\ 1 * 1 * 100 <= x).
Proof.
  apply (@forward_writes_past_O_and_M R R_arith ex_fresh 0 ex_Q_ragged
           ex_Q_ragged ex_Q_ragged 1%R 1 1 100 16);
    try reflexivity; try lia.
  vm_compute. discriminate.
Defined.

(** X5: for contiguous [Q], [K], [V] of one shape [(Bt, H, S, D)] with
    [S] a multiple of the block size, every offset a program instance of the
    grid reads lies inside the tensors: each element of the [Q] block it
    loads, and of the [K] and [V] blocks it loads in each iteration of the
    key/value loop, is at an offset below [Bt * H * S * D]. *)
Theorem forward_loads_stay_inside_Q_K_V
    (F : Type) (A : Arith F) (fresh : nat -> F) (pick : nat)
    (Q K V : Tensor F) (scale : F) (Bt H S D : nat) (q bh : nat) :
  shape Q = [Bt; H; S; D] ->
  stride Q = contiguous_strides [Bt; H; S; D] ->
  stride K = contiguous_strides [Bt; H; S; D] ->
  stride V = contiguous_strides [Bt; H; S; D] ->
  S mod BLOCK_SIZE_Q (autotune pick) = 0 ->
  q < fst (forward_grid pick Q) -> bh < snd (forward_grid pick Q) ->
  let a := forward_args fresh Q K V scale in
  let meta := autotune pick in
  (forall r c,
     r < fst (bp_block_shape (Q_block_ptr a meta q bh)) ->
     c < snd (bp_block_shape (Q_block_ptr a meta q bh)) ->
     bp_addr (Q_block_ptr a meta q bh) r c < Bt * H * S * D)
  /\ (forall n r c,
        n < num_kv_blocks meta q ->
        r < fst (bp_block_shape (K_block_ptr (fwd_after a meta q bh n))) ->
        c < snd (bp_block_shape (K_block_ptr (fwd_after a meta q bh n))) ->
        bp_addr (K_block_ptr (fwd_after a meta q bh n)) r c < Bt * H * S * D)
  /\ (forall n r c,
        n < num_kv_blocks meta q ->
        r < fst (bp_block_shape (V_block_ptr (fwd_after a meta q bh n))) ->
        c < snd (bp_block_shape (V_block_ptr (fwd_after a meta q bh n))) ->
        bp_addr (V_block_ptr (fwd_after a meta q bh n)) r c < Bt * H * S * D).
Proof.
  intros HQ SQ SK SV Hdiv Hq Hbh a meta.
  rewrite (forward_grid_eq pick Q HQ Hdiv) in Hq, Hbh. cbn [fst snd] in Hq, Hbh.
  destruct (autotune_square pick) as [HKV HBQ].
  fold meta in HKV, HBQ, Hq.
  assert (Hoff : qkv_offset a bh = bh * S * D).
  { unfold qkv_offset, batch_idx, head_idx, a, forward_args.
    cbn [stride_Q_batch stride_Q_head NUM_HEADS].
    rewrite HQ, SQ. cbn [nth contiguous_strides fold_right].
    pose proof (Nat.div_mod_eq bh H) as Hd.
    set (x := bh / H) in *. set (y := bh mod H) in *. nia. }
  assert (HD : HEAD_DIM a = D) by exact (forward_HEAD_DIM fresh Q K V scale HQ).
  assert (Hnb : num_kv_blocks meta q = q + 1)
    by (apply num_kv_blocks_square; assumption).
  assert (Hin : forall i d, i < S -> d < D ->
                  bh * S * D + i * D + d < Bt * H * S * D).
  { intros i d Hi Hd.
    assert (H1 : (bh + 1) * S <= Bt * H * S)
      by (apply Nat.mul_le_mono_r; lia).
    assert (H2 : (bh * S + i + 1) * D <= Bt * H * S * D)
      by (apply Nat.mul_le_mono_r; lia).
    lia. }
  assert (Hrows : forall n c, n < q + 1 -> c < BLOCK_SIZE_Q meta ->
                    n * BLOCK_SIZE_Q meta + c < S).
  { intros n c Hn Hc.
    apply Nat.lt_le_trans with ((n + 1) * BLOCK_SIZE_Q meta); [lia|].
    apply Nat.le_trans with (S / BLOCK_SIZE_Q meta * BLOCK_SIZE_Q meta).
    - apply Nat.mul_le_mono_r. lia.
    - pose proof (Nat.div_mod_eq S (BLOCK_SIZE_Q meta)). lia. }
  split; [|split].
  - intros r c Hr Hc. cbn [Q_block_ptr bp_block_shape fst snd] in Hr, Hc.
    rewrite HD in Hc. unfold bp_addr.
    cbn [Q_block_ptr bp_base bp_offsets bp_strides fst snd].
    rewrite Hoff. unfold a, forward_args. cbn [stride_Q_seq stride_Q_dim].
    rewrite SQ. cbn [nth contiguous_strides fold_right].
    pose proof (Hin (q * BLOCK_SIZE_Q meta + r) c
                  (grid_row_bound pick S Hdiv Hq Hr) Hc).
    lia.
  - intros n r c Hn. rewrite K_block_ptr_after.
    cbn [bp_block_shape fst snd]. intros Hr Hc.
    rewrite HD in Hr. rewrite HKV in Hc. rewrite Hnb in Hn. unfold bp_addr.
    cbn [bp_base bp_offsets bp_strides fst snd].
    rewrite Hoff, HKV. unfold a, forward_args. cbn [stride_K_seq stride_K_dim].
    rewrite SK. cbn [nth contiguous_strides fold_right].
    pose proof (Hin (n * BLOCK_SIZE_Q meta + c) r (Hrows n c Hn Hc) Hr).
    lia.
  - intros n r c Hn. rewrite V_block_ptr_after.
    cbn [bp_block_shape fst snd]. intros Hr Hc.
    rewrite HD in Hc. rewrite HKV in Hr. rewrite Hnb in Hn. unfold bp_addr.
    cbn [bp_base bp_offsets bp_strides fst snd].
    rewrite Hoff, HKV. unfold a, forward_args. cbn [stride_V_seq stride_V_dim].
    rewrite SV. cbn [nth contiguous_strides fold_right].
    pose proof (Hin (n * BLOCK_SIZE_Q meta + r) c (Hrows n r Hn Hr) Hc).
    lia.
Qed.

Lemma forward_loads_stay_inside_Q_K_V_witness :
  let a := forward_args ex_fresh ex_Q ex_K ex_V 1%R in
  let meta := autotune 0 in
  (forall r c,
     r < fst (bp_block_shape (Q_block_ptr a meta 0 0)) ->
     c < snd (bp_block_shape (Q_block_ptr a meta 0 0)) ->
     bp_addr (Q_block_ptr a meta 0 0) r c < 1 * 1 * 64 * 16)
  /\ (forall n r c,
        n < num_kv_blocks meta 0 ->
        r < fst (bp_block_shape (K_block_ptr (fwd_after a meta 0 0 n))) ->
        c < snd (bp_block_shape (K_block_ptr (fwd_after a meta 0 0 n))) ->
        bp_addr (K_block_ptr (fwd_after a meta 0 0 n)) r c < 1 * 1 * 64 * 16)
  /\ (forall n r c,
        n < num_kv_blocks meta 0 ->
        r < fst (bp_block_shape (V_block_ptr (fwd_after a meta 0 0 n))) ->
        c < snd (bp_block_shape (V_block_ptr (fwd_after a meta 0 0 n))) ->
        bp_addr (V_block_ptr (fwd_after a meta 0 0 n)) r c < 1 * 1 * 64 * 16).
Proof.
  apply (@forward_loads_stay_inside_Q_K_V R R_arith ex_fresh 0 ex_Q ex_K ex_V
           1%R 1 1 64 16 0 0); try reflexivity; vm_compute; lia.
Defined.

(** ** Sums of weights *)

Section WeightedSums.
Local Open Scope R_scope.

Lemma Rsum_le (n : nat) (f g : nat -> R) :
  (forall j, (j < n)%nat -> f j <= g j) -> tl_sum n f <= tl_sum n g.
Proof.
  induction n as [|n IH]; intros H; cbn; [lra|].
  assert (tl_sum n f <= tl_sum n g) by (apply IH; intros; apply H; lia).
  assert (f n <= g n) by (apply H; lia). lra.
Qed.

Lemma Rsum_const (n : nat) (k : R) : tl_sum n (fun _ => k) = INR n * k.
Proof.
  induction n as [|n IH]; [cbn; ring|].
  rewrite S_INR. cbn [tl_sum f_add R_arith]. rewrite IH. ring.
Qed.

Lemma Rsum_plus (n : nat) (f g : nat -> R) :
  tl_sum n (fun j => f j + g j) = tl_sum n f + tl_sum n g.
Proof.
  induction n as [|n IH]; cbn; [ring|].
  cbn in IH. rewrite IH. ring.
Qed.

(** A weighted sum lies between the bounds of its terms, times the sum of
    the weights. *)
Lemma Rsum_weighted_bounds (n : nat) (w v : nat -> R) (lo hi : R) :
  (forall j, (j < n)%nat -> 0 <= w j) ->
  (forall j, (j < n)%nat -> lo <= v j <= hi) ->
  lo * tl_sum n w <= tl_sum n (fun j => w j * v j) <= hi * tl_sum n w.
Proof.
  intros Hw Hv. rewrite <- !Rsum_scal. split; apply Rsum_le; intros j Hj.
  - rewrite Rmult_comm. apply Rmult_le_compat_l; [apply Hw|apply Hv];
      exact Hj.
  - rewrite (Rmult_comm hi). apply Rmult_le_compat_l; [apply Hw|apply Hv];
      exact Hj.
Qed.
End WeightedSums.

(** ** The running denominator *)

Section Denominator.
Local Open Scope R_scope.
Variable a : fwd_args (F := R).
Variable meta : Config.
Variables query_block_idx batch_head_idx : nat.
Hypothesis HB : (0 < BLOCK_SIZE_KV meta)%nat.

Local Abbreviation after := (fwd_after a meta query_block_idx batch_head_idx).
Local Abbreviation B := (BLOCK_SIZE_KV meta).
Local Abbreviation sc := (score a meta query_block_idx batch_head_idx).
Local Abbreviation rmax := (running_max a meta query_block_idx batch_head_idx).

Lemma softmax_denom_bounds (n r : nat) :
  (0 < n)%nat ->
  1 <= softmax_denom (after n) r <= INR (n * B).
Proof.
  intros Hn.
  destruct (fwd_after_inv a meta query_block_idx batch_head_idx HB n r 0%nat)
    as (_ & Hl & _).
  rewrite Hl. split.
  - destruct (max_upto_attained (n * B - 1) (sc r)) as (j & Hj & Hmax).
    fold (rmax n r) in Hmax.
    replace 1 with (exp (sc r j - rmax n r))
      by (rewrite Hmax, Rminus_diag; apply exp_0).
    apply (@Rsum_ge_term (n * B) (fun j => exp (sc r j - rmax n r)) j).
    + intros k _. left. apply exp_pos.
    + nia.
  - rewrite <- (Rmult_1_r (INR (n * B))), <- Rsum_const.
    apply Rsum_le. intros j Hj. rewrite <- exp_0. apply exp_le_mono.
    pose proof (running_max_ge a meta query_block_idx batch_head_idx HB
                  n r Hj).
    lra.
Qed.
End Denominator.

(** X6: the blocked loop of [_attn_fwd] computes a plain softmax.  For
    any positive block sizes and any strides, in exact arithmetic, the entry
    [(r, d)] of the block a program instance stores into [O] is
    [sum_j exp(S_j) * V[j, d] / sum_j exp(S_j)] over the [N] key columns the
    loop visits, [S_j] the entry of [S_block] for column [j] (mask term
    included), and the value it stores into [M] is [log(sum_j exp(S_j))];
    [N] is the end of the query block, [(query_block_idx + 1) * BLOCK_SIZE_Q],
    rounded up to a multiple of [BLOCK_SIZE_KV]. *)
Theorem attn_fwd_block_is_softmax_of_visited_columns
    (a : fwd_args (F := R)) (meta : Config)
    (query_block_idx batch_head_idx r d : nat) :
  0 < BLOCK_SIZE_Q meta -> 0 < BLOCK_SIZE_KV meta ->
  let N := num_kv_cols meta query_block_idx in
  let sc := score a meta query_block_idx batch_head_idx r in
  end_key_idx meta query_block_idx <= N
  /\ N < end_key_idx meta query_block_idx + BLOCK_SIZE_KV meta
  /\ O_block_final a meta query_block_idx batch_head_idx r d
     = (tl_sum N (fun j => exp (sc j) * V_at a batch_head_idx j d)
        / tl_sum N (fun j => exp (sc j)))%R
  /\ s_max_final a meta query_block_idx batch_head_idx r
     = Fin (ln (tl_sum N (fun j => exp (sc j)))).
Proof.
  intros HBQ HB N sc.
  assert (HN : end_key_idx meta query_block_idx <= N
               /\ N < end_key_idx meta query_block_idx + BLOCK_SIZE_KV meta).
  { unfold N, num_kv_cols, num_kv_blocks, cdiv. rewrite Nat.sub_0_r.
    set (e := end_key_idx meta query_block_idx).
    set (B := BLOCK_SIZE_KV meta) in *.
    pose proof (Nat.div_mod_eq (e + B - 1) B) as Hd.
    pose proof (Nat.mod_upper_bound (e + B - 1) B) as Hlt.
    split; nia. }
  destruct HN as [HN1 HN2].
  split; [exact HN1|]. split; [exact HN2|]. split.
  - apply O_block_final_softmax; assumption.
  - apply s_max_final_logsumexp; assumption.
Qed.

Lemma attn_fwd_block_is_softmax_of_visited_columns_witness :
  let N := num_kv_cols (mkConfig 64 32) 1 in
  let sc := score ex_args (mkConfig 64 32) 1 0 0 in
  end_key_idx (mkConfig 64 32) 1 <= N
  /\ N < end_key_idx (mkConfig 64 32) 1 + 32
  /\ O_block_final ex_args (mkConfig 64 32) 1 0 0 0
     = (tl_sum N (fun j => exp (sc j) * V_at ex_args 0 j 0)
        / tl_sum N (fun j => exp (sc j)))%R
  /\ s_max_final ex_args (mkConfig 64 32) 1 0 0
     = Fin (ln (tl_sum N (fun j => exp (sc j)))).
Proof.
  apply (@attn_fwd_block_is_softmax_of_visited_columns ex_args
           (mkConfig 64 32) 1 0 0 0); cbn; lia.
Defined.

(** X7: the division [O_block / softmax_denom[:, None]] never divides by
    zero.  In exact arithmetic, after [n >= 1] iterations of the key/value
    loop the running denominator of every row lies between 1 and the number
    [n * BLOCK_SIZE_KV] of columns seen so far, and so does the denominator
    the loop exits with. *)
Theorem softmax_denom_is_at_least_one
    (a : fwd_args (F := R)) (meta : Config)
    (query_block_idx batch_head_idx n r : nat) :
  0 < BLOCK_SIZE_Q meta -> 0 < BLOCK_SIZE_KV meta -> 0 < n ->
  (1 <= softmax_denom (fwd_after a meta query_block_idx batch_head_idx n) r
   <= INR (n * BLOCK_SIZE_KV meta))%R
  /\ (1 <= softmax_denom (fwd_loop a meta query_block_idx batch_head_idx) r
      <= INR (num_kv_cols meta query_block_idx))%R.
Proof.
  intros HBQ HB Hn. split; [apply softmax_denom_bounds; assumption|].
  rewrite fwd_loop_after. apply softmax_denom_bounds; [exact HB|].
  apply num_kv_blocks_pos; assumption.
Qed.

Lemma softmax_denom_is_at_least_one_witness :
  (1 <= softmax_denom (fwd_after ex_args (autotune 0) 0 0 1) 0%nat
   <= INR (1 * BLOCK_SIZE_KV (autotune 0)))%R
  /\ (1 <= softmax_denom (fwd_loop ex_args (autotune 0) 0 0) 0%nat
      <= INR (num_kv_cols (autotune 0) 0))%R.
Proof.
  apply (@softmax_denom_is_at_least_one ex_args (autotune 0) 0 0 1 0);
    cbn; lia.
Defined.

(** ** The output as a weighted mean of value rows *)

Section ValueMean.
Local Open Scope R_scope.
Variables Q K : Tensor R.
Variable scale : R.

Lemma sentinel_attention_bounds (V : Tensor R) (N b h i d : nat) (lo hi : R) :
  (0 < N)%nat ->
  (forall j, (j < N)%nat -> lo <= at4 V b h j d <= hi) ->
  lo <= sentinel_attention Q K V scale N b h i d <= hi.
Proof.
  intros HN Hv. unfold sentinel_attention. cbn [f_div f_mul f_exp R_arith].
  pose proof (@Rsum_pos N (fun j => exp (masked_score Q K scale b h i j)) HN
                (fun j _ => exp_pos _)) as HW.
  destruct (@Rsum_weighted_bounds N
              (fun j => exp (masked_score Q K scale b h i j))
              (fun j => at4 V b h j d) lo hi)
    as [H1 H2]; [intros j _; left; apply exp_pos|exact Hv|].
  cbv beta in H1, H2.
  set (W := tl_sum N (fun j => exp (masked_score Q K scale b h i j))) in *.
  set (X := tl_sum N _) in *.
  split.
  - apply Rmult_le_reg_r with W; [exact HW|].
    unfold Rdiv. rewrite Rmult_assoc, Rinv_l by lra. lra.
  - apply Rmult_le_reg_r with W; [exact HW|].
    unfold Rdiv. rewrite Rmult_assoc, Rinv_l by lra. lra.
Qed.

Lemma sentinel_attention_linear (V1 V2 V3 : Tensor R) (N b h i d : nat)
    (alpha beta : R) :
  (forall j, (j < N)%nat ->
     at4 V3 b h j d = alpha * at4 V1 b h j d + beta * at4 V2 b h j d) ->
  sentinel_attention Q K V3 scale N b h i d
  = alpha * sentinel_attention Q K V1 scale N b h i d
    + beta * sentinel_attention Q K V2 scale N b h i d.
Proof.
  intros Hv. unfold sentinel_attention. cbn [f_div f_mul f_exp R_arith].
  assert (Hnum :
    tl_sum N (fun j => exp (masked_score Q K scale b h i j) * at4 V3 b h j d)
    = alpha * tl_sum N (fun j => exp (masked_score Q K scale b h i j)
                                 * at4 V1 b h j d)
      + beta * tl_sum N (fun j => exp (masked_score Q K scale b h i j)
                                  * at4 V2 b h j d)).
  { rewrite <- !Rsum_scal, <- Rsum_plus. apply tl_sum_ext. intros j Hj.
    rewrite Hv by exact Hj. ring. }
  rewrite Hnum. unfold Rdiv. ring.
Qed.
End ValueMean.

(** X8: an output entry is a weighted mean of value entries.  For
    contiguous inputs of one shape with [seq_len] a multiple of the block
    size, in exact arithmetic: when column [d] of the value rows of batch [b]
    and head [h] lies within [[lo, hi]], so does [O[b, h, i, d]] for every
    row [i]. *)
Theorem forward_output_within_value_range
    (fresh : nat -> R) (pick : nat) (Q K V : Tensor R) (scale : R)
    (Bt H S D b h i d : nat) (lo hi : R) :
  shape Q = [Bt; H; S; D] -> shape K = [Bt; H; S; D] ->
  shape V = [Bt; H; S; D] ->
  stride Q = contiguous_strides [Bt; H; S; D] ->
  stride K = contiguous_strides [Bt; H; S; D] ->
  stride V = contiguous_strides [Bt; H; S; D] ->
  S mod BLOCK_SIZE_Q (autotune pick) = 0 ->
  b < Bt -> h < H -> i < S -> d < D ->
  (forall j, j < S -> (lo <= at4 V b h j d <= hi)%R) ->
  exists O ctx,
    forward fresh pick Q K V scale = Ok (PyTensor O, ctx)
    /\ (lo <= at4 O b h i d <= hi)%R.
Proof.
  intros HQ HK HV SQ SK SV Hdiv Hb Hh Hi Hd Hv. eexists. eexists.
  split; [apply forward_contiguous with (1 := HQ); assumption|].
  rewrite (@forward_O_exact fresh pick Q K V scale Bt H S D)
    by assumption.
  destruct (visited_cols_bounds pick Hdiv Hi) as [H1 H2].
  apply sentinel_attention_bounds; [lia|].
  intros j Hj. apply Hv. lia.
Qed.

Lemma forward_output_within_value_range_witness :
  exists O ctx,
    forward ex_fresh 0 ex_Q ex_K ex_V 1%R = Ok (PyTensor O, ctx)
    /\ (0 <= at4 O 0 0 0 0 <= 1)%R.
Proof.
  apply (@forward_output_within_value_range ex_fresh 0 ex_Q ex_K ex_V 1%R
           1 1 64 16 0 0 0 0 0%R 1%R); try reflexivity; try lia.
  intros j _. unfold ex_V. rewrite ex_at4.
  destruct (Nat.eqb (j * 16 + 0) 16); lra.
Defined.

(** X9: [forward] is linear in [V].  For contiguous inputs of one shape
    with [seq_len] a multiple of the block size, in exact arithmetic: when
    column [d] of [V3] is [alpha] times that of [V1] plus [beta] times that
    of [V2] (for batch [b], head [h]), the output entry [O[b, h, i, d]] for
    [V3] is [alpha] times the one for [V1] plus [beta] times the one for
    [V2], the same [Q] and [K] given. *)
Theorem forward_is_linear_in_V
    (fresh : nat -> R) (pick : nat) (Q K V1 V2 V3 : Tensor R) (scale : R)
    (Bt H S D b h i d : nat) (alpha beta : R) :
  shape Q = [Bt; H; S; D] -> shape K = [Bt; H; S; D] ->
  shape V1 = [Bt; H; S; D] -> shape V2 = [Bt; H; S; D] ->
  shape V3 = [Bt; H; S; D] ->
  stride Q = contiguous_strides [Bt; H; S; D] ->
  stride K = contiguous_strides [Bt; H; S; D] ->
  stride V1 = contiguous_strides [Bt; H; S; D] ->
  stride V2 = contiguous_strides [Bt; H; S; D] ->
  stride V3 = contiguous_strides [Bt; H; S; D] ->
  S mod BLOCK_SIZE_Q (autotune pick) = 0 ->
  b < Bt -> h < H -> i < S -> d < D ->
  (forall j, j < S ->
     at4 V3 b h j d
     = (alpha * at4 V1 b h j d + beta * at4 V2 b h j d)%R) ->
  exists O1 O2 O3 ctx1 ctx2 ctx3,
    forward fresh pick Q K V1 scale = Ok (PyTensor O1, ctx1)
    /\ forward fresh pick Q K V2 scale = Ok (PyTensor O2, ctx2)
    /\ forward fresh pick Q K V3 scale = Ok (PyTensor O3, ctx3)
    /\ at4 O3 b h i d
       = (alpha * at4 O1 b h i d + beta * at4 O2 b h i d)%R.
Proof.
  intros HQ HK HV1 HV2 HV3 SQ SK SV1 SV2 SV3 Hdiv Hb Hh Hi Hd Hv.
  do 6 eexists.
  split; [apply forward_contiguous with (1 := HQ); assumption|].
  split; [apply forward_contiguous with (1 := HQ); assumption|].
  split; [apply forward_contiguous with (1 := HQ); assumption|].
  rewrite !(@forward_O_exact fresh pick Q K _ scale Bt H S D)
    by assumption.
  destruct (visited_cols_bounds pick Hdiv Hi) as [H1 H2].
  apply sentinel_attention_linear. intros j Hj. apply Hv. lia.
Qed.

Lemma forward_is_linear_in_V_witness :
  exists O1 O2 O3 ctx1 ctx2 ctx3,
    forward ex_fresh 0 ex_Q ex_K ex_V 1%R = Ok (PyTensor O1, ctx1)
    /\ forward ex_fresh 0 ex_Q ex_K ex_V0 1%R = Ok (PyTensor O2, ctx2)
    /\ forward ex_fresh 0 ex_Q ex_K ex_V 1%R = Ok (PyTensor O3, ctx3)
    /\ at4 O3 0 0 0 0 = (1 * at4 O1 0 0 0 0 + 5 * at4 O2 0 0 0 0)%R.
Proof.
  apply (@forward_is_linear_in_V ex_fresh 0 ex_Q ex_K ex_V ex_V0 ex_V 1%R
           1 1 64 16 0 0 0 0 1%R 5%R); try reflexivity; try lia.
  intros j _. unfold ex_V, ex_V0. rewrite !ex_at4. lra.
Defined.

(** ** The reference computation of [test_op] *)

Section ReferenceFacts.
Local Open Scope R_scope.
Variables Q K V : Tensor R.
Variable scale : R.
Variables Bt H S D : nat.
Hypothesis HQ : shape Q = [Bt; H; S; D].

Local Abbreviation raw :=
  (fun b h i j =>
     tl_sum D (fun k => at4 Q b h i k * at4 K b h j k) * scale).

Lemma Rsum_prefix (n m : nat) (f : nat -> R) :
  (forall j, (n <= j < n + m)%nat -> f j = 0) ->
  tl_sum (n + m) f = tl_sum n f.
Proof.
  intros H0. rewrite Rsum_split. rewrite (@Rsum_zero m); [ring|].
  intros j Hj. apply H0. lia.
Qed.

(** The exponential of an entry of [P]: [exp(-inf) = 0] above the
    diagonal. *)
Lemma ext_exp_ref_P (b h i j : nat) :
  ext_exp (ref_P Q K scale b h i j)
  = if j <=? i then exp (raw b h i j) else 0.
Proof.
  unfold ref_P, MASK, ref_HEAD_DIM. rewrite HQ. cbn [nth].
  destruct (j <=? i); reflexivity.
Qed.

Lemma masked_score_unmasked (b h i j : nat) :
  (j <= i)%nat -> masked_score Q K scale b h i j = raw b h i j.
Proof.
  intros Hj. unfold masked_score. rewrite HQ. cbn [nth].
  destruct (Nat.leb_spec j i) as [_|Hlt]; [|lia].
  cbn [f_add f_mul f_zero R_arith]. ring.
Qed.


(** The denominator of the softmax of row [i]. *)
Lemma ref_denominator (b h i : nat) :
  (i < S)%nat ->
  tl_sum S (fun k => ext_exp (ref_P Q K scale b h i k))
  = tl_sum (i + 1) (fun k => exp (masked_score Q K scale b h i k)).
Proof.
  intros Hi. replace S with ((i + 1) + (S - (i + 1)))%nat at 1 by lia.
  rewrite Rsum_prefix.
  - apply tl_sum_ext. intros k Hk. rewrite ext_exp_ref_P.
    destruct (Nat.leb_spec k i) as [_|Hlt]; [|lia].
    rewrite masked_score_unmasked by lia. reflexivity.
  - intros k Hk. rewrite ext_exp_ref_P.
    destruct (Nat.leb_spec k i) as [Hle|_]; [lia|reflexivity].
Qed.

Lemma ref_denominator_pos (b h i : nat) :
  (i < S)%nat -> 0 < tl_sum S (fun k => ext_exp (ref_P Q K scale b h i k)).
Proof.
  intros Hi. rewrite ref_denominator by exact Hi.
  apply Rsum_pos; [lia|]. intros j _. apply exp_pos.
Qed.

(** Row [i] of the reference output is the softmax-weighted sum of the
    value rows [0 .. i]. *)
Lemma ref_O_eq (b h i d : nat) :
  (i < S)%nat ->
  ref_O Q K V scale b h i d = sentinel_attention Q K V scale (i + 1) b h i d.
Proof.
  intros Hi. unfold ref_O, torch_softmax, ref_SEQ_LEN, sentinel_attention.
  rewrite HQ. cbn [nth]. cbn [f_div f_mul f_exp R_arith].
  rewrite ref_denominator by exact Hi.
  set (Z := tl_sum (i + 1) _).
  replace S with ((i + 1) + (S - (i + 1)))%nat at 1 by lia.
  rewrite Rsum_prefix.
  - unfold Rdiv. rewrite <- Rsum_scal_r. apply tl_sum_ext. intros j Hj.
    rewrite ext_exp_ref_P.
    destruct (Nat.leb_spec j i) as [_|Hlt]; [|lia].
    rewrite masked_score_unmasked by lia. ring.
  - intros j Hj. rewrite ext_exp_ref_P.
    destruct (Nat.leb_spec j i) as [Hle|_]; [lia|]. unfold Rdiv. ring.
Qed.
End ReferenceFacts.

Section SentinelExt.
Context {F : Type} {A : Arith F}.

(** [masked_score] reads row [i] of [Q] and row [j] of [K]. *)
Lemma masked_score_ext (Q Q' K K' : Tensor F) (scale : F) (b h i j : nat) :
  nth 3 (shape Q) 0 = nth 3 (shape Q') 0 ->
  (forall k, k < nth 3 (shape Q) 0 -> at4 Q b h i k = at4 Q' b h i k) ->
  (forall k, k < nth 3 (shape Q) 0 -> at4 K b h j k = at4 K' b h j k) ->
  masked_score Q K scale b h i j = masked_score Q' K' scale b h i j.
Proof.
  intros HD HQ HK. unfold masked_score. rewrite <- HD. f_equal. f_equal.
  apply tl_sum_ext. intros k Hk. rewrite HQ, HK by assumption. reflexivity.
Qed.

(** [sentinel_attention] reads row [i] of [Q], the first [N] rows of [K]
    and column [d] of the first [N] rows of [V]. *)
Lemma sentinel_attention_ext (Q Q' K K' V V' : Tensor F) (scale : F)
    (N b h i d : nat) :
  nth 3 (shape Q) 0 = nth 3 (shape Q') 0 ->
  (forall k, k < nth 3 (shape Q) 0 -> at4 Q b h i k = at4 Q' b h i k) ->
  (forall j k, j < N -> k < nth 3 (shape Q) 0 ->
     at4 K b h j k = at4 K' b h j k) ->
  (forall j, j < N -> at4 V b h j d = at4 V' b h j d) ->
  sentinel_attention Q K V scale N b h i d
  = sentinel_attention Q' K' V' scale N b h i d.
Proof.
  intros HD HQ HK HV.
  assert (Hms : forall j, j < N ->
            masked_score Q K scale b h i j = masked_score Q' K' scale b h i j).
  { intros j Hj. apply masked_score_ext; [exact HD|exact HQ|].
    intros k Hk. apply HK; assumption. }
  unfold sentinel_attention. f_equal.
  - apply tl_sum_ext. intros j Hj. rewrite Hms, HV by exact Hj. reflexivity.
  - apply tl_sum_ext. intros j Hj. rewrite Hms by exact Hj. reflexivity.
Qed.
End SentinelExt.

(** X10: the reference computation of [test_op] is causal.  In exact
    arithmetic, [ref_O[b, h, i, d]] is the same for two key tensors that
    agree in rows [0 .. i] and two value tensors whose columns [d] agree in
    rows [0 .. i] (for batch [b], head [h]): rows after [i] get the weight
    [exp(-inf) = 0]. *)
Theorem reference_row_ignores_later_rows
    (Q K V K' V' : Tensor R) (scale : R) (Bt H S D b h i d : nat) :
  shape Q = [Bt; H; S; D] -> i < S ->
  (forall j k, j <= i -> k < D -> at4 K b h j k = at4 K' b h j k) ->
  (forall j, j <= i -> at4 V b h j d = at4 V' b h j d) ->
  ref_O Q K V scale b h i d = ref_O Q K' V' scale b h i d.
Proof.
  intros HQ Hi HK HV.
  rewrite !(@ref_O_eq Q _ _ scale Bt H S D HQ) by exact Hi.
  apply sentinel_attention_ext; try reflexivity.
  - rewrite HQ. cbn [nth]. intros j k Hj Hk. apply HK; lia.
  - intros j Hj. apply HV. lia.
Qed.

Lemma reference_row_ignores_later_rows_witness :
  ref_O ex_Q ex_K ex_V 1%R 0 0 0 0 = ref_O ex_Q ex_V0 ex_V0 1%R 0 0 0 0.
Proof.
  apply (@reference_row_ignores_later_rows ex_Q ex_K ex_V ex_V0 ex_V0 1%R
           1 1 64 16 0 0 0 0); try reflexivity; try lia.
  - intros j k Hj Hk. unfold ex_K, ex_V0. rewrite !ex_at4.
    destruct (Nat.eqb_spec (j * 16 + k) 16); [lia|reflexivity].
  - intros j Hj. unfold ex_V, ex_V0. rewrite !ex_at4.
    destruct (Nat.eqb_spec (j * 16 + 0) 16); [lia|reflexivity].
Defined.

(** X11: in the reference computation of [test_op], in exact arithmetic,
    every row [i] of [P = softmax(...)] sums to 1, its entries at columns
    [j <= i] are positive and at most 1, and its entries at the masked
    columns [j > i] are 0. *)
Theorem reference_softmax_rows
    (Q K : Tensor R) (scale : R) (Bt H S D b h i : nat) :
  shape Q = [Bt; H; S; D] -> i < S ->
  let P := torch_softmax S (ref_P Q K scale b h i) in
  tl_sum S P = 1%R
  /\ (forall j, j <= i -> (0 < P j <= 1)%R)
  /\ (forall j, i < j -> P j = 0%R).
Proof.
  intros HQ Hi P. unfold P, torch_softmax. cbn [f_div R_arith].
  pose proof (@ref_denominator_pos Q K scale Bt H S D HQ b h i Hi) as HZ.
  set (Z := tl_sum S _) in *.
  split; [|split].
  - unfold Rdiv. rewrite Rsum_scal_r. fold Z. apply Rinv_r. lra.
  - intros j Hj. rewrite (@ext_exp_ref_P Q K scale Bt H S D HQ).
    destruct (Nat.leb_spec j i) as [_|Hlt]; [|lia].
    split; [apply Rdiv_lt_0_compat; [apply exp_pos|exact HZ]|].
    apply Rmult_le_reg_r with Z; [exact HZ|].
    unfold Rdiv. rewrite Rmult_assoc, Rinv_l, Rmult_1_r, Rmult_1_l by lra.
    assert (Hterm : (ext_exp (ref_P Q K scale b h i j) <= Z)%R).
    { apply (@Rsum_ge_term S
               (fun k => ext_exp (ref_P Q K scale b h i k)) j); [|lia].
      intros k _. rewrite (@ext_exp_ref_P Q K scale Bt H S D HQ).
      destruct (k <=? i); [left; apply exp_pos|lra]. }
    rewrite (@ext_exp_ref_P Q K scale Bt H S D HQ) in Hterm.
    destruct (Nat.leb_spec j i) as [_|Hlt]; [exact Hterm|lia].
  - intros j Hj. rewrite (@ext_exp_ref_P Q K scale Bt H S D HQ).
    destruct (Nat.leb_spec j i) as [Hle|_]; [lia|]. unfold Rdiv. ring.
Qed.

Lemma reference_softmax_rows_witness :
  let P := torch_softmax 64 (ref_P ex_Q ex_K 1%R 0 0 0) in
  tl_sum 64 P = 1%R
  /\ (forall j, j <= 0 -> (0 < P j <= 1)%R)
  /\ (forall j, 0 < j -> P j = 0%R).
Proof.
  apply (@reference_softmax_rows ex_Q ex_K 1%R 1 1 64 16 0 0 0);
    [reflexivity|lia].
Defined.

(** ** The distance between the output and the reference *)

Section Gap.
Local Open Scope R_scope.




Variables Q K V : Tensor R.
Variable scale : R.
Variables Bt H S D : nat.
Hypothesis HQ : shape Q = [Bt; H; S; D].

End Gap.

Lemma visited_cols_last_row (pick i : nat) :
  i mod BLOCK_SIZE_Q (autotune pick) = BLOCK_SIZE_Q (autotune pick) - 1 ->
  visited_cols (autotune pick) i = i + 1.
Proof.
  intros Hlast. destruct (autotune_square pick) as [_ HBQ].
  rewrite visited_cols_square.
  pose proof (Nat.div_mod_eq i (BLOCK_SIZE_Q (autotune pick))). nia.
Qed.


(** X12: on the last row of every query block the kernel and the
    reference of [test_op] agree exactly.  For contiguous inputs of one shape
    with [seq_len] a multiple of the block size, in exact arithmetic: when
    [i mod BLOCK_SIZE_Q = BLOCK_SIZE_Q - 1], no visited key column of row [i]
    is masked, and [O[b, h, i, d] = ref_O[b, h, i, d]]. *)
Theorem forward_matches_reference_on_last_row_of_block
    (fresh : nat -> R) (pick : nat) (Q K V : Tensor R) (scale : R)
    (Bt H S D b h i d : nat) :
  shape Q = [Bt; H; S; D] -> shape K = [Bt; H; S; D] ->
  shape V = [Bt; H; S; D] ->
  stride Q = contiguous_strides [Bt; H; S; D] ->
  stride K = contiguous_strides [Bt; H; S; D] ->
  stride V = contiguous_strides [Bt; H; S; D] ->
  S mod BLOCK_SIZE_Q (autotune pick) = 0 ->
  b < Bt -> h < H -> i < S -> d < D ->
  i mod BLOCK_SIZE_Q (autotune pick) = BLOCK_SIZE_Q (autotune pick) - 1 ->
  exists O ctx,
    forward fresh pick Q K V scale = Ok (PyTensor O, ctx)
    /\ at4 O b h i d = ref_O Q K V scale b h i d.
Proof.
  intros HQ HK HV SQ SK SV Hdiv Hb Hh Hi Hd Hlast. eexists. eexists.
  split; [apply forward_contiguous with (1 := HQ); assumption|].
  rewrite (@forward_O_exact fresh pick Q K V scale Bt H S D) by assumption.
  rewrite visited_cols_last_row by exact Hlast.
  symmetry. apply ref_O_eq with (1 := HQ). exact Hi.
Qed.

Lemma forward_matches_reference_on_last_row_of_block_witness :
  exists O ctx,
    forward ex_fresh 0 ex_Q ex_K ex_V 1%R = Ok (PyTensor O, ctx)
    /\ at4 O 0 0 63 0 = ref_O ex_Q ex_K ex_V 1%R 0 0 63 0.
Proof.
  apply (@forward_matches_reference_on_last_row_of_block ex_fresh 0 ex_Q ex_K
           ex_V 1%R 1 1 64 16 0 0 63 0); try reflexivity; lia.
Defined.



(** ** What one output entry depends on *)

(** X14: what one output entry reads.  For contiguous inputs of one shape
    with [seq_len] a multiple of the block size, and for any scalar
    arithmetic, [O[b, h, i, d]] is the same in two runs whose [Q] agree in
    row [i], whose [K] agree in rows [0 .. N - 1] and whose [V] agree in
    column [d] of rows [0 .. N - 1], all of batch [b] and head [h], [N] the
    end of row [i]'s query block: no other row of [Q], no other batch or
    head, no other column of [V], and nothing of the storage
    [torch.empty_like] returned, affects the entry. *)
Theorem forward_entry_footprint
    (F : Type) (A : Arith F) (fresh fresh' : nat -> F) (pick : nat)
    (Q K V Q' K' V' : Tensor F) (scale : F) (Bt H S D b h i d : nat) :
  shape Q = [Bt; H; S; D] -> shape K = [Bt; H; S; D] ->
  shape V = [Bt; H; S; D] ->
  shape Q' = [Bt; H; S; D] -> shape K' = [Bt; H; S; D] ->
  shape V' = [Bt; H; S; D] ->
  stride Q = contiguous_strides [Bt; H; S; D] ->
  stride K = contiguous_strides [Bt; H; S; D] ->
  stride V = contiguous_strides [Bt; H; S; D] ->
  stride Q' = contiguous_strides [Bt; H; S; D] ->
  stride K' = contiguous_strides [Bt; H; S; D] ->
  stride V' = contiguous_strides [Bt; H; S; D] ->
  S mod BLOCK_SIZE_Q (autotune pick) = 0 ->
  b < Bt -> h < H -> i < S -> d < D ->
  (forall k, k < D -> at4 Q b h i k = at4 Q' b h i k) ->
  (forall j k, j < visited_cols (autotune pick) i -> k < D ->
     at4 K b h j k = at4 K' b h j k) ->
  (forall j, j < visited_cols (autotune pick) i ->
     at4 V b h j d = at4 V' b h j d) ->
  exists O O' ctx ctx',
    forward fresh pick Q K V scale = Ok (PyTensor O, ctx)
    /\ forward fresh' pick Q' K' V' scale = Ok (PyTensor O', ctx')
    /\ at4 O b h i d = at4 O' b h i d.
Proof.
  intros HQ HK HV HQ' HK' HV' SQ SK SV SQ' SK' SV' Hdiv Hb Hh Hi Hd
    HQeq HKeq HVeq.
  destruct (autotune_square pick) as [HKV HBQ].
  do 4 eexists.
  split; [apply forward_contiguous with (1 := HQ); assumption|].
  split; [apply forward_contiguous with (1 := HQ'); assumption|].
  rewrite (forward_O_at fresh pick Q K V scale HQ SQ Hdiv Hb Hh Hi Hd).
  rewrite (forward_O_at fresh' pick Q' K' V' scale HQ' SQ' Hdiv Hb Hh Hi Hd).
  apply O_block_final_ext; [lia| |].
  - intros j Hj.
    rewrite (score_host fresh pick Q K V scale HQ SQ SK) by exact Hh.
    rewrite (score_host fresh' pick Q' K' V' scale HQ' SQ' SK') by exact Hh.
    apply masked_score_ext; rewrite HQ; cbn [nth].
    + rewrite HQ'. reflexivity.
    + exact HQeq.
    + intros k Hk. apply HKeq; assumption.
  - intros j Hj.
    rewrite (V_at_host fresh Q K V scale HQ SQ SV) by exact Hh.
    rewrite (V_at_host fresh' Q' K' V' scale HQ' SQ' SV') by exact Hh.
    apply HVeq. exact Hj.
Qed.

Lemma forward_entry_footprint_witness :
  exists O O' ctx ctx',
    forward ex_fresh 0 ex_Q ex_K ex_V 1%R = Ok (PyTensor O, ctx)
    /\ forward ex_fresh 0 ex_Q ex_K ex_V0 1%R = Ok (PyTensor O', ctx')
    /\ at4 O 0 0 0 1 = at4 O' 0 0 0 1.
Proof.
  apply (@forward_entry_footprint R R_arith ex_fresh ex_fresh 0
           ex_Q ex_K ex_V ex_Q ex_K ex_V0 1%R 1 1 64 16 0 0 0 1);
    try reflexivity; try lia.
  intros j _. unfold ex_V, ex_V0. rewrite !ex_at4.
  destruct (Nat.eqb_spec (j * 16 + 1) 16); [lia|reflexivity].
Defined.

(** ** No exponential exceeds one *)

(** X15: no [tl.exp] of the key/value loop overflows.  In exact
    arithmetic, in every iteration each entry of
    [P_block = exp(S_block - new_s_max)] is positive and at most 1, and the
    corrective factor [exp(s_max - new_s_max)] lies between 0 and 1 (it is 0
    in the first iteration, where [s_max] is [-inf]). *)
Theorem exponentials_are_at_most_one
    (a : fwd_args (F := R)) (meta : Config)
    (query_block_idx batch_head_idx n r c : nat) :
  0 < BLOCK_SIZE_KV meta -> c < BLOCK_SIZE_KV meta ->
  let st := fwd_after a meta query_block_idx batch_head_idx n in
  let start_kv_idx := 0 + n * BLOCK_SIZE_KV meta in
  let new_s_max :=
    new_s_max_of a meta query_block_idx batch_head_idx st start_kv_idx r in
  (0 < P_block_of a meta query_block_idx batch_head_idx st start_kv_idx r c
   <= 1)%R
  /\ (0 <= ext_exp_sub (s_max st r) new_s_max <= 1)%R.
Proof.
  intros HB Hc st start_kv_idx new_s_max.
  unfold new_s_max, st, start_kv_idx.
  rewrite P_block_after, new_s_max_of_after.
  rewrite (new_s_max_at_running a meta query_block_idx batch_head_idx HB).
  split.
  - cbn [f_exp f_sub R_arith]. split; [apply exp_pos|].
    rewrite <- exp_0. apply exp_le_mono.
    assert (Hj : n * BLOCK_SIZE_KV meta + c < S n * BLOCK_SIZE_KV meta)
      by (cbn; lia).
    pose proof (running_max_ge a meta query_block_idx batch_head_idx HB
                  (S n) r Hj).
    lra.
  - destruct (fwd_after_inv a meta query_block_idx batch_head_idx HB n r 0)
      as (Hm & _ & _).
    rewrite Hm. destruct (Nat.eqb_spec n 0) as [Hn0|Hn0].
    + cbn [ext_exp_sub f_zero R_arith]. lra.
    + cbn [ext_exp_sub f_exp f_sub R_arith]. split; [left; apply exp_pos|].
      rewrite <- exp_0. apply exp_le_mono.
      rewrite <- (running_max_S a meta query_block_idx batch_head_idx HB)
        by lia.
      pose proof (Rmax_l
                    (running_max a meta query_block_idx batch_head_idx n r)
                    (tl_max (BLOCK_SIZE_KV meta)
                       (fun c0 =>
                          score a meta query_block_idx batch_head_idx r
                            (n * BLOCK_SIZE_KV meta + c0)))).
      lra.
Qed.

Lemma exponentials_are_at_most_one_witness :
  let st := fwd_after ex_args (autotune 0) 0 0 0 in
  let start_kv_idx := 0 + 0 * BLOCK_SIZE_KV (autotune 0) in
  let new_s_max := new_s_max_of ex_args (autotune 0) 0 0 st start_kv_idx 0 in
  (0 < P_block_of ex_args (autotune 0) 0 0 st start_kv_idx 0%nat 1%nat
   <= 1)%R
  /\ (0 <= ext_exp_sub (s_max st 0%nat) new_s_max <= 1)%R.
Proof.
  apply (@exponentials_are_at_most_one ex_args (autotune 0) 0 0 0 0 1);
    cbn; lia.
Defined.

(** ** When [forward] returns *)

Section ForwardReturns.
Context {F : Type} {A : Arith F}.

Lemma shape_last_raises {E : Type} (T : Tensor E) (e : exn) :
  shape_last T = Raise e -> e = IndexError.
Proof.
  unfold shape_last. destruct (rev (shape T)); intros H; inversion H.
  reflexivity.
Qed.

Lemma stride_at_raises {E : Type} (T : Tensor E) (k : nat) (e : exn) :
  stride_at T k = Raise e -> e = IndexError.
Proof.
  unfold stride_at. destruct (nth_error (stride T) k); intros H; inversion H.
  reflexivity.
Qed.

Lemma unpack4_raises (sh : list nat) (e : exn) :
  unpack4 sh = Raise e -> e = ValueError.
Proof.
  destruct sh as [|a [|b [|c [|d [|x l]]]]]; cbn; intros H; inversion H;
    reflexivity.
Qed.

Lemma py_assert_raises (b : bool) (e : exn) :
  py_assert b = Raise e -> e = AssertionError.
Proof. destruct b; cbn; intros H; inversion H. reflexivity. Qed.

Lemma unpack4_ok (sh : list nat) (x : nat * nat * nat * nat) :
  unpack4 sh = Ok x -> List.length sh = 4.
Proof.
  destruct sh as [|a [|b [|c [|d [|y l]]]]]; cbn; intros H; inversion H.
  reflexivity.
Qed.

Lemma stride_at_ok {E : Type} (T : Tensor E) (k s : nat) :
  stride_at T k = Ok s -> k < List.length (stride T).
Proof.
  unfold stride_at. destruct (nth_error (stride T) k) eqn:Hn; intros H;
    inversion H.
  apply nth_error_Some. rewrite Hn. discriminate.
Qed.

Lemma length_ge4 (l : list nat) :
  4 <= List.length l -> exists a b c d rest, l = a :: b :: c :: d :: rest.
Proof.
  destruct l as [|a [|b [|c [|d rest]]]]; cbn; intros H; try lia.
  exists a, b, c, d, rest. reflexivity.
Qed.

Lemma forward_returns_sufficient (fresh : nat -> F) (pick : nat)
    (Q K V : Tensor F) (scale : F) :
  List.length (stride Q) = List.length (shape Q) ->
  List.length (stride K) = List.length (shape K) ->
  List.length (stride V) = List.length (shape V) ->
  List.length (shape Q) = 4 ->
  4 <= List.length (shape K) -> 4 <= List.length (shape V) ->
  shape_last K = shape_last Q -> shape_last V = shape_last Q ->
  exists r, forward fresh pick Q K V scale = Ok r.
Proof.
  intros WQ WK WV LQ LK LV EK EV.
  destruct (length4 _ LQ) as (a & b & c & d & HQ).
  rewrite LQ in WQ. destruct (length4 _ WQ) as (q0 & q1 & q2 & q3 & SQ).
  rewrite <- WK in LK. destruct (length_ge4 _ LK)
    as (k0 & k1 & k2 & k3 & kr & SK).
  rewrite <- WV in LV. destruct (length_ge4 _ LV)
    as (v0 & v1 & v2 & v3 & vr & SV).
  unfold forward. rewrite EK, EV, (shape_last4 Q HQ). cbn [bind].
  rewrite Nat.eqb_refl. cbn [andb py_assert bind].
  unfold stride_at, empty_like, zeros. cbn [shape stride data].
  rewrite HQ, SQ, SK, SV.
  cbn [bind unpack4 nth_error contiguous_strides]. eexists. reflexivity.
Qed.

Lemma forward_returns_necessary (fresh : nat -> F) (pick : nat)
    (Q K V : Tensor F) (scale : F) (r : pyobj * Ctx) :
  forward fresh pick Q K V scale = Ok r ->
  List.length (shape Q) = 4
  /\ 4 <= List.length (stride K) /\ 4 <= List.length (stride V)
  /\ shape_last K = shape_last Q /\ shape_last V = shape_last Q.
Proof.
  unfold forward. intros H. do 5 bind_ok H.
  destruct x3 as [[[batch_size num_heads] seq_len] head_dim].
  cbv beta iota in H. repeat bind_ok H.
  repeat match goal with
         | H : stride_at _ _ = Ok _ |- _ => apply stride_at_ok in H
         | H : unpack4 _ = Ok _ |- _ => apply unpack4_ok in H
         end.
  cbn [stride empty_like] in *.
  match goal with
  | H : py_assert (Nat.eqb ?p ?q && Nat.eqb ?q ?s) = Ok _ |- _ =>
      destruct (Nat.eqb_spec p q) as [Hpq|Hpq];
      destruct (Nat.eqb_spec q s) as [Hqs|Hqs];
      cbn [andb py_assert] in H; try discriminate H
  end.
  subst. repeat split; congruence || lia.
Qed.

Lemma forward_raises_only (fresh : nat -> F) (pick : nat)
    (Q K V : Tensor F) (scale : F) (e : exn) :
  forward fresh pick Q K V scale = Raise e ->
  e = IndexError \/ e = AssertionError \/ e = ValueError.
Proof.
  unfold forward. intros H.
  repeat (bind_raise H;
          [first [ apply shape_last_raises in H
                 | apply py_assert_raises in H
                 | apply unpack4_raises in H
                 | apply stride_at_raises in H ]; auto|]).
  destruct x3 as [[[batch_size num_heads] seq_len] head_dim].
  cbv beta iota in H.
  repeat (bind_raise H; [apply stride_at_raises in H; auto|]).
  discriminate H.
Qed.
End ForwardReturns.

(** X16: when [forward] returns.  For tensors with as many strides as
    dimensions, [forward] runs to its [return] exactly when [Q] has four
    dimensions, [K] and [V] have at least four (their first four strides are
    passed to the kernel), and the last dimensions of [K] and [V] equal that
    of [Q]; batch, head and sequence extents of [K] and [V] are not looked
    at.  Otherwise it raises [IndexError] (no last dimension, or a stride
    that does not exist), [AssertionError] (last dimensions differ) or
    [ValueError] ([Q.shape] does not unpack into four names).  This is the
    host code: the launch itself is taken to succeed, what Triton asks of
    block extents is not modelled. *)
Theorem forward_returns_iff
    (F : Type) (A : Arith F) (fresh : nat -> F) (pick : nat)
    (Q K V : Tensor F) (scale : F) :
  List.length (stride Q) = List.length (shape Q) ->
  List.length (stride K) = List.length (shape K) ->
  List.length (stride V) = List.length (shape V) ->
  ((exists r, forward fresh pick Q K V scale = Ok r)
   <-> List.length (shape Q) = 4
       /\ 4 <= List.length (shape K) /\ 4 <= List.length (shape V)
       /\ shape_last K = shape_last Q /\ shape_last V = shape_last Q)
  /\ (forall e,
        forward fresh pick Q K V scale = Raise e ->
        e = IndexError \/ e = AssertionError \/ e = ValueError).
Proof.
  intros WQ WK WV. split; [split|].
  - intros [r Hr]. apply forward_returns_necessary in Hr.
    rewrite <- WK, <- WV. exact Hr.
  - intros (LQ & LK & LV & EK & EV).
    apply forward_returns_sufficient; assumption.
  - intros e. apply forward_raises_only.
Qed.

Lemma forward_returns_iff_witness :
  ((exists r, forward ex_fresh 0 ex_Q ex_K_5d ex_V 1%R = Ok r)
   <-> List.length (shape ex_Q) = 4
       /\ 4 <= List.length (shape ex_K_5d) /\ 4 <= List.length (shape ex_V)
       /\ shape_last ex_K_5d = shape_last ex_Q
       /\ shape_last ex_V = shape_last ex_Q)
  /\ (forall e,
        forward ex_fresh 0 ex_Q ex_K_5d ex_V 1%R = Raise e ->
        e = IndexError \/ e = AssertionError \/ e = ValueError).
Proof.
  apply (@forward_returns_iff R R_arith ex_fresh 0 ex_Q ex_K_5d ex_V 1%R);
    reflexivity.
Defined.

(** ** Row-major tensors are contiguous *)

Section Contiguity.

Lemma contiguous_from_app (z : nat) (l t : list (nat * nat)) :
  contiguous_from z l = true ->
  contiguous_from z (l ++ t)
  = contiguous_from (z * fold_right Nat.mul 1 (map fst l)) t.
Proof.
  revert z. induction l as [|[extent st] l IH]; intros z H.
  - cbn. rewrite Nat.mul_1_r. reflexivity.
  - cbn [app contiguous_from map fst fold_right] in *.
    destruct (Nat.eqb_spec extent 1) as [He|He].
    + rewrite IH by exact H. subst extent. f_equal. lia.
    + destruct (Nat.eqb st z); [|discriminate H].
      rewrite IH by exact H. f_equal. lia.
Qed.

Lemma prod_app (l1 l2 : list nat) :
  fold_right Nat.mul 1 (l1 ++ l2)
  = fold_right Nat.mul 1 l1 * fold_right Nat.mul 1 l2.
Proof.
  induction l1 as [|a l1 IH]; cbn; [lia|]. rewrite IH. lia.
Qed.

Lemma prod_rev (l : list nat) :
  fold_right Nat.mul 1 (rev l) = fold_right Nat.mul 1 l.
Proof.
  induction l as [|a l IH]; [reflexivity|].
  cbn [rev]. rewrite prod_app, IH. cbn. lia.
Qed.

Lemma map_fst_combine_strides (sh : list nat) :
  map fst (combine sh (contiguous_strides sh)) = sh.
Proof.
  induction sh as [|a sh IH]; cbn; [reflexivity|]. rewrite IH. reflexivity.
Qed.

Lemma contiguous_from_strides (sh : list nat) :
  contiguous_from 1 (rev (combine sh (contiguous_strides sh))) = true.
Proof.
  induction sh as [|a sh IH]; [reflexivity|].
  cbn [contiguous_strides combine rev].
  rewrite contiguous_from_app by exact IH.
  rewrite map_rev, prod_rev, map_fst_combine_strides, Nat.mul_1_l.
  cbn [contiguous_from]. rewrite Nat.eqb_refl.
  destruct (Nat.eqb a 1); reflexivity.
Qed.

(** A tensor laid out row-major passes [is_contiguous()]. *)
Lemma is_contiguous_row_major {E : Type} (T : Tensor E) :
  stride T = contiguous_strides (shape T) -> is_contiguous T = true.
Proof.
  intros HS. unfold is_contiguous. rewrite HS.
  destruct (Nat.eqb _ 0); [reflexivity|apply contiguous_from_strides].
Qed.

Lemma tuple_eqb_refl (l : list nat) : tuple_eqb l l = true.
Proof. unfold tuple_eqb. destruct (list_eq_dec Nat.eq_dec l l); congruence. Qed.
End Contiguity.

(** X17: the best case of [backward].  For contiguous [Q], [K], [V] of
    one shape on which [forward] returned, and a contiguous output gradient
    [dO] of that shape, both assertions of [backward] pass (a row-major
    tensor is contiguous, and [O] has the strides of [Q]), and the call
    raises the [TypeError] of [Q.shape(3)]. *)
Theorem backward_after_forward_raises_TypeError
    (F : Type) (A : Arith F) (fresh f1 f2 f3 f4 : nat -> F) (pick : nat)
    (Q K V dO : Tensor F) (scale : F) (Bt H S D : nat)
    (r : pyobj) (ctx : Ctx) :
  shape Q = [Bt; H; S; D] -> shape K = [Bt; H; S; D] ->
  shape V = [Bt; H; S; D] -> shape dO = [Bt; H; S; D] ->
  stride Q = contiguous_strides [Bt; H; S; D] ->
  stride K = contiguous_strides [Bt; H; S; D] ->
  stride V = contiguous_strides [Bt; H; S; D] ->
  stride dO = contiguous_strides [Bt; H; S; D] ->
  forward fresh pick Q K V scale = Ok (r, ctx) ->
  backward f1 f2 f3 f4 ctx dO = Raise TypeError.
Proof.
  intros HQ HK HV HdO SQ SK SV SdO Hfwd.
  rewrite (forward_contiguous fresh pick Q K V scale HQ HK HV SQ SK SV)
    in Hfwd.
  inversion Hfwd as [[Hr Hctx]]. clear Hfwd Hr.
  apply backward_past_assertions with (n0 := Bt) (n1 := H) (n2 := S).
  - apply is_contiguous_row_major. rewrite HdO. exact SdO.
  - cbn [saved_tensors fst snd]. unfold strides_all_equal, forward_O.
    cbn [stride]. rewrite SQ, SK, SV, SdO, !tuple_eqb_refl. reflexivity.
  - cbn [saved_tensors fst snd]. rewrite HQ. reflexivity.
Qed.

Lemma backward_after_forward_raises_TypeError_witness :
  backward ex_fresh ex_fresh ex_fresh ex_fresh ex_ctx ex_dO = Raise TypeError.
Proof.
  apply (@backward_after_forward_raises_TypeError R R_arith ex_fresh ex_fresh
           ex_fresh ex_fresh ex_fresh 0 ex_Q ex_K ex_V ex_dO 1%R 1 1 64 16
           (PyTensor (forward_O ex_fresh 0 ex_Q ex_K ex_V 1%R)) ex_ctx);
    reflexivity.
Defined.

(** ** The offsets the backward kernels compute *)

(** X18: the offset [_attn_bwd_preprocess] computes for its store into
    [D] adds [batch_head_idx * stride_D_head] where the head index is meant.
    With [stride_D_batch = NUM_HEADS * stride_D_head] (a contiguous [D]), the
    offset for batch [b], head [h] is that of batch [2 * b], head [h]; it is
    the offset of [D[b, h, row]] exactly when [b = 0]. *)
Theorem bwd_preprocess_store_offset_doubles_the_batch
    (F : Type) (A : Arith F) (a : BwdPreprocess.args (F := F))
    (query_block_idx batch_head_idx r : nat) :
  0 < BwdPreprocess.NUM_HEADS a ->
  BwdPreprocess.stride_D_batch a
  = BwdPreprocess.NUM_HEADS a * BwdPreprocess.stride_D_head a ->
  let b := BwdPreprocess.batch_idx a batch_head_idx in
  let h := BwdPreprocess.head_idx a batch_head_idx in
  let row := BwdPreprocess.offs_seq a query_block_idx r in
  BwdPreprocess.offs_di a query_block_idx batch_head_idx r
  = 2 * b * BwdPreprocess.stride_D_batch a
    + h * BwdPreprocess.stride_D_head a + row
  /\ (0 < BwdPreprocess.stride_D_head a ->
      (BwdPreprocess.offs_di a query_block_idx batch_head_idx r
       = b * BwdPreprocess.stride_D_batch a
         + h * BwdPreprocess.stride_D_head a + row
       <-> b = 0)).
Proof.
  intros HH HsB b h row.
  unfold BwdPreprocess.offs_di. fold b row.
  pose proof (Nat.div_mod_eq batch_head_idx (BwdPreprocess.NUM_HEADS a))
    as Hd.
  fold (BwdPreprocess.batch_idx a batch_head_idx) in Hd.
  fold (BwdPreprocess.head_idx a batch_head_idx) in Hd.
  fold b h in Hd.
  set (sH := BwdPreprocess.stride_D_head a) in *.
  set (sB := BwdPreprocess.stride_D_batch a) in *.
  set (NH := BwdPreprocess.NUM_HEADS a) in *.
  assert (E : batch_head_idx * sH = b * sB + h * sH).
  { rewrite Hd at 1. rewrite HsB. lia. }
  rewrite E. split; [lia|].
  intros HsH. split.
  - intros Heq. assert (Hz : b * sB = 0) by lia.
    rewrite HsB in Hz. nia.
  - intros ->. lia.
Qed.

Lemma bwd_preprocess_store_offset_doubles_the_batch_witness :
  let b := BwdPreprocess.batch_idx ex_pre_args 1 in
  let h := BwdPreprocess.head_idx ex_pre_args 1 in
  let row := BwdPreprocess.offs_seq ex_pre_args 0 0 in
  BwdPreprocess.offs_di ex_pre_args 0 1 0
  = 2 * b * BwdPreprocess.stride_D_batch ex_pre_args
    + h * BwdPreprocess.stride_D_head ex_pre_args + row
  /\ (0 < BwdPreprocess.stride_D_head ex_pre_args ->
      (BwdPreprocess.offs_di ex_pre_args 0 1 0
       = b * BwdPreprocess.stride_D_batch ex_pre_args
         + h * BwdPreprocess.stride_D_head ex_pre_args + row
       <-> b = 0)).
Proof.
  apply (@bwd_preprocess_store_offset_doubles_the_batch R R_arith ex_pre_args
           0 1 0); [cbn; lia|reflexivity].
Defined.
